(** * Command queue, retry policy and sync orchestrator of wlvyr-common

    A shallow embedding of
      - src/async/queue-status.js, queue-info.js, queue-command.js,
        retry-condition.js, retry-policy-evaluator.js, queue-consumer.js
      - src/common/user-command.js, user-command-meta.js,
        iobject-consolidator.js
      - src/sync/command-sync-orchestrator.js

    JavaScript objects live in a store ([World]) and are referred to by
    index, so that aliasing is kept.  Promises are modelled by a promise
    table and a FIFO microtask queue: a [then] callback or the rest of an
    async function after an [await] is a [Reaction], run by [runMicrotask].
    The persistence collaborator (src/storage/istorage.js) keeps serialized
    values: what it gives back has the data of what was saved and none of
    its functions. *)

From Stdlib Require Import ZArith Lia.
From stdpp Require Import base option list gmap strings.

Local Open Scope Z_scope.

(** ** Plain data *)

(** queue-status.js *)
Inductive QueueStatus := Initial | Processing | Complete.

#[global] Instance QueueStatus_eq_dec : EqDecision QueueStatus.
Proof. solve_decision. Defined.

(** queue-info.js *)
Record QueueInfo := mkQueueInfo {
  attemptNo : Z;
  dateCreated : Z;
  status : QueueStatus
}.

(** A boolean or [undefined], the values carried by the two signals. *)
Inductive Value := VUndefined | VBool (b : bool).

(** [success || false] *)
Definition orFalse (v : Value) : bool :=
  match v with VBool b => b | VUndefined => false end.

(** Objects are referred to by their index in the store. *)
Abbreviation PromiseId := nat.
Abbreviation QcId := nat.
Abbreviation UcId := nat.
Abbreviation SignalId := nat.
Abbreviation ListenerId := nat.

(** The [_onComplete] record of a QueueCommand. *)
Record OnComplete := mkOnComplete {
  oc_resolve : option PromiseId;
  oc_promise : option PromiseId;
  oc_completed : bool;
  oc_result : Value
}.

(** The [_onExecute] record of a UserCommand. *)
Record OnExecute := mkOnExecute {
  oe_resolve : option PromiseId;
  oe_promise : option PromiseId;
  oe_executed : bool;
  oe_result : Value
}.

(** user-command-meta.js *)
Record UserCommandMeta := mkMeta {
  resourceId : option string;
  contextId : option string;
  uuid : string;
  timestamp : Z;
  isPatch : bool;
  isSensitiveData : bool
}.

(** [`${contextId ?? ''}${resourceId ?? ''}${uuid}`] *)
Definition ReferenceId (m : UserCommandMeta) : string :=
  (default "" (contextId m) +:+ default "" (resourceId m) +:+ uuid m)%string.

(** A JavaScript string is truthy when it is present and not empty. *)
Definition truthy (s : option string) : bool :=
  match s with
  | Some s => negb (String.eqb s EmptyString)
  | None => false
  end.

(** A payload object: own properties with their values. *)
Abbreviation Payload := (gmap string Z).

(** user-command.js.  [_onExecute] is a reference: the object spread in
    [#buildConsolidatedCommand] copies the reference, not the record. *)
Record UserCommand := mkUserCommand {
  type : string;
  payload : Payload;
  meta : UserCommandMeta;
  _onExecute : SignalId
}.

(** queue-command.js *)
Record QueueCommand := mkQueueCommand {
  command : UcId;
  queueInfo : QueueInfo;
  _onComplete : OnComplete;
  _onStatusUpdateListeners : list ListenerId
}.

(** What the persistence collaborator keeps of a queue command: the
    command (type, payload, metadata) and the queue info at the time of
    [saveAsync].  It is also the object that [loadByKeyPrefixAsync] gives
    back: these data, and no function. *)
Record StoredRecord := mkStored {
  s_type : string;
  s_payload : Payload;
  s_meta : UserCommandMeta;
  s_queueInfo : QueueInfo
}.

(** ** Promises *)

(** The [then] callbacks and [await] continuations of the three files. *)
Inductive Reaction :=
| OnExecuteThen (qc : QcId)
    (* queue-consumer.js:169
       (success) => this.completedCommandExecution(queueCommand, success || false) *)
| OnCompleteThen (qc : QcId)
    (* command-sync-orchestrator.js:68
       async (success) => await this.#removeQueueCommandAsync(queueCommand) *)
| ConsumeResume
    (* #consume after [await this.#createWaitPromise(this)] *)
| RemoveResume (qc : QcId)
    (* #removeQueueCommandAsync after [await ...removeAsync(...)] *)
| HandleResume (qc : QcId)
    (* handleCommandAsync after [await ...saveAsync(...)] *)
| LoadResume (data : option (list StoredRecord))
    (* #loadCommandsAsync after [await ...loadByKeyPrefixAsync(...)] *)
| InitResume
    (* initializeAsync after [await this.#loadCommandsAsync(this.id)] *)
| Probe (tag : nat).
    (* a caller's own [then] callback; it records the value it receives *)

Record Promise := mkPromise {
  p_value : option Value;          (* None while pending *)
  p_reactions : list Reaction
}.

(** ** Collaborators *)

(** What one call of the work executor does before it returns. *)
Inductive ExecAction :=
| Returns                          (* returns, signals later or never *)
| Throws                           (* raises synchronously *)
| CallsExecuted (success : bool)   (* userCommand.executed(success) *)
| CallsCompleted (success : bool). (* consumer.completedCommandExecution(queueCommand, success) *)

Record QueueState := mkQueueState { processCount : Z }.

(** retry-condition.js: a condition is its [shouldRetry] method. *)
Definition IRetryCondition := UserCommand -> QueueInfo -> bool.

Definition AttempNoRetryCondition (retryCount : Z) : IRetryCondition :=
  fun _ info => attemptNo info <? retryCount.

(** retry-policy-evaluator.js *)
Record RetryPolicyEvaluator := mkEvaluator {
  conditions : list IRetryCondition
}.

Definition shouldRetry (e : RetryPolicyEvaluator) (c : UserCommand) (info : QueueInfo) : bool :=
  existsb (fun condition => condition c info) (conditions e).

Definition addCondition (condition : IRetryCondition) (e : RetryPolicyEvaluator)
  : RetryPolicyEvaluator :=
  mkEvaluator (conditions e ++ [condition]).

(** iobject-consolidator.js: a consolidator is its [consolidate] method. *)
Definition IObjectConsolidator := Payload -> Payload -> Payload.

(** [{ ...object1, ...object2 }] *)
Definition ItemConsolidator : IObjectConsolidator :=
  fun object1 object2 => object2 ∪ object1.

(** ** The store *)

Inductive Event :=
| EvConsume (uc : UcId)                       (* consumeFunc(command) was called *)
| EvStatusUpdate (listener : ListenerId) (qc : QcId) (s : QueueStatus)
| EvSave (key : string)
| EvRemove (key : string)
| EvLoadByKeyPrefix (prefix : string)
| EvUnhandledRejection
| EvProbe (tag : nat) (v : Value).

Record QueueConsumer := mkConsumer {
  consumeFunc : nat -> UserCommand -> ExecAction;
    (* first argument: how many times the executor ran before *)
  consumeConditions : list (QueueState -> bool);
  retryPolicyEvaluator : option RetryPolicyEvaluator;
  isRunning : bool;
  queueState : QueueState;
  queue : list QcId;                 (* Set: insertion order, no duplicates *)
  resumeResolver : option PromiseId
}.

Record CommandSyncOrchestrator := mkOrchestrator {
  id : string;
  commandConsolidator : option IObjectConsolidator;
  offlineStorage : option (list (string * StoredRecord));
  queueCommands : list QcId;         (* Set *)
  patchQueueCommands : gmap (option string) QcId;
  initialized : bool
}.

Record World := mkWorld {
  qcs : list QueueCommand;
  ucs : list UserCommand;
  signals : list OnExecute;
  promises : list Promise;
  microtasks : list (Reaction * Value);
  consumer : QueueConsumer;
  orchestrator : CommandSyncOrchestrator;
  now : Z;                           (* Date.now() *)
  trace : list Event;
  deserialized : list StoredRecord   (* the objects built by #loadCommandsAsync *)
}.

(** Field updates. *)
Definition upd_qcs (f : list QueueCommand -> list QueueCommand) (w : World) : World :=
  mkWorld (f (qcs w)) (ucs w) (signals w) (promises w) (microtasks w)
          (consumer w) (orchestrator w) (now w) (trace w) (deserialized w).
Definition upd_ucs (f : list UserCommand -> list UserCommand) (w : World) : World :=
  mkWorld (qcs w) (f (ucs w)) (signals w) (promises w) (microtasks w)
          (consumer w) (orchestrator w) (now w) (trace w) (deserialized w).
Definition upd_signals (f : list OnExecute -> list OnExecute) (w : World) : World :=
  mkWorld (qcs w) (ucs w) (f (signals w)) (promises w) (microtasks w)
          (consumer w) (orchestrator w) (now w) (trace w) (deserialized w).
Definition upd_promises (f : list Promise -> list Promise) (w : World) : World :=
  mkWorld (qcs w) (ucs w) (signals w) (f (promises w)) (microtasks w)
          (consumer w) (orchestrator w) (now w) (trace w) (deserialized w).
Definition upd_microtasks (f : list (Reaction * Value) -> list (Reaction * Value))
  (w : World) : World :=
  mkWorld (qcs w) (ucs w) (signals w) (promises w) (f (microtasks w))
          (consumer w) (orchestrator w) (now w) (trace w) (deserialized w).
Definition upd_consumer (f : QueueConsumer -> QueueConsumer) (w : World) : World :=
  mkWorld (qcs w) (ucs w) (signals w) (promises w) (microtasks w)
          (f (consumer w)) (orchestrator w) (now w) (trace w) (deserialized w).
Definition upd_orchestrator (f : CommandSyncOrchestrator -> CommandSyncOrchestrator)
  (w : World) : World :=
  mkWorld (qcs w) (ucs w) (signals w) (promises w) (microtasks w)
          (consumer w) (f (orchestrator w)) (now w) (trace w) (deserialized w).
Definition upd_deserialized (f : list StoredRecord -> list StoredRecord) (w : World)
  : World :=
  mkWorld (qcs w) (ucs w) (signals w) (promises w) (microtasks w)
          (consumer w) (orchestrator w) (now w) (trace w) (f (deserialized w)).
Definition log (e : Event) (w : World) : World :=
  mkWorld (qcs w) (ucs w) (signals w) (promises w) (microtasks w)
          (consumer w) (orchestrator w) (now w) (trace w ++ [e]) (deserialized w).

Definition set_isRunning (b : bool) (c : QueueConsumer) : QueueConsumer :=
  mkConsumer (consumeFunc c) (consumeConditions c) (retryPolicyEvaluator c)
             b (queueState c) (queue c) (resumeResolver c).
Definition set_processCount (n : Z) (c : QueueConsumer) : QueueConsumer :=
  mkConsumer (consumeFunc c) (consumeConditions c) (retryPolicyEvaluator c)
             (isRunning c) (mkQueueState n) (queue c) (resumeResolver c).
Definition set_queue (q : list QcId) (c : QueueConsumer) : QueueConsumer :=
  mkConsumer (consumeFunc c) (consumeConditions c) (retryPolicyEvaluator c)
             (isRunning c) (queueState c) q (resumeResolver c).
Definition set_resumeResolver (r : option PromiseId) (c : QueueConsumer) : QueueConsumer :=
  mkConsumer (consumeFunc c) (consumeConditions c) (retryPolicyEvaluator c)
             (isRunning c) (queueState c) (queue c) r.

Definition set_offlineStorage (s : option (list (string * StoredRecord)))
  (o : CommandSyncOrchestrator) : CommandSyncOrchestrator :=
  mkOrchestrator (id o) (commandConsolidator o) s (queueCommands o)
                 (patchQueueCommands o) (initialized o).
Definition set_queueCommands (s : list QcId) (o : CommandSyncOrchestrator)
  : CommandSyncOrchestrator :=
  mkOrchestrator (id o) (commandConsolidator o) (offlineStorage o) s
                 (patchQueueCommands o) (initialized o).
Definition set_patchQueueCommands (m : gmap (option string) QcId)
  (o : CommandSyncOrchestrator) : CommandSyncOrchestrator :=
  mkOrchestrator (id o) (commandConsolidator o) (offlineStorage o) (queueCommands o)
                 m (initialized o).
Definition set_initialized (b : bool) (o : CommandSyncOrchestrator)
  : CommandSyncOrchestrator :=
  mkOrchestrator (id o) (commandConsolidator o) (offlineStorage o) (queueCommands o)
                 (patchQueueCommands o) b.

Definition set_status (s : QueueStatus) (q : QueueCommand) : QueueCommand :=
  mkQueueCommand (command q)
    (mkQueueInfo (attemptNo (queueInfo q)) (dateCreated (queueInfo q)) s)
    (_onComplete q) (_onStatusUpdateListeners q).
Definition set_attemptNo (n : Z) (q : QueueCommand) : QueueCommand :=
  mkQueueCommand (command q)
    (mkQueueInfo n (dateCreated (queueInfo q)) (status (queueInfo q)))
    (_onComplete q) (_onStatusUpdateListeners q).
Definition set_onComplete (oc : OnComplete) (q : QueueCommand) : QueueCommand :=
  mkQueueCommand (command q) (queueInfo q) oc (_onStatusUpdateListeners q).
Definition set_listeners (l : list ListenerId) (q : QueueCommand) : QueueCommand :=
  mkQueueCommand (command q) (queueInfo q) (_onComplete q) l.

(** [x.f = v] on the object at index [i]; nothing if there is none. *)
Definition upd_qc (i : QcId) (f : QueueCommand -> QueueCommand) (w : World) : World :=
  upd_qcs (fun l => match l !! i with Some q => <[i := f q]> l | None => l end) w.

(** A JavaScript Set of references, in insertion order. *)
Definition set_add (x : nat) (s : list nat) : list nat :=
  if bool_decide (x ∈ s) then s else s ++ [x].
Definition set_delete (x : nat) (s : list nat) : list nat :=
  filter (fun y => y ≠ x) s.

(** *** Deserialized objects

    A value of the persistence collaborator is serialized: istorage.js
    asks for a serializable object and promises deserialized objects, and
    the PasswordCipher of EncryptedStorage goes through [JSON.stringify]
    and [JSON.parse].  So what
    [loadByKeyPrefixAsync] gives back has the data of the queue command
    that was saved and none of its functions.  [#loadCommandsAsync] copies
    these properties into [Object.create(QueueCommand.prototype)].  The
    methods of QueueCommand and of UserCommand are class fields, set by the
    constructors, and not properties of the prototypes: the object that
    [#loadCommandsAsync] tracks and enqueues has [command] and [queueInfo],
    which the consumer and the orchestrator read and write, and no method;
    its [command.meta] is a plain object without the [ReferenceId] getter.
    [_onComplete], [_onStatusUpdateListeners] and [command._onExecute] are
    read by the missing methods only and are not kept.

    These objects live in [deserialized].  The one at index [j] is
    referred to by [deserializedFrom + j]; an index that is in [qcs] always
    refers to the QueueCommand instance there.  [deserializedFrom] stands
    for a number of QueueCommand instances that a run does not reach. *)
Definition deserializedFrom : nat := 1000.
#[global] Arguments deserializedFrom : simpl never.

Definition deserializedAt (qc : QcId) (w : World) : option StoredRecord :=
  match qcs w !! qc with
  | Some _ => None
  | None =>
      if decide (deserializedFrom <= qc)%nat
      then deserialized w !! (qc - deserializedFrom)%nat
      else None
  end.

Definition set_s_queueInfo (info : QueueInfo) (d : StoredRecord) : StoredRecord :=
  mkStored (s_type d) (s_payload d) (s_meta d) info.

(** [x.queueInfo = info] on the deserialized object [qc]. *)
Definition upd_deserializedAt (qc : QcId) (info : QueueInfo) (w : World) : World :=
  match deserializedAt qc w with
  | Some d =>
      upd_deserialized (fun l => <[(qc - deserializedFrom)%nat := set_s_queueInfo info d]> l) w
  | None => w
  end.

(** The [command] of a deserialized object as a retry condition receives
    it: the data; its [_onExecute] refers to no execution signal. *)
Definition s_command (d : StoredRecord) (w : World) : UserCommand :=
  mkUserCommand (s_type d) (s_payload d) (s_meta d) (length (signals w)).

(** *** Promise table *)

(** [new Promise(...)] *)
Definition newPromise (w : World) : PromiseId * World :=
  (length (promises w), upd_promises (fun l => l ++ [mkPromise None []]) w).

(** [Promise.resolve(v)] *)
Definition promiseResolve (v : Value) (w : World) : PromiseId * World :=
  (length (promises w), upd_promises (fun l => l ++ [mkPromise (Some v) []]) w).

(** [p.then(k)]: queued at once when [p] is settled, kept otherwise. *)
Definition thenDo (p : PromiseId) (k : Reaction) (w : World) : World :=
  match promises w !! p with
  | Some (mkPromise (Some v) _) => upd_microtasks (fun q => q ++ [(k, v)]) w
  | Some (mkPromise None ks) =>
      upd_promises (fun l => <[p := mkPromise None (ks ++ [k])]> l) w
  | None => w
  end.

(** Calling the [resolve] function of [p] with [v]: the first call settles
    it and queues its callbacks, later calls do nothing. *)
Definition resolvePromise (p : PromiseId) (v : Value) (w : World) : World :=
  match promises w !! p with
  | Some (mkPromise None ks) =>
      upd_microtasks (fun q => q ++ map (fun k => (k, v)) ks)
        (upd_promises (fun l => <[p := mkPromise (Some v) []]> l) w)
  | _ => w
  end.

(** [await undefined], or [await] of a promise that is already settled:
    the rest of the async function runs as a microtask. *)
Definition awaitSettled (k : Reaction) (w : World) : World :=
  upd_microtasks (fun q => q ++ [(k, VUndefined)]) w.

(** ** queue-command.js *)

(** [new QueueCommand(userCommand)] *)
Definition newQueueCommand (uc : UcId) (w : World) : QcId * World :=
  (length (qcs w),
   upd_qcs (fun l => l ++ [mkQueueCommand uc (mkQueueInfo 0 (now w) Initial)
                             (mkOnComplete None None false VUndefined) []]) w).

Definition addOnStatusUpdate (qc : QcId) (listener : ListenerId) (w : World) : World :=
  upd_qc qc (fun q => set_listeners (set_add listener (_onStatusUpdateListeners q)) q) w.

Definition removeOnStatusUpdate (qc : QcId) (listener : ListenerId) (w : World) : World :=
  upd_qc qc (fun q => set_listeners (set_delete listener (_onStatusUpdateListeners q)) q) w.

Definition onComplete (qc : QcId) (w : World) : PromiseId * World :=
  match qcs w !! qc with
  | Some q =>
      let oc := _onComplete q in
      if oc_completed oc then promiseResolve (oc_result oc) w
      else match oc_promise oc with
           | Some p => (p, w)
           | None =>
               let '(p, w1) := newPromise w in
               (p, upd_qc qc (set_onComplete
                                (mkOnComplete (Some p) (Some p)
                                              (oc_completed oc) (oc_result oc))) w1)
           end
  | None => promiseResolve VUndefined w
  end.

Definition completed (qc : QcId) (success : bool) (w : World) : World :=
  match qcs w !! qc with
  | Some q =>
      match oc_resolve (_onComplete q) with
      | Some p =>
          upd_qc qc (set_onComplete (mkOnComplete None None true (VBool success)))
            (resolvePromise p (VBool success) w)
      | None => w
      end
  | None => w
  end.

Definition onStatusUpdate (qc : QcId) (s : QueueStatus) (w : World) : World :=
  match qcs w !! qc with
  | Some q =>
      foldl (fun w' listener => log (EvStatusUpdate listener qc s) w')
            w (_onStatusUpdateListeners q)
  | None => w
  end.

(** ** user-command.js *)

(** [new UserCommand(type, payload, meta)] with a metadata object. *)
Definition newUserCommand (t : string) (p : Payload) (m : UserCommandMeta) (w : World)
  : UcId * World :=
  (length (ucs w),
   upd_ucs (fun l => l ++ [mkUserCommand t p m (length (signals w))])
     (upd_signals (fun l => l ++ [mkOnExecute None None false VUndefined]) w)).

Definition onExecute (uc : UcId) (w : World) : PromiseId * World :=
  match ucs w !! uc ≫= fun c => signals w !! _onExecute c with
  | Some oe =>
      if oe_executed oe then promiseResolve (oe_result oe) w
      else match oe_promise oe with
           | Some p => (p, w)
           | None =>
               let '(p, w1) := newPromise w in
               (p, upd_signals
                     (fun l => match ucs w !! uc with
                               | Some c =>
                                   <[_onExecute c :=
                                       mkOnExecute (Some p) (Some p)
                                                   (oe_executed oe) (oe_result oe)]> l
                               | None => l
                               end) w1)
           end
  | None => promiseResolve VUndefined w
  end.

Definition executed (uc : UcId) (success : bool) (w : World) : World :=
  match ucs w !! uc with
  | Some c =>
      match signals w !! _onExecute c ≫= oe_resolve with
      | Some p =>
          upd_signals (fun l => <[_onExecute c :=
                                    mkOnExecute None None true (VBool success)]> l)
            (resolvePromise p (VBool success) w)
      | None => w
      end
  | None => w
  end.

(** ** queue-consumer.js *)

Definition conditionsSatisfied (c : QueueConsumer) : bool :=
  forallb (fun conditionSatisfied => conditionSatisfied (queueState c))
          (consumeConditions c).

Definition resumeOnConditionsSatisfied (w : World) : World :=
  let c := consumer w in
  if isRunning c && negb (bool_decide (queue c = [])) && conditionsSatisfied c
  then match resumeResolver c with
       | Some p => upd_consumer (set_resumeResolver None)
                     (resolvePromise p VUndefined w)
       | None => w
       end
  else w.

Definition shouldConsumerWait (c : QueueConsumer) : bool :=
  bool_decide (queue c = []) ||
  existsb (fun condition => negb (condition (queueState c))) (consumeConditions c).

(** The two guards of [enqueue] ([queueCommand.command] and
    [queueCommand.queueInfo] undefined) cannot fire on a [QueueCommand] of
    the store, where both fields are always present. *)
Definition enqueue (qc : QcId) (w : World) : World :=
  resumeOnConditionsSatisfied
    (upd_consumer (fun c => set_queue (set_add qc (queue c)) c) w).

Definition remove (qc : QcId) (w : World) : World :=
  upd_consumer (fun c => set_queue (set_delete qc (queue c)) c) w.

Definition stop (w : World) : World :=
  upd_consumer (set_isRunning false) w.

Definition consumeConditionStateUpdatedEvtListenerAction (w : World) : World :=
  resumeOnConditionsSatisfied w.

Definition decrProcessCount (w : World) : World :=
  upd_consumer (fun c => set_processCount (processCount (queueState c) - 1) c) w.

Definition incrProcessCount (w : World) : World :=
  upd_consumer (fun c => set_processCount (processCount (queueState c) + 1) c) w.

(** [this.retryPolicyEvaluator?.shouldRetry(command, queueInfo) ?? false] *)
Definition retryDecision (qc : QcId) (w : World) : bool :=
  match retryPolicyEvaluator (consumer w),
        qcs w !! qc ≫= fun q => ucs w !! command q ≫= fun c => Some (c, queueInfo q) with
  | Some e, Some (c, info) => shouldRetry e c info
  | _, _ => false
  end.

(** [#handleRetry] on a deserialized object.  The retry branch calls no
    method of the queue command.  The other branch sets the status and
    calls [queueCommand.onStatusUpdate], which is not a function: a
    TypeError is raised, [completed(false)] and [processCount--] are not
    reached.  The boolean tells whether the call raised. *)
Definition handleRetryDeserialized (qc : QcId) (d : StoredRecord) (w : World)
  : bool * World :=
  let info := s_queueInfo d in
  let attempt := attemptNo info + 1 in
  let shouldRetry :=
    match retryPolicyEvaluator (consumer w) with
    | Some e => shouldRetry e (s_command d w) (mkQueueInfo attempt (dateCreated info) (status info))
    | None => false
    end in
  if shouldRetry
  then (false,
        decrProcessCount
          (resumeOnConditionsSatisfied
             (enqueue qc
                (upd_deserializedAt qc (mkQueueInfo attempt (dateCreated info) Initial) w))))
  else (true, upd_deserializedAt qc (mkQueueInfo attempt (dateCreated info) Complete) w).

(** [#handleRetry].  On a deserialized object: the state that
    [handleRetryDeserialized] leaves; whether the call raised matters to
    the callers, which use [handleRetryDeserialized]. *)
Definition handleRetry (qc : QcId) (w : World) : World :=
  match qcs w !! qc with
  | Some q =>
      let w1 := upd_qc qc (set_attemptNo (attemptNo (queueInfo q) + 1)) w in
      let w2 :=
        if retryDecision qc w1
        then resumeOnConditionsSatisfied (enqueue qc (upd_qc qc (set_status Initial) w1))
        else completed qc false
               (onStatusUpdate qc Complete (upd_qc qc (set_status Complete) w1)) in
      decrProcessCount w2
  | None =>
      match deserializedAt qc w with
      | Some d => (handleRetryDeserialized qc d w).2
      | None => log EvUnhandledRejection w
      end
  end.

(** On a deserialized object the success branch sets the status and calls
    [queueCommand?.completed], which is not a function: the TypeError goes
    to the caller, [processCount--] and the wake-up are not reached; so it
    is when [#handleRetry] raises. *)
Definition completedCommandExecution (qc : QcId) (success : bool) (w : World) : World :=
  match deserializedAt qc w with
  | Some d =>
      if success
      then upd_deserializedAt qc
             (mkQueueInfo (attemptNo (s_queueInfo d)) (dateCreated (s_queueInfo d)) Complete) w
      else let '(raised, w1) := handleRetryDeserialized qc d w in
           if raised then w1 else resumeOnConditionsSatisfied w1
  | None =>
      resumeOnConditionsSatisfied
        (if success
         then decrProcessCount (completed qc true (upd_qc qc (set_status Complete) w))
         else handleRetry qc w)
  end.

Definition dequeue (w : World) : option QcId * World :=
  match queue (consumer w) with
  | nextItem :: _ => (Some nextItem, remove nextItem w)
  | [] => (None, w)
  end.

Definition isConsume (e : Event) : bool :=
  match e with EvConsume _ => true | _ => false end.

(** How many times the executor has been called. *)
Definition executions (w : World) : nat := length (filter isConsume (trace w)).

Definition processCommand (oqc : option QcId) (w : World) : World :=
  match oqc ≫= fun qc => qcs w !! qc ≫= fun q => ucs w !! command q ≫= fun c =>
        Some (qc, command q, c) with
  | Some (qc, uc, c) =>
      let '(p, w1) := onExecute uc w in
      let w2 := thenDo p (OnExecuteThen qc) w1 in
      let w3 := upd_qc qc (set_status Processing) w2 in
      let w4 := onStatusUpdate qc Processing w3 in
      let w5 := incrProcessCount w4 in
      let w6 := log (EvConsume uc) w5 in
      match consumeFunc (consumer w5) (executions w5) c with
      | Returns => w6
      | Throws => handleRetry qc w6
      | CallsExecuted success => executed uc success w6
      | CallsCompleted success => completedCommandExecution qc success w6
      end
  | None =>
      match oqc ≫= fun qc => deserializedAt qc w ≫= fun d => Some (qc, d) with
      | Some (qc, d) =>
          (* a deserialized object: [userCommand.onExecute] is not a
             function, the TypeError is caught and the catch block calls
             #handleRetry; when that raises, the promise of this async
             function is rejected and nobody handles it. *)
          let '(raised, w1) := handleRetryDeserialized qc d w in
          if raised then log EvUnhandledRejection w1 else w1
      | None =>
          (* queueCommand is undefined: the property access raises, the catch
             block calls #handleRetry(undefined), which raises again. *)
          log EvUnhandledRejection w
      end
  end.

Definition createWaitPromise (w : World) : PromiseId * World :=
  let '(p, w1) := newPromise w in
  (p, upd_consumer (set_resumeResolver (Some p)) w1).

(** The loop of [#consume], from the test of [this.isRunning] on.  It ends
    when the consumer is stopped or when it suspends on the wait promise;
    [None] when [fuel] iterations were not enough. *)
Fixpoint consumeLoop (fuel : nat) (w : World) : option World :=
  match fuel with
  | O => None
  | S fuel' =>
      if isRunning (consumer w) then
        if shouldConsumerWait (consumer w) then
          let '(p, w1) := createWaitPromise w in
          Some (thenDo p ConsumeResume w1)
        else
          let '(queueCommand, w1) := dequeue w in
          consumeLoop fuel' (processCommand queueCommand w1)
      else Some w
  end.

(** [#consume] after its [await]: the rest of the iteration, then the loop. *)
Definition consumeResume (fuel : nat) (w : World) : option World :=
  let '(queueCommand, w1) := dequeue w in
  consumeLoop fuel (processCommand queueCommand w1).

Definition start (fuel : nat) (w : World) : option World :=
  let wasRunning := isRunning (consumer w) in
  let w1 := resumeOnConditionsSatisfied (upd_consumer (set_isRunning true) w) in
  if wasRunning then Some w1 else consumeLoop fuel w1.

(** ** The persistence collaborator (IStorage)

    The collaborator is taken to finish each operation at once: its effect
    is visible when the call returns and the promise it returns is already
    settled, as with an in-memory store. *)

Definition saveAsync (key : string) (v : StoredRecord)
  (s : list (string * StoredRecord)) : list (string * StoredRecord) :=
  if existsb (fun kv => String.eqb kv.1 key) s
  then map (fun kv => if String.eqb kv.1 key then (key, v) else kv) s
  else s ++ [(key, v)].

Definition removeAsync (key : string) (s : list (string * StoredRecord))
  : list (string * StoredRecord) :=
  filter (fun kv => kv.1 ≠ key) s.

Definition loadByKeyPrefixAsync (keyPrefix : string) (s : list (string * StoredRecord))
  : list StoredRecord :=
  map snd (filter (fun kv => String.prefix keyPrefix kv.1 = true) s).

(** The last word of a call: it returned, it raised, or (async function)
    the promise it returned was rejected. *)
Inductive Completion :=
| Returned
| Threw (message : string)
| Rejected (message : string).

(** ** command-sync-orchestrator.js *)
Module Sync.

Definition uninitialized : string := "Initialized. Call initialize() first.".

Definition metaOf (qc : QcId) (w : World) : option UserCommandMeta :=
  qcs w !! qc ≫= fun q => ucs w !! command q ≫= fun c => Some (meta c).

(** [#getKey].  The metadata of a deserialized object is a plain object:
    [meta.ReferenceId] is undefined there. *)
Definition getKey (qc : QcId) (w : World) : string :=
  (id (orchestrator w) +:+ "-" +:+
   match metaOf qc w with
   | Some m => ReferenceId m
   | None => match deserializedAt qc w with Some _ => "undefined" | None => "" end
   end)%string.

Definition snapshot (qc : QcId) (w : World) : option StoredRecord :=
  qcs w !! qc ≫= fun q => ucs w !! command q ≫= fun c =>
  Some (mkStored (type c) (payload c) (meta c) (queueInfo q)).

(** [await this.offlineStorage?.saveAsync(this.#getKey(queueCommand), queueCommand)],
    up to the suspension. *)
Definition storageSave (qc : QcId) (w : World) : World :=
  match offlineStorage (orchestrator w), snapshot qc w with
  | Some s, Some v =>
      log (EvSave (getKey qc w))
        (upd_orchestrator (set_offlineStorage (Some (saveAsync (getKey qc w) v s))) w)
  | _, _ => w
  end.

Definition storageRemove (qc : QcId) (w : World) : World :=
  match offlineStorage (orchestrator w) with
  | Some s =>
      log (EvRemove (getKey qc w))
        (upd_orchestrator (set_offlineStorage (Some (removeAsync (getKey qc w) s))) w)
  | None => w
  end.

(** [#removeQueueCommandAsync], up to its [await]. *)
Definition removeQueueCommandAsync (qc : QcId) (w : World) : World :=
  awaitSettled (RemoveResume qc) (storageRemove qc w).

(** [#removeQueueCommandAsync], after its [await]. *)
Definition removeResume (qc : QcId) (w : World) : World :=
  let commandMeta :=
    match metaOf qc w with
    | Some m => Some m
    | None => s_meta <$> deserializedAt qc w
    end in
  let key := commandMeta ≫= resourceId in
  remove qc
    (upd_orchestrator
       (fun o => set_patchQueueCommands (delete key (patchQueueCommands o))
                   (set_queueCommands (set_delete qc (queueCommands o)) o)) w).

Definition ensureInitialized (w : World) : bool := initialized (orchestrator w).

(** [#buildConsolidatedCommand] *)
Definition buildConsolidatedCommand (uc : UcId) (w : World) : QcId * World :=
  match ucs w !! uc with
  | Some userCommand =>
      let commandMeta := meta userCommand in
      let existingQueueCommand :=
        patchQueueCommands (orchestrator w) !! resourceId commandMeta in
      let consolidation :=
        match existingQueueCommand, commandConsolidator (orchestrator w) with
        | Some existing, Some consolidator =>
            match
              match qcs w !! existing ≫= fun q =>
                    ucs w !! command q ≫= fun c => Some (status (queueInfo q), payload c) with
              | Some statusAndPayload => Some statusAndPayload
              | None =>
                  (fun d => (status (s_queueInfo d), s_payload d)) <$> deserializedAt existing w
              end
            with
            | Some (Initial, existingPayload) =>
                Some (existing, consolidator (payload userCommand) existingPayload)
            | _ => None
            end
        | _, _ => None
        end in
      let '(queueCommand, w1) :=
        match consolidation with
        | Some (existing, newPayload) =>
            let w1 := removeQueueCommandAsync existing w in
            (* { ...userCommand, payload: newPayload } *)
            let merged := length (ucs w1) in
            let w2 := upd_ucs (fun l => l ++ [mkUserCommand (type userCommand) newPayload
                                                (meta userCommand)
                                                (_onExecute userCommand)]) w1 in
            newQueueCommand merged w2
        | None => newQueueCommand uc w
        end in
      (queueCommand,
       upd_orchestrator
         (fun o => set_patchQueueCommands
                     (<[resourceId commandMeta := queueCommand]> (patchQueueCommands o)) o)
         w1)
  | None => newQueueCommand uc w
  end.

(** [#consolidateCommand] *)
Definition consolidateCommand (fuel : nat) (uc : UcId) (w : World)
  : option (QcId * World) :=
  let '(queueCommand, w1) := buildConsolidatedCommand uc (stop w) in
  w2 ← start fuel w1; Some (queueCommand, w2).

(** [handleCommandAsync], up to its [await]. *)
Definition handleCommandAsync (fuel : nat) (uc : UcId) (w : World)
  : option (Completion * World) :=
  if negb (ensureInitialized w) then Some (Rejected uninitialized, w)
  else
    let direct :=
      match ucs w !! uc with
      | Some c => negb (isPatch (meta c)) || negb (truthy (resourceId (meta c)))
      | None => true
      end in
    '(queueCommand, w1) ← (if direct then Some (newQueueCommand uc w)
                            else consolidateCommand fuel uc w);
    let '(p, w2) := onComplete queueCommand w1 in
    let w3 := thenDo p (OnCompleteThen queueCommand) w2 in
    Some (Returned, awaitSettled (HandleResume queueCommand) (storageSave queueCommand w3)).

(** [handleCommandAsync], after its [await]. *)
Definition handleResume (qc : QcId) (w : World) : World :=
  enqueue qc
    (upd_orchestrator (fun o => set_queueCommands (set_add qc (queueCommands o)) o) w).

Definition dispose (w : World) : World :=
  let w1 := stop w in
  let w2 := foldl (fun w' queueCommand => removeQueueCommandAsync queueCommand w')
                  w1 (queueCommands (orchestrator w1)) in
  upd_orchestrator (fun o => set_patchQueueCommands ∅ (set_queueCommands [] o)) w2.

Definition start (fuel : nat) (w : World) : option (Completion * World) :=
  if negb (ensureInitialized w) then Some (Threw uninitialized, w)
  else w1 ← start fuel w; Some (Returned, w1).

Definition stop (w : World) : Completion * World :=
  (Returned, stop w).

(** [#loadCommandsAsync], up to its [await] (or to its early return). *)
Definition loadCommandsAsync (w : World) : World :=
  if initialized (orchestrator w) then awaitSettled InitResume w
  else
    match offlineStorage (orchestrator w) with
    | Some s =>
        let keyPrefix := (id (orchestrator w) +:+ "-")%string in
        awaitSettled (LoadResume (Some (loadByKeyPrefixAsync keyPrefix s)))
          (log (EvLoadByKeyPrefix keyPrefix) w)
    | None => awaitSettled (LoadResume None) w
    end.

(** The body of the [forEach] of [#loadCommandsAsync]:
    [Object.create(QueueCommand.prototype)] and [Object.assign] build a
    deserialized object, which is tracked, enqueued and, if its command is
    a patch, entered in the patch index. *)
Definition loadOne (w : World) (obj : StoredRecord) : World :=
  let queueCommand := (deserializedFrom + length (deserialized w))%nat in
  let w1 := upd_deserialized (fun l => l ++ [obj]) w in
  let w2 := enqueue queueCommand
              (upd_orchestrator
                 (fun o => set_queueCommands (set_add queueCommand (queueCommands o)) o) w1) in
  if isPatch (s_meta obj)
  then upd_orchestrator
         (fun o => set_patchQueueCommands
                     (<[resourceId (s_meta obj) := queueCommand]> (patchQueueCommands o)) o)
         w2
  else w2.

(** [#loadCommandsAsync], after its [await]. *)
Definition loadResume (data : option (list StoredRecord)) (w : World) : World :=
  awaitSettled InitResume
    match data with
    | Some data => foldl loadOne w data
    | None => w
    end.

(** [initializeAsync], up to its [await]. *)
Definition initializeAsync (w : World) : World := loadCommandsAsync w.

(** [initializeAsync], after its [await]. *)
Definition initResume (w : World) : World :=
  upd_orchestrator (set_initialized true) w.

End Sync.

(** ** The microtask queue *)

Definition runReaction (fuel : nat) (k : Reaction) (v : Value) (w : World)
  : option World :=
  match k with
  | OnExecuteThen qc => Some (completedCommandExecution qc (orFalse v) w)
  | OnCompleteThen qc => Some (Sync.removeQueueCommandAsync qc w)
  | ConsumeResume => consumeResume fuel w
  | RemoveResume qc => Some (Sync.removeResume qc w)
  | HandleResume qc => Some (Sync.handleResume qc w)
  | LoadResume data => Some (Sync.loadResume data w)
  | InitResume => Some (Sync.initResume w)
  | Probe tag => Some (log (EvProbe tag v) w)
  end.

(** Runs the oldest microtask. *)
Definition runMicrotask (fuel : nat) (w : World) : option World :=
  match microtasks w with
  | (k, v) :: rest => runReaction fuel k v (upd_microtasks (fun _ => rest) w)
  | [] => Some w
  end.

(** Runs microtasks until none is left. *)
Fixpoint drain (fuel : nat) (w : World) : option World :=
  match fuel with
  | O => None
  | S fuel' =>
      match microtasks w with
      | [] => Some w
      | _ => w1 ← runMicrotask fuel w; drain fuel' w1
      end
  end.

(** ** Construction *)

(** [new QueueConsumer(consumeFunc, consumeConditions, retryPolicyEvaluator)] *)
Definition newQueueConsumer (consumeFunc : nat -> UserCommand -> ExecAction)
  (consumeConditions : list (QueueState -> bool))
  (retryPolicyEvaluator : option RetryPolicyEvaluator) : QueueConsumer :=
  mkConsumer consumeFunc consumeConditions retryPolicyEvaluator
             false (mkQueueState 0) [] None.

(** [new CommandSyncOrchestrator(id, queueConsumer, commandConsolidator, offlineStorage)] *)
Definition newCommandSyncOrchestrator (id : string)
  (commandConsolidator : option IObjectConsolidator)
  (offlineStorage : option (list (string * StoredRecord))) : CommandSyncOrchestrator :=
  mkOrchestrator id commandConsolidator offlineStorage [] ∅ false.

(** A program start: no object yet, no promise, an empty microtask queue. *)
Definition initialWorld (c : QueueConsumer) (o : CommandSyncOrchestrator) (now : Z)
  : World :=
  mkWorld [] [] [] [] [] c o now [] [].

(** [p.then(v => record(tag, v))] by a caller. *)
Definition probe (tag : nat) (p : PromiseId) (w : World) : World :=
  thenDo p (Probe tag) w.

(** ** Observations *)

(** [queueCommand.queueInfo.status], of an instance or of a deserialized
    object. *)
Definition statusOf (qc : QcId) (w : World) : option QueueStatus :=
  match status ∘ queueInfo <$> qcs w !! qc with
  | Some s => Some s
  | None => status ∘ s_queueInfo <$> deserializedAt qc w
  end.

Definition attemptNoOf (qc : QcId) (w : World) : option Z :=
  attemptNo ∘ queueInfo <$> qcs w !! qc.

Definition listenersOf (qc : QcId) (w : World) : list ListenerId :=
  default [] (_onStatusUpdateListeners <$> qcs w !! qc).

Definition pending (w : World) : list QcId := queue (consumer w).

Definition processCountOf (w : World) : Z := processCount (queueState (consumer w)).

(** How many queue commands are [Processing]. *)
Definition processing (w : World) : nat :=
  length (filter (fun q => status (queueInfo q) = Processing) (qcs w)).

(** The notifications a status change to [s] owes to the observers of [qc]. *)
Definition notifications (qc : QcId) (s : QueueStatus) (w : World) : list Event :=
  map (fun listener => EvStatusUpdate listener qc s) (listenersOf qc w).


(** ** Client programs

    What the code around the queue does, one call at a time.  A list of
    actions is one run of client code; [Tick] gives the microtask queue
    the time to empty, as when the client code returns to the event loop.
    The queue command of [ThenOnComplete], [AddOnStatusUpdate] and
    [Completed] is a QueueCommand instance: these are its methods, which a
    deserialized object does not have. *)

Inductive Action :=
| NewUserCommand (type : string) (payload : Payload) (meta : UserCommandMeta)
| NewQueueCommand (uc : UcId)
| ThenOnComplete (qc : QcId) (tag : nat)   (* qc.onComplete().then(probe tag) *)
| AddOnStatusUpdate (qc : QcId) (listener : ListenerId)
| Completed (qc : QcId) (success : bool)   (* qc.completed(success) *)
| Enqueue (qc : QcId)
| Remove (qc : QcId)
| Start
| Stop
| ConditionStateUpdated
| CompletedCommandExecution (qc : QcId) (success : bool)
| Executed (uc : UcId) (success : bool)    (* userCommand.executed(success) *)
| InitializeAsync
| HandleCommandAsync (uc : UcId)
| SyncStart
| SyncStop
| Dispose
| Microtask                                (* the oldest microtask runs *)
| Tick.                                    (* all microtasks run *)

Definition perform (fuel : nat) (w : World) (a : Action) : option World :=
  match a with
  | NewUserCommand t p m => Some (newUserCommand t p m w).2
  | NewQueueCommand uc => Some (newQueueCommand uc w).2
  | ThenOnComplete qc tag => let '(p, w1) := onComplete qc w in Some (probe tag p w1)
  | AddOnStatusUpdate qc listener => Some (addOnStatusUpdate qc listener w)
  | Completed qc success => Some (completed qc success w)
  | Enqueue qc => Some (enqueue qc w)
  | Remove qc => Some (remove qc w)
  | Start => start fuel w
  | Stop => Some (stop w)
  | ConditionStateUpdated => Some (consumeConditionStateUpdatedEvtListenerAction w)
  | CompletedCommandExecution qc success => Some (completedCommandExecution qc success w)
  | Executed uc success => Some (executed uc success w)
  | InitializeAsync => Some (Sync.initializeAsync w)
  | HandleCommandAsync uc => snd <$> Sync.handleCommandAsync fuel uc w
  | SyncStart => snd <$> Sync.start fuel w
  | SyncStop => Some (Sync.stop w).2
  | Dispose => Some (Sync.dispose w)
  | Microtask => runMicrotask fuel w
  | Tick => drain fuel w
  end.

Fixpoint run (fuel : nat) (program : list Action) (w : World) : option World :=
  match program with
  | [] => Some w
  | a :: program' => w1 ← perform fuel w a; run fuel program' w1
  end.

(** The worlds reached after each of several programs run in a row. *)
Fixpoint runStages (fuel : nat) (stages : list (list Action)) (w : World)
  : option (list World) :=
  match stages with
  | [] => Some []
  | program :: stages' =>
      w1 ← run fuel program w; ws ← runStages fuel stages' w1; Some (w1 :: ws)
  end.

(** ** Scenarios *)

(** [new RetryPolicyEvaluator([new AttempNoRetryCondition(maxRetries)])] *)
Definition attemptCountPolicy (maxRetries : Z) : option RetryPolicyEvaluator :=
  Some (mkEvaluator [AttempNoRetryCondition maxRetries]).

Definition noOrchestrator : CommandSyncOrchestrator :=
  newCommandSyncOrchestrator "" None None.

Definition systemMeta : UserCommandMeta :=
  mkMeta (Some "system"%string) None "uuid-1"%string 0 false false.

(** The ways in which one execution can signal its failure. *)
Inductive FailureMode :=
| SyncThrow       (* the executor raises *)
| SyncExecuted    (* the executor calls userCommand.executed(false) *)
| SyncCompleted   (* the executor calls completedCommandExecution(queueCommand, false) *)
| AsyncExecuted   (* userCommand.executed(false) is called later *)
| AsyncCompleted. (* completedCommandExecution(queueCommand, false) is called later *)

Definition failingExecutor (mode : FailureMode) : nat -> UserCommand -> ExecAction :=
  fun _ _ =>
    match mode with
    | SyncThrow => Throws
    | SyncExecuted => CallsExecuted false
    | SyncCompleted => CallsCompleted false
    | AsyncExecuted | AsyncCompleted => Returns
    end.

(** The failure signal of one execution of command 0, when it comes later. *)
Definition failureSignal (mode : FailureMode) : list Action :=
  match mode with
  | AsyncExecuted => [Executed 0 false]
  | AsyncCompleted => [CompletedCommandExecution 0 false]
  | _ => []
  end.

(** Scenario 2: one command, the attempt-count condition with [maxRetries],
    an observer (7) of its status and one (tag 1) of its completion. *)
Definition retryWorld (mode : FailureMode) (maxRetries : Z) : World :=
  initialWorld (newQueueConsumer (failingExecutor mode) [] (attemptCountPolicy maxRetries))
               noOrchestrator 0.

Definition admitOne (payload : Payload) : list Action :=
  [ NewUserCommand "work" payload systemMeta; NewQueueCommand 0;
    ThenOnComplete 0 1; AddOnStatusUpdate 0 7; Enqueue 0; Start; Tick ].

(** [admitOne] without the call of [onComplete()]: nobody awaits the
    completion of the command yet. *)
Definition admitUnobserved (payload : Payload) : list Action :=
  [ NewUserCommand "work" payload systemMeta; NewQueueCommand 0;
    AddOnStatusUpdate 0 7; Enqueue 0; Start; Tick ].

(** Scenario 2 once the command has been dispatched for the first time. *)
Definition dispatchedWorld : World :=
  default (retryWorld AsyncExecuted 2)
          (run 20 (admitOne ∅) (retryWorld AsyncExecuted 2)).

(** What a test looks at after each step of scenario 2. *)
Definition lifecycle (w : World) : option Z * option QueueStatus * list QcId * Z :=
  (attemptNoOf 0 w, statusOf 0 w, pending w, processCountOf w).

Definition completionResult (qc : QcId) (w : World) : option Value :=
  oc_result ∘ _onComplete <$> qcs w !! qc.

(** An executor whose first call starts asynchronous work and whose later
    calls report at once through [userCommand.executed(b)], or start
    asynchronous work as well. *)
Definition reportingExecutor (report : option bool) : nat -> UserCommand -> ExecAction :=
  fun n _ =>
    match n, report with
    | S _, Some b => CallsExecuted b
    | _, _ => Returns
    end.

Definition reportingWorld (report : option bool) : World :=
  initialWorld (newQueueConsumer (reportingExecutor report) [] (attemptCountPolicy 2))
               noOrchestrator 0.

(** An executor whose first call starts asynchronous work and whose second
    call reports a success through
    [consumer.completedCommandExecution(queueCommand, true)]. *)
Definition directExecutor : nat -> UserCommand -> ExecAction :=
  fun n _ => match n with 1%nat => CallsCompleted true | _ => Returns end.

Definition directWorld : World :=
  initialWorld (newQueueConsumer directExecutor [] (attemptCountPolicy 2))
               noOrchestrator 0.

(** An executor that raises on its first call and starts asynchronous work
    on every later call. *)
Definition throwsFirst : nat -> UserCommand -> ExecAction :=
  fun n _ => match n with O => Throws | _ => Returns end.

(** One command, [throwsFirst], the attempt-count condition. *)
Definition throwsFirstWorld (maxRetries : Z) : World :=
  initialWorld (newQueueConsumer throwsFirst [] (attemptCountPolicy maxRetries))
               noOrchestrator 0.

(** The gating predicate [processCount < n] of scenario 4. *)
Definition processCountBelow (n : Z) : QueueState -> bool :=
  fun queueState => processCount queueState <? n.

(** Two commands and a consumer that may run one command at a time. *)
Definition cappedWorld : World :=
  initialWorld (newQueueConsumer (fun _ _ => Returns) [processCountBelow 1] None)
               noOrchestrator 0.

Definition twoCommands : list Action :=
  [ NewUserCommand "a" ∅ systemMeta; NewQueueCommand 0;
    NewUserCommand "b" ∅ systemMeta; NewQueueCommand 1 ].

(** An orchestrator "o" with the ItemConsolidator and a store, on a
    consumer with the given gating predicates. *)
Definition syncWorldWith (commandConsolidator : option IObjectConsolidator)
  (consumeConditions : list (QueueState -> bool))
  (stored : list (string * StoredRecord)) : World :=
  initialWorld (newQueueConsumer (fun _ _ => Returns) consumeConditions None)
               (newCommandSyncOrchestrator "o" commandConsolidator (Some stored)) 0.

Definition syncWorld := syncWorldWith (Some ItemConsolidator).

(** The orchestrator "o" after its first [initializeAsync], nothing stored. *)
Definition initializedWorld : World :=
  default (syncWorld [] []) (run 8 [InitializeAsync; Tick] (syncWorld [] [])).

(** The metadata of a patch command for resource [r]. *)
Definition patchMeta (r uuid : string) : UserCommandMeta :=
  mkMeta (Some r) None uuid 0 true false.

(** A gating predicate that holds dispatch back, as when offline. *)
Definition offline : QueueState -> bool := fun _ => false.

(** The record of a pending patch command for resource "r1". *)
Definition storedPatch (payload : Payload) : StoredRecord :=
  mkStored "patch" payload (patchMeta "r1" "u1") (mkQueueInfo 0 0 Initial).

Definition trackedBy (w : World) : list QcId := queueCommands (orchestrator w).

Definition isStorageWrite (e : Event) : bool :=
  match e with EvSave _ | EvRemove _ => true | _ => false end.

(** The writes issued to the persistence collaborator, oldest first. *)
Definition storageWrites (w : World) : list Event := filter isStorageWrite (trace w).

Definition persistedKeys (w : World) : option (list string) :=
  map fst <$> offlineStorage (orchestrator w).

Definition patchOf (r : string) (w : World) : option QcId :=
  patchQueueCommands (orchestrator w) !! Some r.

(** Scenario 3 when the second patch command for "r1" is about to be
    handled: the first one is pending, dispatch is held back. *)
Definition secondPatchWorld : World :=
  default (syncWorld [offline] [])
    (run 20 [ InitializeAsync; Tick; SyncStart; Tick;
              NewUserCommand "patch" {[ "a" := 1; "b" := 2 ]}%string (patchMeta "r1" "u1");
              HandleCommandAsync 0; Tick;
              NewUserCommand "patch" {[ "b" := 3; "c" := 4 ]}%string (patchMeta "r1" "u2") ]
         (syncWorld [offline] [])).

(** Scenario 3 on a consumer without gating predicate that the client has
    stopped: the first patch command for "r1" is handled, [stop()] is
    called, the second one is created; it is handled; the microtasks run. *)
Definition stoppedBetweenPatches (first second : Payload) : list (list Action) :=
  [ [ InitializeAsync; Tick;
      NewUserCommand "patch" first (patchMeta "r1" "u1"); HandleCommandAsync 0;
      SyncStop; Tick;
      NewUserCommand "patch" second (patchMeta "r1" "u2") ];
    [ HandleCommandAsync 1 ];
    [ Tick ] ].

(** [w'] has the microtasks of [w], and maybe more after them. *)
Definition queues (w w' : World) : Prop := exists more, microtasks w' = microtasks w ++ more.

(** [w'] is [w] with queue command [qc] replaced by [q']. *)
Definition replaces (qc : QcId) (q' : QueueCommand) (w w' : World) : Prop :=
  qcs w' = <[qc := q']> (qcs w).

(** The [_onExecute] record that [uc] refers to. *)
Definition executionSignal (uc : UcId) (w : World) : option OnExecute :=
  ucs w !! uc ≫= fun c => signals w !! _onExecute c.

(** The execution signal of [uc] has resolved, with [v]. *)
Definition stale (uc : UcId) (v : Value) (w : World) : Prop :=
  executionSignal uc w = Some (mkOnExecute None None true v).

(** [w'] knows the user commands of [w], and the execution signals that
    had resolved in [w] are as they were. *)
Definition extends (w w' : World) : Prop :=
  (forall uc c, ucs w !! uc = Some c -> ucs w' !! uc = Some c) /\
  (forall i v, signals w !! i = Some (mkOnExecute None None true v) ->
               signals w' !! i = Some (mkOnExecute None None true v)).

Definition payloadOf (qc : QcId) (w : World) : option Payload :=
  qcs w !! qc ≫= fun q => payload <$> ucs w !! command q.


(** ** Further observations *)

(** A queue command of the store whose user command is in the store. *)
Definition inStore (qc : QcId) (w : World) : Prop :=
  exists q c, qcs w !! qc = Some q /\ ucs w !! command q = Some c.

(** A pending queue command whose dispatch is known to end: a queue command
    of the store, or a deserialized object on a consumer without retry
    policy. *)
Definition dispatchable (qc : QcId) (w : World) : Prop :=
  inStore qc w \/
  (is_Some (deserializedAt qc w) /\ retryPolicyEvaluator (consumer w) = None).


(** What one dispatch of [qc] adds to the trace: the observers are told
    [Processing], then the executor is called with the command. *)
Definition dispatchEvents (qc : QcId) (w : World) : list Event :=
  notifications qc Processing w ++
  match qcs w !! qc with Some q => [EvConsume (command q)] | None => [] end.

(** The gating predicates at a given [processCount]. *)
Definition conditionsAt (n : Z) (c : QueueConsumer) : bool :=
  forallb (fun conditionSatisfied => conditionSatisfied (mkQueueState n))
          (consumeConditions c).

(** The configuration of a consumer: what its constructor receives, and
    whether it runs. *)
Definition sameConfig (c c' : QueueConsumer) : Prop :=
  consumeFunc c' = consumeFunc c /\ consumeConditions c' = consumeConditions c /\
  retryPolicyEvaluator c' = retryPolicyEvaluator c /\ isRunning c' = isRunning c.

(** Calls of [addOnStatusUpdate] and [removeOnStatusUpdate] on one queue
    command. *)
Inductive Subscription :=
| Subscribe (listener : ListenerId)      (* qc.addOnStatusUpdate(listener) *)
| Unsubscribe (listener : ListenerId).   (* qc.removeOnStatusUpdate(listener) *)

Definition subscription (qc : QcId) (w : World) (s : Subscription) : World :=
  match s with
  | Subscribe listener => addOnStatusUpdate qc listener w
  | Unsubscribe listener => removeOnStatusUpdate qc listener w
  end.

(** Whether the last call that names [listener] is an [addOnStatusUpdate]. *)
Definition subscribed (listener : ListenerId) (calls : list Subscription) : bool :=
  foldl (fun b s =>
           match s with
           | Subscribe l => if decide (l = listener) then true else b
           | Unsubscribe l => if decide (l = listener) then false else b
           end) false calls.

(** A running consumer whose loop is suspended on its wait promise. *)
Definition waiting (w : World) : Prop :=
  isRunning (consumer w) = true /\
  exists p, resumeResolver (consumer w) = Some p /\
            promises w !! p = Some (mkPromise None [ConsumeResume]).

(** Among the records [data], recovered as queue commands [first],
    [first + 1], ..., the queue command of the last patch record for
    resource [r]. *)
Fixpoint lastPatchFrom (first : QcId) (r : option string) (data : list StoredRecord)
  : option QcId :=
  match data with
  | [] => None
  | obj :: data' =>
      match lastPatchFrom (S first) r data' with
      | Some qc => Some qc
      | None =>
          if isPatch (s_meta obj) && bool_decide (resourceId (s_meta obj) = r)
          then Some first else None
      end
  end.

(** The payload of a pending patch command with payload [first] after the
    patch commands with payloads [later] were merged into it one after the
    other: each time [consolidate(incoming, existing)]. *)
Definition mergedPayload (consolidate : IObjectConsolidator) (first : Payload)
  (later : list Payload) : Payload :=
  foldl (fun existing incoming => consolidate incoming existing) first later.

(** ** The metadata of a user command *)

(** [new UserCommandMeta(resourceId, contextId)]; [randomUUID] is what
    [crypto.randomUUID()] returns and [now] what [new Date().getTime()]
    returns. *)
Definition newUserCommandMeta (resourceId contextId : option string)
  (randomUUID : string) (now : Z) : UserCommandMeta :=
  mkMeta resourceId contextId randomUUID now false false.

(** The own properties of a plain object given as [meta]: [None] when the
    key is absent; a key may be present with the value [undefined]. *)
Record MetaObject := mkMetaObject {
  o_resourceId : option (option string);
  o_contextId : option (option string);
  o_uuid : option string;
  o_timestamp : option Z;
  o_isPatch : option bool;
  o_isSensitiveData : option bool
}.

(** [Object.assign(metadata, meta)] *)
Definition assignMeta (metadata : UserCommandMeta) (o : MetaObject) : UserCommandMeta :=
  mkMeta (default (resourceId metadata) (o_resourceId o))
         (default (contextId metadata) (o_contextId o))
         (default (uuid metadata) (o_uuid o))
         (default (timestamp metadata) (o_timestamp o))
         (default (isPatch metadata) (o_isPatch o))
         (default (isSensitiveData metadata) (o_isSensitiveData o)).

(** The third argument of [new UserCommand(type, payload, meta)]. *)
Inductive MetaArgument :=
| MetaOmitted                          (* undefined: the default { resourceId: "system" } *)
| MetaInstance (m : UserCommandMeta)   (* meta instanceof UserCommandMeta *)
| MetaPlain (o : MetaObject)           (* a plain object *)
| MetaOther.                           (* null, a primitive value, a function, an array *)

(** The metadata the constructor of UserCommand stores; [None] when it
    raises [meta ... not valid]. *)
Definition userCommandMeta (meta : MetaArgument) (randomUUID : string) (now : Z)
  : option UserCommandMeta :=
  let ofObject o :=
    (* const resourceId = meta.resourceId || "system" *)
    let given := mjoin (o_resourceId o) in
    let resourceId := if truthy given then given else Some "system"%string in
    assignMeta (newUserCommandMeta resourceId None randomUUID now) o in
  match meta with
  | MetaInstance m => Some m
  | MetaPlain o => Some (ofObject o)
  | MetaOmitted =>
      Some (ofObject (mkMetaObject (Some (Some "system"%string)) None None None None None))
  | MetaOther => None
  end.

(** ** Further scenarios *)

(** Two commands, the first with a status observer (7), both enqueued on
    a consumer that has not been started; its executor starts asynchronous
    work and returns. *)
Definition queuedWorld (consumeConditions : list (QueueState -> bool)) : World :=
  let w := initialWorld (newQueueConsumer (fun _ _ => Returns) consumeConditions None)
                        noOrchestrator 0 in
  default w (run 5 (twoCommands ++ [AddOnStatusUpdate 0 7; Enqueue 0; Enqueue 1]) w).

(** One command with a status observer (7), enqueued on a consumer that
    has not been started; every execution raises. *)
Definition throwingWorld (maxRetries : Z) : World :=
  default (retryWorld SyncThrow maxRetries)
    (run 5 [ NewUserCommand "work" ∅ systemMeta; NewQueueCommand 0;
             AddOnStatusUpdate 0 7; Enqueue 0 ] (retryWorld SyncThrow maxRetries)).

(** Two commands and a started consumer without gating predicate: its
    loop waits. *)
Definition waitingWorld : World :=
  let w := initialWorld (newQueueConsumer (fun _ _ => Returns) [] None) noOrchestrator 0 in
  default w (run 5 (twoCommands ++ [Start]) w).

(** Two commands on a consumer that may run one at a time: the first is
    being processed, the second waits for the slot. *)
Definition fullWorld : World :=
  default cappedWorld (run 5 (twoCommands ++ [Enqueue 0; Enqueue 1; Start]) cappedWorld).

(** A command that was created and not dispatched yet. *)
Definition createdWorld : World :=
  default (retryWorld AsyncExecuted 2)
    (run 5 [NewUserCommand "work" ∅ systemMeta; NewQueueCommand 0]
         (retryWorld AsyncExecuted 2)).

(** The orchestrator "o" over a store that holds two patch records of its
    own for "r1" and a record of another orchestrator. *)
Definition restartedWorld : World :=
  syncWorld [] [ ("o-r1u1"%string, storedPatch {[ "a" := 1 ]}%string);
                 ("p-r1u9"%string, storedPatch ∅);
                 ("o-r1u2"%string,
                  mkStored "patch" {[ "a" := 2 ]}%string (patchMeta "r1" "u2")
                           (mkQueueInfo 0 0 Initial)) ].

(** The initialized orchestrator "o", its consumer not started, with a
    user command that is not a patch. *)
Definition commandWorld : World :=
  default initializedWorld
    (run 5 [NewUserCommand "work" {[ "n" := 1 ]}%string systemMeta] initializedWorld).

(** [commandWorld] after the command was handled, and a patch command for
    "r1" that has not been handled yet. *)
Definition handledWorld : World :=
  default commandWorld
    (run 5 [HandleCommandAsync 0; Tick; NewUserCommand "patch" ∅ (patchMeta "r1" "u1")]
         commandWorld).

(** The initialized orchestrator "o" on a started consumer, with a user
    command that is not a patch. *)
Definition startedWorld : World :=
  default initializedWorld
    (run 5 [SyncStart; NewUserCommand "work" {[ "n" := 1 ]}%string systemMeta]
         initializedWorld).

(** [restartedWorld] after its [initializeAsync], and a patch command for
    "r1" that has not been handled yet. *)
Definition recoveredWorld : World :=
  default restartedWorld
    (run 8 [InitializeAsync; Tick; NewUserCommand "patch" {[ "c" := 3 ]}%string
                                     (patchMeta "r1" "u3")] restartedWorld).

(** * Properties *)

(** ** Store lemmas *)

#[local] Arguments upd_qc : simpl never.

Lemma lookup_snoc {A} (l : list A) (x : A) : (l ++ [x]) !! length l = Some x.
Proof. rewrite lookup_app_r by lia. by rewrite Nat.sub_diag. Qed.

Lemma qcs_upd_qc_eq qc f w q :
  qcs w !! qc = Some q -> qcs (upd_qc qc f w) !! qc = Some (f q).
Proof.
  intros H. unfold upd_qc, upd_qcs; simpl. rewrite H.
  apply list_lookup_insert_eq. by eapply lookup_lt_Some.
Qed.

Lemma newQueueCommand_lookup uc w :
  qcs (newQueueCommand uc w).2 !! (newQueueCommand uc w).1
  = Some (mkQueueCommand uc (mkQueueInfo 0 (now w) Initial)
            (mkOnComplete None None false VUndefined) []).
Proof. apply lookup_snoc. Qed.

(** An index of [qcs] refers to the instance there. *)
Lemma deserializedAt_instance qc w q :
  qcs w !! qc = Some q -> deserializedAt qc w = None.
Proof. intros H. unfold deserializedAt. by rewrite H. Qed.

Lemma deserializedAt_ext qc w w' :
  qcs w' = qcs w -> deserialized w' = deserialized w ->
  deserializedAt qc w' = deserializedAt qc w.
Proof. intros H1 H2. unfold deserializedAt. by rewrite H1, H2. Qed.

Lemma statusOf_instance qc w q :
  qcs w !! qc = Some q -> statusOf qc w = Some (status (queueInfo q)).
Proof. intros H. unfold statusOf. by rewrite H. Qed.

Lemma statusOf_ext qc w w' :
  qcs w' = qcs w -> deserialized w' = deserialized w -> statusOf qc w' = statusOf qc w.
Proof. intros H1 H2. unfold statusOf, deserializedAt. by rewrite H1, H2. Qed.

Lemma statusOf_frame qc w w' :
  (status ∘ queueInfo <$> qcs w' !! qc) = (status ∘ queueInfo <$> qcs w !! qc) ->
  deserialized w' = deserialized w -> statusOf qc w' = statusOf qc w.
Proof.
  intros H1 H2. unfold statusOf, deserializedAt. rewrite H1, H2.
  destruct (qcs w' !! qc), (qcs w !! qc); naive_solver.
Qed.

(** ** C1: the completion signal of a QueueCommand *)

(** With a future outstanding, [completed(s)] settles it with [s], queues
    its callbacks and stores [s]. *)
Lemma completed_outstanding qc s w q p ks :
  qcs w !! qc = Some q ->
  oc_resolve (_onComplete q) = Some p ->
  promises w !! p = Some (mkPromise None ks) ->
  let w' := completed qc s w in
  promises w' !! p = Some (mkPromise (Some (VBool s)) []) /\
  microtasks w' = microtasks w ++ map (fun k => (k, VBool s)) ks /\
  (_onComplete <$> qcs w' !! qc) = Some (mkOnComplete None None true (VBool s)).
Proof.
  intros Hq Hr Hp. unfold completed. rewrite Hq, Hr. unfold resolvePromise. rewrite Hp.
  cbn. repeat split.
  - apply list_lookup_insert_eq. by eapply lookup_lt_Some.
  - erewrite qcs_upd_qc_eq; [done|exact Hq].
Qed.

(** Once the resolver is gone, [completed] changes nothing. *)
Lemma completed_again qc s w q :
  qcs w !! qc = Some q -> oc_resolve (_onComplete q) = None -> completed qc s w = w.
Proof. intros Hq Hr. unfold completed. by rewrite Hq, Hr. Qed.

(** After a stored completion, [onComplete()] gives a settled future with
    the stored result. *)
Lemma onComplete_after_completed qc w q :
  qcs w !! qc = Some q -> oc_completed (_onComplete q) = true ->
  let '(p, w') := onComplete qc w in
  promises w' !! p = Some (mkPromise (Some (oc_result (_onComplete q))) []) /\
  qcs w' = qcs w /\ microtasks w' = microtasks w.
Proof.
  intros Hq Hc. unfold onComplete. rewrite Hq, Hc. cbn.
  split; [apply lookup_snoc|done].
Qed.

(** C1 (failing input).  [completed(s)] on a queue command nobody awaits yet
    is dropped: nothing is stored, the first [onComplete()] after it is a
    pending future, and that future is settled by the next [completed(s')],
    with [s']. *)
Theorem completed_before_onComplete_is_lost (w : World) (uc : UcId) (s s' : bool) :
  let '(qc, w1) := newQueueCommand uc w in
  let w2 := completed qc s w1 in
  let '(p, w3) := onComplete qc w2 in
  w2 = w1 /\
  promises w3 !! p = Some (mkPromise None []) /\
  (oc_completed ∘ _onComplete <$> qcs w3 !! qc) = Some false /\
  promises (completed qc s' w3) !! p = Some (mkPromise (Some (VBool s')) []).
Proof.
  pose proof (newQueueCommand_lookup uc w) as Hq.
  destruct (newQueueCommand uc w) as [qc w1] eqn:E. cbn [fst snd] in Hq.
  assert (H2 : completed qc s w1 = w1) by (by eapply completed_again).
  cbv zeta. rewrite H2.
  unfold onComplete. rewrite Hq. cbn.
  split; [done|]. split; [apply lookup_snoc|]. split.
  - erewrite qcs_upd_qc_eq; [done|exact Hq].
  - eapply completed_outstanding with (ks := []);
      [apply qcs_upd_qc_eq; exact Hq|done|apply lookup_snoc].
Qed.

(** ** Frame lemmas: what each operation leaves alone *)

Lemma trace_resolvePromise p v w : trace (resolvePromise p v w) = trace w.
Proof. unfold resolvePromise. by repeat case_match. Qed.

Lemma qcs_resolvePromise p v w : qcs (resolvePromise p v w) = qcs w.
Proof. unfold resolvePromise. by repeat case_match. Qed.

Lemma consumer_resolvePromise p v w : consumer (resolvePromise p v w) = consumer w.
Proof. unfold resolvePromise. by repeat case_match. Qed.

Lemma trace_resume w : trace (resumeOnConditionsSatisfied w) = trace w.
Proof.
  unfold resumeOnConditionsSatisfied. repeat case_match; try done.
  cbn. apply trace_resolvePromise.
Qed.

Lemma qcs_resume w : qcs (resumeOnConditionsSatisfied w) = qcs w.
Proof.
  unfold resumeOnConditionsSatisfied. repeat case_match; try done.
  cbn. apply qcs_resolvePromise.
Qed.

Lemma trace_completed qc s w : trace (completed qc s w) = trace w.
Proof.
  unfold completed. repeat case_match; try done. cbn. apply trace_resolvePromise.
Qed.

Lemma statusOf_upd_qc_status qc s w q :
  qcs w !! qc = Some q -> statusOf qc (upd_qc qc (set_status s) w) = Some s.
Proof. intros H. erewrite statusOf_instance; [|by apply qcs_upd_qc_eq]. done. Qed.

Lemma deserialized_resolvePromise p v w :
  deserialized (resolvePromise p v w) = deserialized w.
Proof. unfold resolvePromise. by repeat case_match. Qed.

Lemma deserialized_resume w : deserialized (resumeOnConditionsSatisfied w) = deserialized w.
Proof.
  unfold resumeOnConditionsSatisfied. repeat case_match; try done.
  cbn. apply deserialized_resolvePromise.
Qed.

Lemma deserialized_completed qc s w : deserialized (completed qc s w) = deserialized w.
Proof.
  unfold completed. repeat case_match; try done. cbn. apply deserialized_resolvePromise.
Qed.

Lemma statusOf_completed qc qc' s w : statusOf qc' (completed qc s w) = statusOf qc' w.
Proof.
  apply statusOf_frame; [|apply deserialized_completed].
  unfold completed. destruct (qcs w !! qc) as [q|] eqn:Hq; [|done].
  destruct (oc_resolve (_onComplete q)) as [p|]; [|done].
  unfold upd_qc, upd_qcs; cbn. rewrite qcs_resolvePromise, Hq.
  destruct (decide (qc' = qc)) as [->|Hne].
  - rewrite list_lookup_insert_eq by (by eapply lookup_lt_Some). by rewrite Hq.
  - by rewrite list_lookup_insert_ne.
Qed.

Lemma statusOf_resume qc w : statusOf qc (resumeOnConditionsSatisfied w) = statusOf qc w.
Proof. apply statusOf_ext; [apply qcs_resume|apply deserialized_resume]. Qed.

Lemma statusOf_decrProcessCount qc w : statusOf qc (decrProcessCount w) = statusOf qc w.
Proof. done. Qed.

Lemma trace_onStatusUpdate qc s w :
  trace (onStatusUpdate qc s w) = trace w ++ notifications qc s w.
Proof.
  unfold onStatusUpdate, notifications, listenersOf.
  destruct (qcs w !! qc) as [q|]; cbn; [|by rewrite app_nil_r].
  generalize (_onStatusUpdateListeners q) as ls. intros ls. revert w.
  induction ls as [|l ls IH]; intros w; cbn; [by rewrite app_nil_r|].
  rewrite IH. cbn. by rewrite <- app_assoc.
Qed.

(** On a QueueCommand instance, [completedCommandExecution] is the body of
    the method. *)
Lemma completedCommandExecution_instance qc q s w :
  qcs w !! qc = Some q ->
  completedCommandExecution qc s w =
  resumeOnConditionsSatisfied
    (if s
     then decrProcessCount (completed qc true (upd_qc qc (set_status Complete) w))
     else handleRetry qc w).
Proof.
  intros H. unfold completedCommandExecution. by rewrite (deserializedAt_instance _ _ _ H).
Qed.

(** ** C2: which status changes reach the observers *)

(** C2 (failing input).  A successful completion sets the status to
    [Complete] and calls no status observer, whoever is registered. *)
Theorem success_completion_notifies_no_observer (qc : QcId) (q : QueueCommand) (w : World) :
  qcs w !! qc = Some q ->
  let w' := completedCommandExecution qc true w in
  statusOf qc w' = Some Complete /\ trace w' = trace w.
Proof.
  intros Hq. cbv zeta. rewrite (completedCommandExecution_instance _ _ _ _ Hq). split.
  - rewrite statusOf_resume, statusOf_decrProcessCount, statusOf_completed.
    by eapply statusOf_upd_qc_status.
  - rewrite trace_resume. cbn. by rewrite trace_completed.
Qed.

(** ** The retry handler *)

Lemma pending_resolvePromise p v w : pending (resolvePromise p v w) = pending w.
Proof. unfold pending. by rewrite consumer_resolvePromise. Qed.

Lemma pending_resume w : pending (resumeOnConditionsSatisfied w) = pending w.
Proof.
  unfold resumeOnConditionsSatisfied, pending. repeat case_match; try done.
  cbn. by rewrite consumer_resolvePromise.
Qed.

Lemma processCountOf_resume w :
  processCountOf (resumeOnConditionsSatisfied w) = processCountOf w.
Proof.
  unfold resumeOnConditionsSatisfied, processCountOf. repeat case_match; try done.
  cbn. by rewrite consumer_resolvePromise.
Qed.

Lemma pending_enqueue qc w : pending (enqueue qc w) = set_add qc (pending w).
Proof. unfold enqueue. by rewrite pending_resume. Qed.

Lemma processCountOf_enqueue qc w : processCountOf (enqueue qc w) = processCountOf w.
Proof. unfold enqueue. by rewrite processCountOf_resume. Qed.

Lemma trace_enqueue qc w : trace (enqueue qc w) = trace w.
Proof. unfold enqueue. by rewrite trace_resume. Qed.

Lemma qcs_enqueue qc w : qcs (enqueue qc w) = qcs w.
Proof. unfold enqueue. by rewrite qcs_resume. Qed.

Lemma consumer_completed qc s w : consumer (completed qc s w) = consumer w.
Proof.
  unfold completed. repeat case_match; try done. cbn. apply consumer_resolvePromise.
Qed.

Lemma qcs_onStatusUpdate qc s w : qcs (onStatusUpdate qc s w) = qcs w.
Proof.
  unfold onStatusUpdate. destruct (qcs w !! qc) as [q|]; [|done].
  generalize (_onStatusUpdateListeners q). intros ls. revert w.
  induction ls as [|l ls IH]; intros w; cbn; [done|]. by rewrite IH.
Qed.

Lemma consumer_onStatusUpdate qc s w : consumer (onStatusUpdate qc s w) = consumer w.
Proof.
  unfold onStatusUpdate. destruct (qcs w !! qc) as [q|]; [|done].
  generalize (_onStatusUpdateListeners q). intros ls. revert w.
  induction ls as [|l ls IH]; intros w; cbn; [done|]. by rewrite IH.
Qed.

Lemma set_add_elem x s : x ∈ set_add x s.
Proof. unfold set_add. case_bool_decide; [done|]. apply elem_of_app. right. by left. Qed.

(** A failure that the policy lets retry: one more attempt, back to
    [Initial] and to the pending set, nobody notified. *)
Lemma handleRetry_retry qc q w :
  qcs w !! qc = Some q ->
  retryDecision qc (upd_qc qc (set_attemptNo (attemptNo (queueInfo q) + 1)) w) = true ->
  let w' := handleRetry qc w in
  attemptNoOf qc w' = Some (attemptNo (queueInfo q) + 1) /\
  statusOf qc w' = Some Initial /\
  pending w' = set_add qc (pending w) /\
  processCountOf w' = processCountOf w - 1 /\
  trace w' = trace w.
Proof.
  intros Hq Hr. unfold handleRetry. rewrite Hq, Hr. cbv zeta.
  assert (H1 : qcs (upd_qc qc (set_attemptNo (attemptNo (queueInfo q) + 1)) w) !! qc
               = Some (set_attemptNo (attemptNo (queueInfo q) + 1) q))
    by (by apply qcs_upd_qc_eq).
  pose proof (qcs_upd_qc_eq qc (set_status Initial) _ _ H1) as H2.
  repeat split.
  - unfold attemptNoOf. cbn [decrProcessCount upd_consumer qcs].
    by rewrite qcs_resume, qcs_enqueue, H2.
  - rewrite statusOf_decrProcessCount, statusOf_resume.
    erewrite statusOf_instance; [|by rewrite qcs_enqueue]. done.
  - unfold pending. cbn [decrProcessCount upd_consumer consumer set_processCount queue].
    fold (pending (resumeOnConditionsSatisfied
      (enqueue qc (upd_qc qc (set_status Initial)
         (upd_qc qc (set_attemptNo (attemptNo (queueInfo q) + 1)) w))))).
    by rewrite pending_resume, pending_enqueue.
  - unfold processCountOf at 1.
    cbn [decrProcessCount upd_consumer consumer set_processCount queueState processCount].
    fold (processCountOf (resumeOnConditionsSatisfied
      (enqueue qc (upd_qc qc (set_status Initial)
         (upd_qc qc (set_attemptNo (attemptNo (queueInfo q) + 1)) w))))).
    by rewrite processCountOf_resume, processCountOf_enqueue.
  - cbn [decrProcessCount upd_consumer trace]. by rewrite trace_resume, trace_enqueue.
Qed.

(** A failure that is not retried: one more attempt, [Complete], every
    observer notified, the completion signal resolved with [false]. *)
Lemma handleRetry_deny qc q w :
  qcs w !! qc = Some q ->
  retryDecision qc (upd_qc qc (set_attemptNo (attemptNo (queueInfo q) + 1)) w) = false ->
  let w' := handleRetry qc w in
  attemptNoOf qc w' = Some (attemptNo (queueInfo q) + 1) /\
  statusOf qc w' = Some Complete /\
  pending w' = pending w /\
  processCountOf w' = processCountOf w - 1 /\
  trace w' = trace w ++ notifications qc Complete w.
Proof.
  intros Hq Hr. unfold handleRetry. rewrite Hq, Hr. cbv zeta.
  assert (H1 : qcs (upd_qc qc (set_attemptNo (attemptNo (queueInfo q) + 1)) w) !! qc
               = Some (set_attemptNo (attemptNo (queueInfo q) + 1) q))
    by (by apply qcs_upd_qc_eq).
  pose proof (qcs_upd_qc_eq qc (set_status Complete) _ _ H1) as H2.
  repeat split.
  - unfold attemptNoOf. cbn [decrProcessCount upd_consumer qcs].
    unfold completed. rewrite qcs_onStatusUpdate, H2.
    cbn [set_status set_attemptNo _onComplete].
    destruct (oc_resolve (_onComplete q)); [|by rewrite qcs_onStatusUpdate, H2].
    erewrite qcs_upd_qc_eq; [|by rewrite qcs_resolvePromise, qcs_onStatusUpdate]. reflexivity.
  - rewrite statusOf_decrProcessCount, statusOf_completed.
    erewrite statusOf_instance; [|by rewrite qcs_onStatusUpdate]. done.
  - unfold pending. cbn [decrProcessCount upd_consumer consumer set_processCount queue].
    by rewrite consumer_completed, consumer_onStatusUpdate.
  - unfold processCountOf.
    cbn [decrProcessCount upd_consumer consumer set_processCount queueState processCount].
    by rewrite consumer_completed, consumer_onStatusUpdate.
  - cbn [decrProcessCount upd_consumer trace].
    rewrite trace_completed, trace_onStatusUpdate. f_equal.
    unfold notifications, listenersOf. by rewrite H2, Hq.
Qed.

(** ** C3: scenario 2, the attempt-count condition with two retries *)

(** The attempt-count condition retries exactly while [attemptNo < maxRetries]. *)
Lemma attemptCount_retryDecision qc q c maxRetries w :
  retryPolicyEvaluator (consumer w) = attemptCountPolicy maxRetries ->
  qcs w !! qc = Some q -> ucs w !! command q = Some c ->
  retryDecision qc w = (attemptNo (queueInfo q) <? maxRetries).
Proof.
  intros He Hq Hc. unfold retryDecision. rewrite He, Hq. cbn. rewrite Hc. cbn.
  unfold shouldRetry, AttempNoRetryCondition. cbn. by rewrite orb_false_r.
Qed.

(** One failure under the attempt-count condition: [attemptNo] goes up by
    one; the command is retried when the new [attemptNo] is below
    [maxRetries], and completed otherwise. *)
Lemma attempt_count_failure qc q c maxRetries w :
  retryPolicyEvaluator (consumer w) = attemptCountPolicy maxRetries ->
  qcs w !! qc = Some q -> ucs w !! command q = Some c ->
  let w' := handleRetry qc w in
  attemptNoOf qc w' = Some (attemptNo (queueInfo q) + 1) /\
  (attemptNo (queueInfo q) + 1 < maxRetries ->
     statusOf qc w' = Some Initial /\ qc ∈ pending w') /\
  (maxRetries <= attemptNo (queueInfo q) + 1 ->
     statusOf qc w' = Some Complete /\ pending w' = pending w).
Proof.
  intros He Hq Hc.
  set (a := attemptNo (queueInfo q) + 1).
  assert (Hd : retryDecision qc (upd_qc qc (set_attemptNo a) w) = (a <? maxRetries)).
  { erewrite (attemptCount_retryDecision qc (set_attemptNo a q) c maxRetries);
      [done|done|by apply qcs_upd_qc_eq|done]. }
  destruct (a <? maxRetries) eqn:Hlt.
  - destruct (handleRetry_retry qc q w Hq Hd) as (H1 & H2 & H3 & _).
    split_and!; [done| |intros; apply Z.ltb_lt in Hlt; lia].
    intros _. split; [done|]. rewrite H3. apply set_add_elem.
  - destruct (handleRetry_deny qc q w Hq Hd) as (H1 & H2 & H3 & _).
    split_and!; [done|intros; apply Z.ltb_ge in Hlt; lia|done].
Qed.

(** Scenario 2 when both executions signal their failure the same way,
    whatever the way and the payload: the command is executed twice (one
    retry), ends [Complete] with [attemptNo] 2, and its completion future
    resolves with [false].  With the failures reported through
    [completedCommandExecution], step by step: attemptNo 0 and Processing;
    1 and back in the pending set; 1 and Processing again; 2 and Complete. *)
Lemma scenario2_attempt_count_two_retries (mode : FailureMode) (payload : Payload) :
  (exists w,
     run 20 (admitOne payload ++ failureSignal mode ++ [Tick]
               ++ failureSignal mode ++ [Tick]) (retryWorld mode 2) = Some w /\
     lifecycle w = (Some 2, Some Complete, [], 0) /\
     completionResult 0 w = Some (VBool false) /\
     trace w = [ EvStatusUpdate 7 0 Processing; EvConsume 0;
                 EvStatusUpdate 7 0 Processing; EvConsume 0;
                 EvStatusUpdate 7 0 Complete; EvProbe 1 (VBool false) ]) /\
  map lifecycle <$>
    runStages 20 [ admitOne payload; [CompletedCommandExecution 0 false]; [Tick];
                   [CompletedCommandExecution 0 false]; [Tick] ]
              (retryWorld AsyncCompleted 2)
  = Some [ (Some 0, Some Processing, [], 1);
           (Some 1, Some Initial, [0%nat], 0);
           (Some 1, Some Processing, [], 1);
           (Some 2, Some Complete, [], 0);
           (Some 2, Some Complete, [], 0) ].
Proof.
  split; [|by vm_compute].
  destruct mode; (eexists; split; [vm_compute; reflexivity|by vm_compute]).
Qed.

(** C3 (failing input).  The attempt-count condition with [maxRetries] 2; the
    first execution signals its failure by raising, the second one by
    [userCommand.executed(false)].  After the raise: attemptNo 1, retried,
    dispatched again.  Both dispatches have subscribed to the execution
    signal of the command, so the report of the second execution is handled
    twice: the first time attemptNo goes to 2, the retry is denied, the
    command is [Complete] and its completion future resolves with [false];
    the second time attemptNo goes to 3, the observers are told [Complete]
    once more and [processCount] goes to -1.  Two executions, three
    attempts counted.
    And whatever the way of the failures ([mode], the same for both): when
    [onComplete()] is first called after the second failure, the command
    is [Complete] with attemptNo 2, but [completed(false)] found no future
    to resolve and stored nothing, and the future handed out now stays
    pending: its callback never runs. *)
Theorem mixed_failure_signals_count_three_attempts (mode : FailureMode)
    (payload : Payload) :
  (exists w,
     run 20 (admitOne payload ++ [Executed 0 false; Tick]) (throwsFirstWorld 2) = Some w /\
     executions w = 2%nat /\
     lifecycle w = (Some 3, Some Complete, [], -1) /\
     completionResult 0 w = Some (VBool false) /\
     trace w = [ EvStatusUpdate 7 0 Processing; EvConsume 0;
                 EvStatusUpdate 7 0 Processing; EvConsume 0;
                 EvStatusUpdate 7 0 Complete; EvStatusUpdate 7 0 Complete;
                 EvProbe 1 (VBool false) ]) /\
  map lifecycle <$>
    runStages 20 [ admitOne payload; [Executed 0 false; Microtask]; [Microtask]; [Tick] ]
              (throwsFirstWorld 2)
  = Some [ (Some 1, Some Processing, [], 1);
           (Some 2, Some Complete, [], 0);
           (Some 3, Some Complete, [], -1);
           (Some 3, Some Complete, [], -1) ] /\
  (fun w => (lifecycle w, oc_completed ∘ _onComplete <$> qcs w !! 0%nat,
             trace w, microtasks w)) <$>
    run 20 (admitUnobserved payload ++ failureSignal mode ++ [Tick]
              ++ failureSignal mode ++ [Tick; ThenOnComplete 0 1; Tick])
        (retryWorld mode 2)
  = Some ((Some 2, Some Complete, [], 0), Some false,
          [ EvStatusUpdate 7 0 Processing; EvConsume 0;
            EvStatusUpdate 7 0 Processing; EvConsume 0;
            EvStatusUpdate 7 0 Complete ], []).
Proof.
  split_and!; [|by vm_compute|destruct mode; vm_compute; reflexivity].
  eexists. split; [vm_compute; reflexivity|]. by vm_compute.
Qed.

(** ** C7: the dispatch loop after a wake *)

(** The continuation of the loop after its [await] dequeues at once: the
    wait condition is not looked at again. *)
Lemma consumeResume_dequeues fuel qc rest w :
  pending w = qc :: rest ->
  consumeResume fuel w = consumeLoop fuel (processCommand (Some qc) (remove qc w)).
Proof. unfold pending, consumeResume, dequeue. by intros ->. Qed.

(** C7 (failing input).  The consumer may run one command at a time.  The
    loop waits; the client runs [enqueue(a); enqueue(b); stop(); start()].
    The first [enqueue] wakes the loop, [start] launches a second loop,
    which dispatches [a] and waits.  When the woken loop resumes, the
    wait condition holds ([processCount < 1] is false), and it dispatches
    [b] all the same. *)
Theorem woken_loop_dispatches_without_recheck :
  exists w,
    run 20 (twoCommands ++ [Start; Tick; Enqueue 0; Enqueue 1; Stop; Start]) cappedWorld
      = Some w /\
    microtasks w = [(ConsumeResume, VUndefined)] /\
    pending w = [1%nat] /\ statusOf 1 w = Some Initial /\ processCountOf w = 1 /\
    shouldConsumerWait (consumer w) = true /\
    conditionsSatisfied (consumer w) = false /\
    exists w',
      runMicrotask 20 w = Some w' /\
      statusOf 1 w' = Some Processing /\ processCountOf w' = 2 /\
      trace w' = trace w ++ [EvConsume 1].
Proof.
  eexists. split; [vm_compute; reflexivity|].
  do 6 (split; [vm_compute; reflexivity|]).
  eexists. split; [vm_compute; reflexivity|].
  split_and!; vm_compute; reflexivity.
Qed.

(** The same slip with an empty pending set: after [enqueue(a); remove(a)]
    the woken loop dequeues [undefined] and hands it to [#processCommand]. *)
Lemma woken_loop_dequeues_from_empty_set :
  exists w,
    run 20 (twoCommands ++ [Start; Tick; Enqueue 0; Remove 0]) cappedWorld = Some w /\
    microtasks w = [(ConsumeResume, VUndefined)] /\ pending w = [] /\
    exists w',
      runMicrotask 20 w = Some w' /\
      trace w' = trace w ++ [EvUnhandledRejection].
Proof.
  eexists. split; [vm_compute; reflexivity|].
  do 2 (split; [vm_compute; reflexivity|]).
  eexists. split; vm_compute; reflexivity.
Qed.

(** ** C5 and C6: one execution signal for all dispatches *)

(** C5 (failing input).  The first execution raises and is retried; the
    second one succeeds and reports it with [userCommand.executed(true)].
    Both dispatches have subscribed to the same execution signal, so the
    one report completes the command twice: no command is [Processing] and
    [processCount] is -1. *)
Theorem one_report_completes_every_dispatch (payload : Payload) :
  (fun w => (executions w, microtasks w, statusOf 0 w, completionResult 0 w,
             processing w, processCountOf w)) <$>
    run 20 (admitOne payload ++ [Executed 0 true; Tick]) (throwsFirstWorld 2)
  = Some (2%nat, [], Some Complete, Some (VBool true), 0%nat, -1).
Proof. vm_compute. reflexivity. Qed.

(** C6 (failing input).  Same executor, three retries allowed; the second
    execution fails and reports it with [userCommand.executed(false)].  The
    report is delivered once per dispatch: the first delivery takes the
    command from [Processing] back to [Initial] and to the pending set, the
    second one takes it from [Initial] to [Complete] while it is pending,
    and the loop then dispatches the [Complete] command: [Processing]
    again, a third execution. *)
Theorem one_report_reopens_completed_command (payload : Payload) :
  map (fun w => (statusOf 0 w, pending w, executions w)) <$>
    runStages 20 [ admitOne payload; [Executed 0 false; Microtask];
                   [Microtask]; [Microtask]; [Tick] ]
              (throwsFirstWorld 3)
  = Some [ (Some Processing, [], 2%nat);
           (Some Initial, [0%nat], 2%nat);
           (Some Complete, [0%nat], 2%nat);
           (Some Processing, [], 3%nat);
           (Some Complete, [], 3%nat) ].
Proof. vm_compute. reflexivity. Qed.

(** ** The lifecycle when every dispatch is completed once

    The two steps C5 and C6 are about, taken one at a time: a dispatch, and
    one completion of a command that is [Processing]. *)

Lemma count_insert {A} (P : A -> Prop) `{!forall x, Decision (P x)} (l : list A) :
  forall i x x', l !! i = Some x ->
    (length (filter P (<[i := x']> l)) + (if decide (P x) then 1 else 0)
     = length (filter P l) + (if decide (P x') then 1 else 0))%nat.
Proof.
  induction l as [|y l IH]; intros [|i] x x' Hl; try done.
  - injection Hl as ->. change (<[0%nat := x']> (x :: l)) with (x' :: l).
    rewrite !filter_cons. destruct (decide (P x)), (decide (P x')); cbn [length]; lia.
  - change (<[S i := x']> (y :: l)) with (y :: <[i := x']> l).
    rewrite !filter_cons. specialize (IH i x x' Hl).
    destruct (decide (P y)); cbn [length]; lia.
Qed.

Lemma replaces_upd_qc qc f q w :
  qcs w !! qc = Some q -> replaces qc (f q) w (upd_qc qc f w).
Proof. intros H. unfold replaces, upd_qc, upd_qcs. cbn. by rewrite H. Qed.

Lemma replaces_same qc q w w' :
  qcs w !! qc = Some q -> qcs w' = qcs w -> replaces qc q w w'.
Proof. unfold replaces. intros H ->. by rewrite list_insert_id. Qed.

Lemma replaces_trans qc q1 q2 w1 w2 w3 :
  replaces qc q1 w1 w2 -> replaces qc q2 w2 w3 -> replaces qc q2 w1 w3.
Proof. unfold replaces. intros H1 ->. by rewrite H1, list_insert_insert_eq. Qed.

Lemma replaces_lookup (qc : QcId) q' w w' :
  (qc < length (qcs w))%nat -> replaces qc q' w w' -> qcs w' !! qc = Some q'.
Proof. unfold replaces. intros Hl ->. by apply list_lookup_insert_eq. Qed.

Lemma replaces_others qc qc' q' w w' :
  qc' <> qc -> replaces qc q' w w' -> deserialized w' = deserialized w ->
  statusOf qc' w' = statusOf qc' w.
Proof.
  unfold replaces. intros Hne Hr Hd. apply statusOf_frame; [|done].
  by rewrite Hr, list_lookup_insert_ne.
Qed.

Lemma deserialized_enqueue qc w : deserialized (enqueue qc w) = deserialized w.
Proof. unfold enqueue. by rewrite deserialized_resume. Qed.

Lemma deserialized_onStatusUpdate qc s w :
  deserialized (onStatusUpdate qc s w) = deserialized w.
Proof.
  unfold onStatusUpdate. destruct (qcs w !! qc) as [q|]; [|done].
  generalize (_onStatusUpdateListeners q). intros ls. revert w.
  induction ls as [|l ls IH]; intros w; cbn; [done|]. by rewrite IH.
Qed.

(** The consumer's work on a QueueCommand instance leaves the deserialized
    objects alone. *)
Lemma deserialized_handleRetry qc q w :
  qcs w !! qc = Some q -> deserialized (handleRetry qc w) = deserialized w.
Proof.
  intros Hq. unfold handleRetry. rewrite Hq. cbv zeta.
  destruct (retryDecision _ _); cbn [decrProcessCount upd_consumer deserialized].
  - by rewrite deserialized_resume, deserialized_enqueue.
  - by rewrite deserialized_completed, deserialized_onStatusUpdate.
Qed.

Lemma deserialized_completedCommandExecution qc q s w :
  qcs w !! qc = Some q ->
  deserialized (completedCommandExecution qc s w) = deserialized w.
Proof.
  intros Hq. rewrite (completedCommandExecution_instance _ _ _ _ Hq), deserialized_resume.
  destruct s; [|by eapply deserialized_handleRetry].
  cbn [decrProcessCount upd_consumer deserialized]. by rewrite deserialized_completed.
Qed.

Lemma replaces_processing qc q q' w w' :
  qcs w !! qc = Some q -> replaces qc q' w w' ->
  (processing w' + (if decide (status (queueInfo q) = Processing) then 1 else 0)
   = processing w + (if decide (status (queueInfo q') = Processing) then 1 else 0))%nat.
Proof.
  unfold replaces, processing. intros Hq ->.
  exact (count_insert (fun q => status (queueInfo q) = Processing) (qcs w) qc q q' Hq).
Qed.

Lemma replaces_completed qc s q w :
  qcs w !! qc = Some q ->
  exists oc, replaces qc (set_onComplete oc q) w (completed qc s w).
Proof.
  intros Hq. unfold completed. rewrite Hq.
  destruct (oc_resolve (_onComplete q)) as [p|].
  - eexists. unfold replaces, upd_qc, upd_qcs. cbn. by rewrite qcs_resolvePromise, Hq.
  - exists (_onComplete q). replace (set_onComplete (_onComplete q) q) with q
      by (by destruct q). by apply replaces_same.
Qed.

Lemma processCountOf_completed qc s w : processCountOf (completed qc s w) = processCountOf w.
Proof. unfold processCountOf. by rewrite consumer_completed. Qed.

Lemma processCountOf_onStatusUpdate qc s w :
  processCountOf (onStatusUpdate qc s w) = processCountOf w.
Proof. unfold processCountOf. by rewrite consumer_onStatusUpdate. Qed.

(** One completion of a queue command: the command alone changes, to
    [Complete] or back to [Initial], and [processCount] goes down by one. *)
Lemma completion_step qc q s w :
  qcs w !! qc = Some q ->
  let w' := completedCommandExecution qc s w in
  exists q',
    replaces qc q' w w' /\
    (status (queueInfo q') = Complete \/ status (queueInfo q') = Initial) /\
    (s = true -> status (queueInfo q') = Complete) /\
    processCountOf w' = processCountOf w - 1.
Proof.
  intros Hq. cbv zeta. rewrite (completedCommandExecution_instance _ _ _ _ Hq). destruct s.
  - pose proof (qcs_upd_qc_eq qc (set_status Complete) w q Hq) as H1.
    destruct (replaces_completed qc true _ _ H1) as [oc Hc].
    exists (set_onComplete oc (set_status Complete q)). split_and!; [|by left|done|].
    + eapply replaces_trans; [by apply replaces_upd_qc|].
      unfold replaces in *. by rewrite qcs_resume.
    + rewrite processCountOf_resume. unfold processCountOf at 1. cbn.
      fold (processCountOf (completed qc true (upd_qc qc (set_status Complete) w))).
      by rewrite processCountOf_completed.
  - set (a := attemptNo (queueInfo q) + 1).
    pose proof (qcs_upd_qc_eq qc (set_attemptNo a) w q Hq) as H1.
    destruct (retryDecision qc (upd_qc qc (set_attemptNo a) w)) eqn:Hr.
    + exists (set_status Initial (set_attemptNo a q)).
      destruct (handleRetry_retry qc q w Hq Hr) as (_ & _ & _ & Hp & _).
      split_and!; [|by right|done|by rewrite processCountOf_resume].
      unfold replaces. rewrite qcs_resume. unfold handleRetry. rewrite Hq. cbv zeta.
      fold a. rewrite Hr. cbn [decrProcessCount upd_consumer qcs].
      rewrite qcs_resume, qcs_enqueue.
      apply (replaces_trans qc (set_attemptNo a q) _ w (upd_qc qc (set_attemptNo a) w));
        by apply replaces_upd_qc.
    + pose proof (qcs_upd_qc_eq qc (set_status Complete) _ _ H1) as H2.
      assert (H3 : qcs (onStatusUpdate qc Complete
                          (upd_qc qc (set_status Complete)
                             (upd_qc qc (set_attemptNo a) w))) !! qc
                   = Some (set_status Complete (set_attemptNo a q)))
        by (by rewrite qcs_onStatusUpdate).
      destruct (replaces_completed qc false _ _ H3) as [oc Hc].
      exists (set_onComplete oc (set_status Complete (set_attemptNo a q))).
      destruct (handleRetry_deny qc q w Hq Hr) as (_ & _ & _ & Hp & _).
      split_and!; [|by left|done|by rewrite processCountOf_resume].
      unfold replaces. rewrite qcs_resume. unfold handleRetry. rewrite Hq. cbv zeta.
      fold a. rewrite Hr. cbn [decrProcessCount upd_consumer qcs].
      unfold replaces in Hc. rewrite Hc, qcs_onStatusUpdate.
      unfold upd_qc, upd_qcs. cbn. rewrite Hq. cbn.
      rewrite list_lookup_insert_eq by (by eapply lookup_lt_Some).
      by rewrite !list_insert_insert_eq.
Qed.

(** C6, one completion: a [Processing] command moves to [Complete] or to
    [Initial], the other commands keep their status. *)
Lemma completion_follows_the_edges qc q s w :
  qcs w !! qc = Some q -> status (queueInfo q) = Processing ->
  let w' := completedCommandExecution qc s w in
  (statusOf qc w' = Some Complete \/ statusOf qc w' = Some Initial) /\
  (forall qc', qc' <> qc -> statusOf qc' w' = statusOf qc' w).
Proof.
  intros Hq Hs. destruct (completion_step qc q s w Hq) as (q' & Hr & Hst & _ & _).
  split.
  - erewrite statusOf_instance;
      [|exact (replaces_lookup _ _ _ _ (lookup_lt_Some _ _ _ Hq) Hr)]. cbn.
    by destruct Hst as [-> | ->]; [left|right].
  - intros qc' Hne. eapply replaces_others; [done|exact Hr|].
    by eapply deserialized_completedCommandExecution.
Qed.

(** C5, one completion: completing a [Processing] command keeps
    [processCount] equal to the number of [Processing] commands. *)
Lemma completion_keeps_the_count qc q s w :
  qcs w !! qc = Some q -> status (queueInfo q) = Processing ->
  processCountOf w = Z.of_nat (processing w) ->
  let w' := completedCommandExecution qc s w in
  processCountOf w' = Z.of_nat (processing w').
Proof.
  intros Hq Hs Hinv. destruct (completion_step qc q s w Hq) as (q' & Hr & Hst & _ & Hp).
  pose proof (replaces_processing _ _ _ _ _ Hq Hr) as Hc. cbv zeta. rewrite Hp, Hinv.
  rewrite Hs in Hc. rewrite decide_True in Hc by done.
  rewrite decide_False in Hc by (destruct Hst as [-> | ->]; done). lia.
Qed.

Lemma onExecute_frame uc w :
  let w' := (onExecute uc w).2 in
  qcs w' = qcs w /\ ucs w' = ucs w /\ consumer w' = consumer w /\ trace w' = trace w.
Proof. unfold onExecute, promiseResolve, newPromise. by repeat case_match. Qed.

Lemma thenDo_frame p k w :
  let w' := thenDo p k w in
  qcs w' = qcs w /\ ucs w' = ucs w /\ consumer w' = consumer w /\ trace w' = trace w.
Proof. unfold thenDo. by repeat case_match. Qed.

Lemma deserialized_onExecute uc w : deserialized (onExecute uc w).2 = deserialized w.
Proof. unfold onExecute, promiseResolve, newPromise. by repeat case_match. Qed.

Lemma deserialized_thenDo p k w : deserialized (thenDo p k w) = deserialized w.
Proof. unfold thenDo. by repeat case_match. Qed.

Lemma executions_notifications qc s w t :
  length (filter isConsume (t ++ notifications qc s w)) = length (filter isConsume t).
Proof.
  rewrite filter_app, length_app. unfold notifications.
  assert (filter isConsume (map (fun listener => EvStatusUpdate listener qc s)
                                (listenersOf qc w)) = []) as ->; [|cbn; lia].
  induction (listenersOf qc w) as [|l ls IH]; [done|].
  change (map _ (l :: ls)) with (EvStatusUpdate l qc s :: map (fun listener =>
    EvStatusUpdate listener qc s) ls).
  rewrite filter_cons_False; [exact IH|]. cbn. tauto.
Qed.

(** One dispatch with an executor that returns: the command alone changes,
    to [Processing]; every observer is notified; [processCount] goes up by
    one; the executor is called. *)
Lemma dispatch_step qc q c w :
  qcs w !! qc = Some q -> ucs w !! command q = Some c ->
  consumeFunc (consumer w) (executions w) c = Returns ->
  let w' := processCommand (Some qc) w in
  replaces qc (set_status Processing q) w w' /\
  processCountOf w' = processCountOf w + 1 /\
  pending w' = pending w /\
  trace w' = trace w ++ notifications qc Processing w ++ [EvConsume (command q)].
Proof.
  intros Hq Hc Hx. unfold processCommand. cbn [mbind option_bind]. rewrite Hq.
  cbn [mbind option_bind]. rewrite Hc. cbn [mbind option_bind].
  destruct (onExecute_frame (command q) w) as (A1 & A2 & A3 & A4).
  destruct (onExecute (command q) w) as [p w1]. cbn [snd] in A1, A2, A3, A4.
  destruct (thenDo_frame p (OnExecuteThen qc) w1) as (B1 & B2 & B3 & B4).
  set (w2 := thenDo p (OnExecuteThen qc) w1) in *. cbv zeta.
  assert (Hq2 : qcs w2 !! qc = Some q) by (by rewrite B1, A1).
  set (w4 := onStatusUpdate qc Processing (upd_qc qc (set_status Processing) w2)).
  assert (Ht4 : trace w4 = trace w ++ notifications qc Processing w).
  { subst w4. rewrite trace_onStatusUpdate.
    change (trace (upd_qc qc (set_status Processing) w2)) with (trace w2).
    rewrite B4, A4. f_equal. unfold notifications, listenersOf.
    erewrite qcs_upd_qc_eq by exact Hq2. by rewrite Hq. }
  assert (Hc4 : consumer w4 = consumer w).
  { subst w4. rewrite consumer_onStatusUpdate.
    change (consumer (upd_qc qc (set_status Processing) w2)) with (consumer w2).
    by rewrite B3, A3. }
  assert (Hx4 : consumeFunc (consumer (incrProcessCount w4)) (executions (incrProcessCount w4)) c
                = Returns).
  { unfold executions. cbn. rewrite Ht4, Hc4, executions_notifications. exact Hx. }
  rewrite Hx4. split_and!.
  - unfold replaces. cbn [log incrProcessCount upd_consumer qcs]. subst w4.
    rewrite qcs_onStatusUpdate. unfold upd_qc, upd_qcs. cbn. by rewrite Hq2, B1, A1.
  - unfold processCountOf. cbn. by rewrite Hc4.
  - unfold pending. cbn. by rewrite Hc4.
  - cbn. rewrite Ht4. by rewrite <- app_assoc.
Qed.

Lemma deserialized_dispatch qc q c w :
  qcs w !! qc = Some q -> ucs w !! command q = Some c ->
  consumeFunc (consumer w) (executions w) c = Returns ->
  deserialized (processCommand (Some qc) w) = deserialized w.
Proof.
  intros Hq Hc Hx. unfold processCommand. cbn [mbind option_bind]. rewrite Hq.
  cbn [mbind option_bind]. rewrite Hc. cbn [mbind option_bind].
  destruct (onExecute_frame (command q) w) as (A1 & A2 & A3 & A4).
  pose proof (deserialized_onExecute (command q) w) as A5.
  destruct (onExecute (command q) w) as [p w1]. cbn [snd] in A1, A2, A3, A4, A5.
  destruct (thenDo_frame p (OnExecuteThen qc) w1) as (B1 & B2 & B3 & B4).
  pose proof (deserialized_thenDo p (OnExecuteThen qc) w1) as B5.
  set (w2 := thenDo p (OnExecuteThen qc) w1) in *. cbv zeta.
  assert (Hq2 : qcs w2 !! qc = Some q) by (by rewrite B1, A1).
  set (w4 := onStatusUpdate qc Processing (upd_qc qc (set_status Processing) w2)).
  assert (Ht4 : trace w4 = trace w ++ notifications qc Processing w).
  { subst w4. rewrite trace_onStatusUpdate.
    change (trace (upd_qc qc (set_status Processing) w2)) with (trace w2).
    rewrite B4, A4. f_equal. unfold notifications, listenersOf.
    erewrite qcs_upd_qc_eq by exact Hq2. by rewrite Hq. }
  assert (Hc4 : consumer w4 = consumer w).
  { subst w4. rewrite consumer_onStatusUpdate.
    change (consumer (upd_qc qc (set_status Processing) w2)) with (consumer w2).
    by rewrite B3, A3. }
  assert (Hx4 : consumeFunc (consumer (incrProcessCount w4)) (executions (incrProcessCount w4)) c
                = Returns).
  { unfold executions. cbn. rewrite Ht4, Hc4, executions_notifications. exact Hx. }
  rewrite Hx4. cbn [log incrProcessCount upd_consumer deserialized]. subst w4.
  rewrite deserialized_onStatusUpdate.
  change (deserialized (upd_qc qc (set_status Processing) w2)) with (deserialized w2).
  by rewrite B5, A5.
Qed.

(** C6, one dispatch: the command moves to [Processing], the others keep
    their status.  C2, one dispatch: every observer is notified. *)
Lemma dispatch_follows_the_edges qc q c w :
  qcs w !! qc = Some q -> ucs w !! command q = Some c ->
  consumeFunc (consumer w) (executions w) c = Returns ->
  let w' := processCommand (Some qc) w in
  statusOf qc w' = Some Processing /\
  (forall qc', qc' <> qc -> statusOf qc' w' = statusOf qc' w) /\
  trace w' = trace w ++ notifications qc Processing w ++ [EvConsume (command q)].
Proof.
  intros Hq Hc Hx. destruct (dispatch_step qc q c w Hq Hc Hx) as (Hr & _ & _ & Ht).
  split_and!;
    [|intros qc' Hne; eapply replaces_others;
        [done|exact Hr|by eapply deserialized_dispatch]|exact Ht].
  erewrite statusOf_instance;
    [|exact (replaces_lookup _ _ _ _ (lookup_lt_Some _ _ _ Hq) Hr)]. done.
Qed.

(** C5, one dispatch: dispatching a command that is not [Processing] keeps
    [processCount] equal to the number of [Processing] commands. *)
Lemma dispatch_keeps_the_count qc q c w :
  qcs w !! qc = Some q -> ucs w !! command q = Some c ->
  consumeFunc (consumer w) (executions w) c = Returns ->
  status (queueInfo q) <> Processing ->
  processCountOf w = Z.of_nat (processing w) ->
  let w' := processCommand (Some qc) w in
  processCountOf w' = Z.of_nat (processing w').
Proof.
  intros Hq Hc Hx Hs Hinv. destruct (dispatch_step qc q c w Hq Hc Hx) as (Hr & Hp & _).
  pose proof (replaces_processing _ _ _ _ _ Hq Hr) as Hn. cbv zeta. rewrite Hp, Hinv.
  rewrite decide_False in Hn by done. rewrite decide_True in Hn by done. lia.
Qed.

(** ** C8: the initialization guard of the orchestrator *)

(** C8 (counterexample).  [stop] has no guard: on a fresh orchestrator it
    returns normally. *)
Lemma stop_before_initialize_returns :
  initialized (orchestrator (syncWorld [] [])) = false /\
  (Sync.stop (syncWorld [] [])).1 = Returned /\
  (Sync.stop (syncWorld [] [])).1 <> Threw Sync.uninitialized.
Proof. by split_and!. Qed.

Lemma foldl_loadOne_stopped data : forall w,
  isRunning (consumer w) = false ->
  isRunning (consumer (foldl Sync.loadOne w data)) = false /\
  microtasks (foldl Sync.loadOne w data) = microtasks w /\
  initialized (orchestrator (foldl Sync.loadOne w data)) = initialized (orchestrator w).
Proof.
  induction data as [|obj data IH]; intros w Hr; [done|]. cbn [foldl].
  assert (H : isRunning (consumer (Sync.loadOne w obj)) = false /\
              microtasks (Sync.loadOne w obj) = microtasks w /\
              initialized (orchestrator (Sync.loadOne w obj))
                = initialized (orchestrator w)).
  { unfold Sync.loadOne, newUserCommand, enqueue, resumeOnConditionsSatisfied.
    cbn. rewrite Hr. cbn. by destruct (isPatch (s_meta obj)). }
  destruct H as (H1 & H2 & H3). destruct (IH _ H1) as (I1 & I2 & I3).
  by rewrite I2, I3, H2, H3.
Qed.

Lemma world_eta w :
  mkWorld (qcs w) (ucs w) (signals w) (promises w) (microtasks w)
          (consumer w) (orchestrator w) (now w) (trace w) (deserialized w) = w.
Proof. by destruct w. Qed.

Lemma orchestrator_eta o :
  mkOrchestrator (id o) (commandConsolidator o) (offlineStorage o) (queueCommands o)
                 (patchQueueCommands o) (initialized o) = o.
Proof. by destruct o. Qed.

Lemma drain_nil fuel w : microtasks w = [] -> drain (S fuel) w = Some w.
Proof. intros H. cbn. by rewrite H. Qed.

Lemma drain_cons fuel k v rest w w1 :
  microtasks w = (k, v) :: rest ->
  runReaction (S fuel) k v (upd_microtasks (fun _ => rest) w) = Some w1 ->
  drain (S fuel) w = drain fuel w1.
Proof. intros H1 H2. cbn [drain]. unfold runMicrotask. rewrite H1. by rewrite H2. Qed.

(** ** C4: consolidation of patch commands *)

(** [{ ...object1, ...object2 }]: the fields of [object2] win. *)
Lemma ItemConsolidator_lookup (object1 object2 : Payload) (k : string) :
  ItemConsolidator object1 object2 !! k
  = match object2 !! k with Some v => Some v | None => object1 !! k end.
Proof.
  unfold ItemConsolidator. destruct (object2 !! k) as [v|] eqn:H.
  - by apply lookup_union_Some_l.
  - by rewrite lookup_union_r.
Qed.

(** Scenario 3 from start to end, dispatch held back, any consolidator and
    payloads.
    After the first patch command for "r1": one queue command pending,
    tracked and persisted.  After [handleCommandAsync] of the second one,
    before its continuation runs: the record of the first is replaced by
    the record of the merged command.  Once the microtasks have run: the
    first queue command is neither pending nor tracked, the merged one is
    the only one, and it carries [consolidate(second, first)].  Nothing was
    executed; the store saw save, remove, save. *)
Lemma scenario3_consolidation (consolidate : IObjectConsolidator)
    (first second : Payload) :
  exists w1 w2 w3,
    runStages 20 [ [ InitializeAsync; Tick; SyncStart; Tick;
                     NewUserCommand "patch" first (patchMeta "r1" "u1");
                     HandleCommandAsync 0; Tick ];
                   [ NewUserCommand "patch" second (patchMeta "r1" "u2");
                     HandleCommandAsync 1 ];
                   [ Tick ] ]
        (syncWorldWith (Some consolidate) [offline] []) = Some [w1; w2; w3] /\
    (pending w1, trackedBy w1, persistedKeys w1) = ([0%nat], [0%nat], Some ["o-r1u1"%string]) /\
    (pending w2, trackedBy w2, persistedKeys w2) = ([0%nat], [0%nat], Some ["o-r1u2"%string]) /\
    (pending w3, trackedBy w3, persistedKeys w3) = ([1%nat], [1%nat], Some ["o-r1u2"%string]) /\
    microtasks w3 = [] /\
    length (qcs w3) = 2%nat /\
    payloadOf 1 w3 = Some (consolidate second first) /\
    offlineStorage (orchestrator w3)
      = Some [("o-r1u2"%string,
               mkStored "patch" (consolidate second first) (patchMeta "r1" "u2")
                        (mkQueueInfo 0 0 Initial))] /\
    statusOf 1 w3 = Some Initial /\
    executions w3 = 0%nat /\
    storageWrites w3 = [EvSave "o-r1u1"; EvRemove "o-r1u1"; EvSave "o-r1u2"] /\
    (forall k, ItemConsolidator second first !! k
               = match first !! k with Some v => Some v | None => second !! k end).
Proof.
  do 3 eexists. split; [vm_compute; reflexivity|].
  split_and!; try (vm_compute; reflexivity).
  intros k. apply ItemConsolidator_lookup.
Qed.

Lemma set_delete_not_elem x s : x ∉ set_delete x s.
Proof. unfold set_delete. rewrite list_elem_of_filter. by intros [? _]. Qed.

(** [#buildConsolidatedCommand] when the patch index holds a queue command
    for the resource that is still [Initial] and a consolidator is
    configured: one user command and one queue command are created, the new
    payload is [consolidate(incoming, existing)], the record of the existing
    queue command is removed from the store, the rest of its removal is
    queued, and the patch index points to the new queue command. *)
Lemma buildConsolidatedCommand_merges uc c existing q cOld consolidate w :
  ucs w !! uc = Some c ->
  patchQueueCommands (orchestrator w) !! resourceId (meta c) = Some existing ->
  qcs w !! existing = Some q -> status (queueInfo q) = Initial ->
  ucs w !! command q = Some cOld ->
  commandConsolidator (orchestrator w) = Some consolidate ->
  let '(queueCommand, w') := Sync.buildConsolidatedCommand uc w in
  queueCommand = length (qcs w) /\
  ucs w' = ucs w ++ [mkUserCommand (type c) (consolidate (payload c) (payload cOld))
                       (meta c) (_onExecute c)] /\
  qcs w' = qcs w ++ [mkQueueCommand (length (ucs w)) (mkQueueInfo 0 (now w) Initial)
                       (mkOnComplete None None false VUndefined) []] /\
  microtasks w' = microtasks w ++ [(RemoveResume existing, VUndefined)] /\
  offlineStorage (orchestrator w')
    = removeAsync (Sync.getKey existing w) <$> offlineStorage (orchestrator w) /\
  patchQueueCommands (orchestrator w')
    = <[resourceId (meta c) := queueCommand]> (patchQueueCommands (orchestrator w)) /\
  queueCommands (orchestrator w') = queueCommands (orchestrator w) /\
  consumer w' = consumer w /\
  id (orchestrator w') = id (orchestrator w) /\
  filter isConsume (trace w') = filter isConsume (trace w).
Proof.
  intros Hc Hp Hq Hst HcOld Hcons. unfold Sync.buildConsolidatedCommand.
  rewrite Hc. cbv zeta. rewrite Hp, Hcons, Hq. cbn. rewrite HcOld. cbn. rewrite Hst.
  unfold Sync.removeQueueCommandAsync, Sync.storageRemove, awaitSettled, newQueueCommand.
  destruct (offlineStorage (orchestrator w)) as [s|] eqn:Hs; cbn; rewrite ?Hs;
    split_and!; try done.
  by rewrite filter_app, app_nil_r.
Qed.

Lemma insert_snoc {A} (l : list A) (x y : A) : <[length l := y]> (l ++ [x]) = l ++ [y].
Proof. rewrite insert_app_r_alt by lia. by rewrite Nat.sub_diag. Qed.

Lemma gated_shouldConsumerWait c :
  conditionsSatisfied c = false -> shouldConsumerWait c = true.
Proof.
  unfold conditionsSatisfied, shouldConsumerWait. intros H.
  apply orb_true_iff. right. induction (consumeConditions c) as [|f l IH]; [done|].
  cbn in *. destruct (f (queueState c)); cbn in *; auto.
Qed.

Lemma gated_resume w :
  conditionsSatisfied (consumer w) = false -> resumeOnConditionsSatisfied w = w.
Proof. intros H. unfold resumeOnConditionsSatisfied. rewrite H. by rewrite andb_false_r. Qed.

(** A consumer that is held back by a gating predicate and is started
    again registers a waiter and dispatches nothing. *)
Lemma gated_start fuel w :
  isRunning (consumer w) = false -> conditionsSatisfied (consumer w) = false ->
  start (S fuel) w
  = Some (upd_promises (fun l => l ++ [mkPromise None [ConsumeResume]])
            (upd_consumer (fun c => set_resumeResolver (Some (length (promises w)))
                                      (set_isRunning true c)) w)).
Proof.
  intros Hr Hg. unfold start. rewrite Hr.
  rewrite gated_resume by done. cbn [consumeLoop]. cbn [upd_consumer consumer set_isRunning isRunning].
  rewrite gated_shouldConsumerWait by done.
  unfold createWaitPromise, newPromise, thenDo. cbn. rewrite lookup_snoc.
  unfold upd_promises, upd_consumer. cbn. by rewrite insert_snoc.
Qed.

Lemma onComplete_fresh qc q w :
  qcs w !! qc = Some q ->
  _onComplete q = mkOnComplete None None false VUndefined ->
  onComplete qc w
  = (length (promises w),
     upd_qc qc (set_onComplete (mkOnComplete (Some (length (promises w)))
                                             (Some (length (promises w))) false VUndefined))
       (upd_promises (fun l => l ++ [mkPromise None []]) w)).
Proof. intros Hq Ho. unfold onComplete. by rewrite Hq, Ho. Qed.

Lemma thenDo_pending p ks k w :
  promises w !! p = Some (mkPromise None ks) ->
  thenDo p k w = upd_promises (fun l => <[p := mkPromise None (ks ++ [k])]> l) w.
Proof. intros H. unfold thenDo. by rewrite H. Qed.

(** What [saveAsync] leaves alone. *)
Lemma storageSave_frame qc w :
  let w' := Sync.storageSave qc w in
  qcs w' = qcs w /\ ucs w' = ucs w /\ microtasks w' = microtasks w /\
  consumer w' = consumer w /\ promises w' = promises w /\
  queueCommands (orchestrator w') = queueCommands (orchestrator w).
Proof. unfold Sync.storageSave. by repeat case_match. Qed.

Lemma removeResume_effect qc w :
  let w' := Sync.removeResume qc w in
  pending w' = set_delete qc (pending w) /\
  trackedBy w' = set_delete qc (trackedBy w) /\
  qcs w' = qcs w /\ ucs w' = ucs w /\ microtasks w' = microtasks w /\
  conditionsSatisfied (consumer w') = conditionsSatisfied (consumer w) /\
  offlineStorage (orchestrator w') = offlineStorage (orchestrator w) /\
  executions w' = executions w.
Proof. done. Qed.

Lemma handleResume_gated qc w :
  conditionsSatisfied (consumer w) = false ->
  let w' := Sync.handleResume qc w in
  pending w' = set_add qc (pending w) /\
  trackedBy w' = set_add qc (trackedBy w) /\
  qcs w' = qcs w /\ ucs w' = ucs w /\ microtasks w' = microtasks w /\
  offlineStorage (orchestrator w') = offlineStorage (orchestrator w) /\
  executions w' = executions w.
Proof.
  intros Hg. unfold Sync.handleResume, enqueue. rewrite gated_resume; done.
Qed.

(** Scenario 3 without gating predicate, the two patch commands handled
    in one go: the first queue command is replaced before it is enqueued
    for good, only the merged command is executed and stays tracked and
    persisted. *)
Lemma back_to_back_patches_are_merged (consolidate : IObjectConsolidator)
    (first second : Payload) :
  (fun w => (statusOf 0 w, statusOf 1 w, payloadOf 1 w, pending w, trackedBy w,
             persistedKeys w, filter isConsume (trace w))) <$>
    run 20 [ InitializeAsync; Tick; SyncStart; Tick;
             NewUserCommand "patch" first (patchMeta "r1" "u1");
             NewUserCommand "patch" second (patchMeta "r1" "u2");
             HandleCommandAsync 0; HandleCommandAsync 1; Tick ]
        (syncWorldWith (Some consolidate) [] [])
  = Some (Some Initial, Some Processing, Some (consolidate second first), [], [1%nat],
          Some ["o-r1u2"%string], [EvConsume 2]).
Proof. vm_compute. reflexivity. Qed.

(** Beyond scenario 3: the removal of the replaced queue command ends with
    [patchQueueCommands.delete(resourceId)], after the merged command was
    registered under the same key.  The patch index then holds nothing for
    "r1", and a third patch command is not merged: two queue commands for
    "r1" are pending, tracked and persisted. *)
Lemma third_patch_is_not_merged :
  (fun w => (patchOf "r1" w, pending w)) <$>
    run 20 [HandleCommandAsync 1; Tick] secondPatchWorld
  = Some (None, [1%nat]) /\
  (fun w => (pending w, trackedBy w, persistedKeys w)) <$>
    run 20 [ HandleCommandAsync 1; Tick;
             NewUserCommand "patch" {[ "d" := 9 ]}%string (patchMeta "r1" "u3");
             HandleCommandAsync 3; Tick ] secondPatchWorld
  = Some ([1%nat; 2%nat], [1%nat; 2%nat], Some ["o-r1u2"; "o-r1u3"]%string).
Proof. split; vm_compute; reflexivity. Qed.

(** Consolidation when dispatch is held back.  The orchestrator is
    initialized, a consolidator is configured,
    the patch index holds for the resource of the incoming patch command a
    queue command that is still [Initial], no microtask is waiting and
    dispatch is held back by a gating predicate.  Then [handleCommandAsync]
    and the microtasks it leaves end with: one more queue command, carrying
    [consolidate(incoming payload, existing payload)], in [Initial] status;
    in the pending set and in the tracked set the new queue command has
    taken the place of the existing one; in the store the record of the
    existing one is removed and the record of the new one saved; nothing
    was executed.  With the ItemConsolidator the fields of the existing
    payload win over those of the incoming one. *)
Lemma consolidation_replaces_pending_patch (fuel : nat) (uc : UcId) (existing : QcId)
    (c cOld : UserCommand) (q : QueueCommand) (consolidate : IObjectConsolidator)
    (w : World) :
  initialized (orchestrator w) = true ->
  ucs w !! uc = Some c ->
  isPatch (meta c) = true -> truthy (resourceId (meta c)) = true ->
  patchQueueCommands (orchestrator w) !! resourceId (meta c) = Some existing ->
  qcs w !! existing = Some q -> status (queueInfo q) = Initial ->
  ucs w !! command q = Some cOld ->
  commandConsolidator (orchestrator w) = Some consolidate ->
  microtasks w = [] ->
  conditionsSatisfied (consumer w) = false ->
  let merged := consolidate (payload c) (payload cOld) in
  let new := length (qcs w) in
  exists w',
    run (3 + fuel) [HandleCommandAsync uc; Tick] w = Some w' /\
    microtasks w' = [] /\
    length (qcs w') = S (length (qcs w)) /\
    payloadOf new w' = Some merged /\
    statusOf new w' = Some Initial /\
    pending w' = set_add new (set_delete existing (pending w)) /\
    trackedBy w' = set_add new (set_delete existing (trackedBy w)) /\
    offlineStorage (orchestrator w')
      = (fun s => saveAsync (id (orchestrator w) +:+ "-" +:+ ReferenceId (meta c))
                    (mkStored (type c) merged (meta c) (mkQueueInfo 0 (now w) Initial))
                    (removeAsync (Sync.getKey existing w) s))
        <$> offlineStorage (orchestrator w) /\
    executions w' = executions w /\
    (consolidate = ItemConsolidator ->
     forall k, merged !! k
               = match payload cOld !! k with Some v => Some v | None => payload c !! k end).
Proof.
  intros Hinit Hc Hpatch Htruthy Hp Hq Hst HcOld Hcons Hm Hg merged new.
  pose proof (buildConsolidatedCommand_merges uc c existing q cOld consolidate (stop w)
                Hc Hp Hq Hst HcOld Hcons) as Hb.
  destruct (Sync.buildConsolidatedCommand uc (stop w)) as [new' wB] eqn:Hbuild.
  destruct Hb as (-> & Hu & Hq' & HmB & Hs & HpB & Ht & Hcon & Hid & Htr).
  cbn [stop upd_consumer qcs ucs microtasks now] in Hu, Hq', HmB. rewrite Hm in HmB.
  (* the consumer is started again: it registers a waiter *)
  set (wS := upd_promises (fun l => l ++ [mkPromise None [ConsumeResume]])
               (upd_consumer (fun c0 => set_resumeResolver (Some (length (promises wB)))
                                          (set_isRunning true c0)) wB)).
  (* onComplete().then(...) *)
  set (w2 := upd_qc new (set_onComplete (mkOnComplete (Some (length (promises wS)))
                                           (Some (length (promises wS))) false VUndefined))
               (upd_promises (fun l => l ++ [mkPromise None []]) wS)).
  set (w3 := upd_promises (fun l => <[length (promises wS) :=
                                        mkPromise None [OnCompleteThen new]]> l) w2).
  set (wA := awaitSettled (HandleResume new) (Sync.storageSave new w3)).
  assert (Hhandle : Sync.handleCommandAsync (S (S (S fuel))) uc w = Some (Returned, wA)).
  { unfold Sync.handleCommandAsync, Sync.ensureInitialized.
    rewrite Hinit, Hc, Hpatch, Htruthy. cbn [negb orb]. unfold Sync.consolidateCommand.
    rewrite Hbuild.
    rewrite gated_start; [|by rewrite Hcon|by rewrite Hcon].
    cbn [mbind option_bind stop upd_consumer qcs]. fold wS. fold new.
    erewrite onComplete_fresh; [|subst wS; cbn; rewrite Hq'; apply lookup_snoc|done].
    fold w2. erewrite (thenDo_pending _ []);
      [done|subst w2 wS; cbn; apply lookup_snoc]. }
  (* what is known of the world handed to saveAsync *)
  assert (Hm3 : microtasks w3 = [(RemoveResume existing, VUndefined)])
    by (subst w3 w2 wS; unfold upd_qc; cbn; by rewrite HmB).
  assert (Hc3 : consumer w3
                = set_resumeResolver (Some (length (promises wB)))
                    (set_isRunning true (consumer (stop w))))
    by (subst w3 w2 wS; unfold upd_qc; cbn; by rewrite Hcon).
  assert (Ho3 : orchestrator w3 = orchestrator wB)
    by (subst w3 w2 wS; unfold upd_qc; by cbn).
  assert (Ht3 : trace w3 = trace wB) by (subst w3 w2 wS; unfold upd_qc; by cbn).
  assert (Hu3 : ucs w3 = ucs w ++ [mkUserCommand (type c) merged (meta c) (_onExecute c)])
    by (subst w3 w2 wS; unfold upd_qc; cbn; by rewrite Hu).
  assert (Hq3 : exists oc, qcs w3 = qcs w ++ [mkQueueCommand (length (ucs w))
                                              (mkQueueInfo 0 (now w) Initial) oc []]).
  { eexists. subst w3 w2 wS. unfold upd_qc. cbn. rewrite Hq'. subst new.
    rewrite lookup_snoc. unfold set_onComplete. cbn. by rewrite insert_snoc. }
  destruct Hq3 as [oc Hq3].
  clearbody w3. clear w2 wS.
  assert (Hsnap : Sync.snapshot new w3
                  = Some (mkStored (type c) merged (meta c) (mkQueueInfo 0 (now w) Initial))).
  { unfold Sync.snapshot. rewrite Hq3. subst new. rewrite lookup_snoc. cbn.
    rewrite Hu3. by rewrite lookup_snoc. }
  assert (Hkey : Sync.getKey new w3
                 = (id (orchestrator w) +:+ "-" +:+ ReferenceId (meta c))%string).
  { unfold Sync.getKey, Sync.metaOf. rewrite Hq3. subst new. rewrite lookup_snoc. cbn.
    rewrite Hu3. rewrite lookup_snoc. cbn. by rewrite Ho3, Hid. }
  destruct (storageSave_frame new w3) as (S1 & S2 & S3 & S4 & S5 & S6).
  assert (HmA : microtasks wA
                = [(RemoveResume existing, VUndefined); (HandleResume new, VUndefined)]).
  { subst wA. cbn. by rewrite S3, Hm3. }
  assert (HgA : conditionsSatisfied (consumer wA) = false).
  { subst wA. cbn. by rewrite S4, Hc3. }
  assert (HpA : pending wA = pending w).
  { subst wA. unfold pending. cbn. by rewrite S4, Hc3. }
  assert (HtA : trackedBy wA = trackedBy w).
  { subst wA. unfold trackedBy. cbn. by rewrite S6, Ho3, Ht. }
  assert (HuA : ucs wA !! length (ucs w)
                = Some (mkUserCommand (type c) merged (meta c) (_onExecute c))).
  { subst wA. cbn. rewrite S2, Hu3. apply lookup_snoc. }
  assert (HqA : qcs wA = qcs w ++ [mkQueueCommand (length (ucs w))
                                     (mkQueueInfo 0 (now w) Initial) oc []]).
  { subst wA. cbn. by rewrite S1. }
  assert (HsA : offlineStorage (orchestrator wA)
                = (fun s => saveAsync (id (orchestrator w) +:+ "-" +:+ ReferenceId (meta c))
                              (mkStored (type c) merged (meta c)
                                        (mkQueueInfo 0 (now w) Initial))
                              (removeAsync (Sync.getKey existing w) s))
                  <$> offlineStorage (orchestrator w)).
  { subst wA. cbn. unfold Sync.storageSave. rewrite Hsnap, Hkey, Ho3, Hs. cbn.
    destruct (offlineStorage (orchestrator w)) eqn:E; cbn; [done|].
    rewrite Ho3, Hs. cbn. by rewrite E. }
  assert (HxA : executions wA = executions w).
  { subst wA. unfold executions. cbn. unfold Sync.storageSave. rewrite Hsnap.
    destruct (offlineStorage (orchestrator w3)); cbn;
      rewrite ?filter_app, ?app_nil_r, Ht3; by rewrite Htr. }
  clear S1 S2 S3 S4 S5 S6.
  clearbody wA.
  set (wR := Sync.removeResume existing
               (upd_microtasks (fun _ => [(HandleResume new, VUndefined)]) wA)).
  destruct (removeResume_effect existing
              (upd_microtasks (fun _ => [(HandleResume new, VUndefined)]) wA))
    as (R1 & R2 & R3 & R4 & R5 & R6 & R7 & R8). fold wR in R1, R2, R3, R4, R5, R6, R7, R8.
  cbn [upd_microtasks qcs ucs microtasks consumer orchestrator]
    in R1, R2, R3, R4, R5, R6, R7.
  change (executions (upd_microtasks _ wA)) with (executions wA) in R8.
  rewrite HsA in R7. rewrite HxA in R8.
  set (wH := Sync.handleResume new (upd_microtasks (fun _ => []) wR)).
  destruct (handleResume_gated new (upd_microtasks (fun _ => []) wR))
    as (H1 & H2 & H3 & H4 & H5 & H6 & H7); [by rewrite <- HgA, <- R6|].
  fold wH in H1, H2, H3, H4, H5, H6, H7.
  cbn [upd_microtasks qcs ucs microtasks consumer orchestrator]
    in H1, H2, H3, H4, H5, H6.
  change (executions (upd_microtasks _ wR)) with (executions wR) in H7.
  assert (Hstep1 : runReaction (S (S (S fuel))) (RemoveResume existing) VUndefined
             (upd_microtasks (fun _ => [(HandleResume new, VUndefined)]) wA) = Some wR)
    by reflexivity.
  assert (Hstep2 : runReaction (S (S fuel)) (HandleResume new) VUndefined
             (upd_microtasks (fun _ => []) wR) = Some wH) by reflexivity.
  clearbody wR wH.
  exists wH. split.
  { cbn [run perform Nat.add]. rewrite Hhandle.
    cbn [fmap option_fmap option_map mbind option_bind snd].
    rewrite (drain_cons _ _ _ _ _ _ HmA Hstep1).
    rewrite (drain_cons _ _ _ _ _ _ R5 Hstep2).
    rewrite drain_nil; [done|exact H5]. }
  split_and!.
  - exact H5.
  - rewrite H3, R3, HqA, length_app. cbn. lia.
  - unfold payloadOf. rewrite H3, R3, HqA. subst new. rewrite lookup_snoc. cbn.
    by rewrite H4, R4, HuA.
  - unfold statusOf. rewrite H3, R3, HqA. subst new. by rewrite lookup_snoc.
  - unfold pending in *. cbn [upd_microtasks consumer] in H1, R1. by rewrite H1, R1, HpA.
  - unfold trackedBy in *. cbn [upd_microtasks orchestrator] in H2, R2.
    by rewrite H2, R2, HtA.
  - by rewrite H6, R7.
  - by rewrite H7, R8.
  - intros -> k. apply ItemConsolidator_lookup.
Qed.

Lemma consolidation_replaces_pending_patch_instance :
  exists w',
    run 5 [HandleCommandAsync 1; Tick] secondPatchWorld = Some w' /\
    microtasks w' = [] /\
    pending w' = set_add 1 (set_delete 0 (pending secondPatchWorld)) /\
    trackedBy w' = set_add 1 (set_delete 0 (trackedBy secondPatchWorld)).
Proof.
  destruct (consolidation_replaces_pending_patch 2 1 0
              (mkUserCommand "patch" {[ "b" := 3; "c" := 4 ]}%string (patchMeta "r1" "u2") 1)
              (mkUserCommand "patch" {[ "a" := 1; "b" := 2 ]}%string (patchMeta "r1" "u1") 0)
              (mkQueueCommand 0 (mkQueueInfo 0 0 Initial)
                              (mkOnComplete (Some 2%nat) (Some 2%nat) false VUndefined) [])
              ItemConsolidator secondPatchWorld)
    as (w' & H1 & H2 & _ & _ & _ & H6 & H7 & _); [vm_compute; reflexivity ..|].
  exists w'. by split_and!.
Defined.

(** C4 (failing input).  A consolidator is configured, the consumer has no
    gating predicate and the client has stopped it.  The first patch
    command for "r1" is handled: its queue command (0) is pending, [Initial]
    and in the patch index.  [handleCommandAsync] of the second patch
    command merges the payloads and asks for the removal of queue command 0,
    which takes the command out of the pending set only after an [await];
    then [#consolidateCommand] starts the consumer, whose loop finds queue
    command 0 pending and dispatches it: the executor gets the first
    command with its own payload.  When the microtasks have run the merged
    command has been dispatched as well, and the removal of queue command 0
    has deleted the patch index entry of the merged command.  Two queue
    commands for "r1" were enqueued and executed. *)
Theorem replaced_patch_is_dispatched_unmerged (consolidate : IObjectConsolidator)
    (first second : Payload) :
  exists w1 w2 w3,
    runStages 20 (stoppedBetweenPatches first second)
      (syncWorldWith (Some consolidate) [] []) = Some [w1; w2; w3] /\
    (isRunning (consumer w1), pending w1, statusOf 0 w1, patchOf "r1" w1, executions w1)
      = (false, [0%nat], Some Initial, Some 0%nat, 0%nat) /\
    (statusOf 0 w2, payloadOf 0 w2, pending w2, processCountOf w2)
      = (Some Processing, Some first, [], 1) /\
    trace w2 = trace w1 ++ [EvRemove "o-r1u1"; EvConsume 0; EvSave "o-r1u2"] /\
    (statusOf 1 w3, payloadOf 1 w3) = (Some Processing, Some (consolidate second first)) /\
    filter isConsume (trace w3) = [EvConsume 0; EvConsume 2] /\
    (payload <$> ucs w3 !! 0%nat, payload <$> ucs w3 !! 2%nat)
      = (Some first, Some (consolidate second first)) /\
    (processCountOf w3, trackedBy w3, patchOf "r1" w3, persistedKeys w3)
      = (2, [1%nat], None, Some ["o-r1u2"%string]).
Proof.
  do 3 eexists. split; [vm_compute; reflexivity|].
  split_and!; vm_compute; reflexivity.
Qed.

(** ** C9: the execution signal of a UserCommand *)

Lemma extends_refl w : extends w w.
Proof. by split. Qed.

Lemma extends_trans w1 w2 w3 : extends w1 w2 -> extends w2 w3 -> extends w1 w3.
Proof. intros [A1 B1] [A2 B2]. split; eauto. Qed.

Lemma extends_same w w' : ucs w' = ucs w -> signals w' = signals w -> extends w w'.
Proof. intros H1 H2. unfold extends. by rewrite H1, H2. Qed.

Lemma extends_stale uc v w w' : extends w w' -> stale uc v w -> stale uc v w'.
Proof.
  intros [A B] (c & Hc & Hs)%bind_Some. apply bind_Some. eauto.
Qed.

Create HintDb extends.
#[local] Hint Resolve extends_refl : extends.

Lemma extends_resolvePromise p v w : extends w (resolvePromise p v w).
Proof. unfold resolvePromise. repeat case_match; by apply extends_same. Qed.

Lemma extends_thenDo p k w : extends w (thenDo p k w).
Proof. unfold thenDo. repeat case_match; by apply extends_same. Qed.

Lemma extends_resume w : extends w (resumeOnConditionsSatisfied w).
Proof.
  unfold resumeOnConditionsSatisfied. repeat case_match; auto with extends.
  eapply extends_trans; [apply extends_resolvePromise|by apply extends_same].
Qed.

Lemma extends_enqueue qc w : extends w (enqueue qc w).
Proof.
  unfold enqueue. eapply extends_trans; [|apply extends_resume]. by apply extends_same.
Qed.

Lemma extends_upd_qc qc f w : extends w (upd_qc qc f w).
Proof. by apply extends_same. Qed.

Lemma extends_completed qc s w : extends w (completed qc s w).
Proof.
  unfold completed. repeat case_match; auto with extends.
  eapply extends_trans; [apply extends_resolvePromise|apply extends_upd_qc].
Qed.

Lemma extends_onStatusUpdate qc s w : extends w (onStatusUpdate qc s w).
Proof.
  unfold onStatusUpdate. destruct (qcs w !! qc) as [q|]; auto with extends.
  generalize (_onStatusUpdateListeners q). intros ls. revert w.
  induction ls as [|l ls IH]; intros w; cbn; auto with extends.
  eapply extends_trans; [|apply IH]. by apply extends_same.
Qed.

#[local] Hint Resolve extends_resolvePromise extends_thenDo extends_resume
  extends_enqueue extends_upd_qc extends_completed extends_onStatusUpdate : extends.

(** Peels the operations of a composition, outermost first. *)
Ltac extends_chain :=
  repeat match goal with
    | |- extends _ _ => assumption
    | |- extends ?w ?w => apply extends_refl
    | |- extends ?w (?f ?x) =>
        apply (extends_trans w x);
        [|solve [auto with extends | apply extends_same; reflexivity]]
    end.

Lemma extends_upd_deserializedAt qc info w : extends w (upd_deserializedAt qc info w).
Proof. unfold upd_deserializedAt. case_match; by apply extends_same. Qed.

#[local] Hint Resolve extends_upd_deserializedAt : extends.

Lemma extends_handleRetryDeserialized qc d w :
  extends w (handleRetryDeserialized qc d w).2.
Proof.
  unfold handleRetryDeserialized. cbv zeta.
  case_match; cbn [snd]; unfold decrProcessCount; extends_chain.
Qed.

Lemma extends_handleRetry qc w : extends w (handleRetry qc w).
Proof.
  unfold handleRetry. destruct (qcs w !! qc).
  - cbv zeta. case_match; unfold decrProcessCount; extends_chain.
  - destruct (deserializedAt qc w);
      [apply extends_handleRetryDeserialized|by apply extends_same].
Qed.

Lemma extends_completedCommandExecution qc s w :
  extends w (completedCommandExecution qc s w).
Proof.
  unfold completedCommandExecution. destruct (deserializedAt qc w) as [d|].
  - destruct s; [apply extends_upd_deserializedAt|].
    pose proof (extends_handleRetryDeserialized qc d w) as H.
    destruct (handleRetryDeserialized qc d w) as [raised w1]. cbn in H.
    destruct raised; [done|]. eapply extends_trans; [exact H|apply extends_resume].
  - eapply extends_trans; [|apply extends_resume].
    destruct s; [unfold decrProcessCount; extends_chain|apply extends_handleRetry].
Qed.

Lemma extends_onExecute uc w : extends w (onExecute uc w).2.
Proof.
  unfold onExecute. destruct (ucs w !! uc) as [c|] eqn:Hc; cbn; [|by apply extends_same].
  destruct (signals w !! _onExecute c) as [oe|] eqn:Hs; cbn; [|by apply extends_same].
  destruct (oe_executed oe) eqn:He; [by apply extends_same|].
  destruct (oe_promise oe); cbn; [apply extends_refl|].
  split; [done|]. cbn. intros i v Hi.
  destruct (decide (i = _onExecute c)) as [->|Hne].
  - exfalso. assert (Some oe = Some (mkOnExecute None None true v)) as [= ->]
      by (etrans; [symmetry; exact Hs|exact Hi]). done.
  - by rewrite list_lookup_insert_ne.
Qed.

Lemma extends_executed uc s w : extends w (executed uc s w).
Proof.
  unfold executed. destruct (ucs w !! uc) as [c|]; [|apply extends_refl].
  destruct (signals w !! _onExecute c) as [oe|] eqn:Hs; cbn; [|apply extends_refl].
  destruct (oe_resolve oe) as [p|] eqn:Hr; [|apply extends_refl].
  eapply extends_trans; [apply extends_resolvePromise|].
  split; [by intros ??; cbn|]. cbn. intros i v Hi.
  assert (Hi' : signals w !! i = Some (mkOnExecute None None true v)).
  { unfold resolvePromise in Hi. by repeat case_match. }
  destruct (decide (i = _onExecute c)) as [->|Hne].
  - exfalso. assert (Some oe = Some (mkOnExecute None None true v)) as [= ->]
      by (etrans; [symmetry; exact Hs|exact Hi']). done.
  - by rewrite list_lookup_insert_ne.
Qed.

#[local] Hint Resolve extends_handleRetry extends_completedCommandExecution
  extends_onExecute extends_executed : extends.

Lemma extends_processCommand oqc w : extends w (processCommand oqc w).
Proof.
  unfold processCommand. destruct (oqc ≫= _) as [[[qc uc] c]|].
  - pose proof (extends_onExecute uc w) as He. destruct (onExecute uc w) as [p w1]. cbn in He.
    cbv zeta. unfold incrProcessCount.
    case_match; extends_chain.
  - destruct (oqc ≫= _) as [[qc d]|]; [|by apply extends_same].
    pose proof (extends_handleRetryDeserialized qc d w) as H.
    destruct (handleRetryDeserialized qc d w) as [raised w1]. cbn in H.
    destruct raised; [|done]. eapply extends_trans; [exact H|by apply extends_same].
Qed.

Lemma extends_newQueueCommand uc w : extends w (newQueueCommand uc w).2.
Proof. by apply extends_same. Qed.

Lemma lookup_snoc_Some {A} (l : list A) (x y : A) i :
  l !! i = Some y -> (l ++ [x]) !! i = Some y.
Proof. apply lookup_app_l_Some. Qed.

Lemma extends_newUserCommand t p m w : extends w (newUserCommand t p m w).2.
Proof. split; cbn; intros; by apply lookup_snoc_Some. Qed.

#[local] Hint Resolve extends_processCommand extends_newQueueCommand
  extends_newUserCommand : extends.

Lemma extends_consumeLoop fuel : forall w w',
  consumeLoop fuel w = Some w' -> extends w w'.
Proof.
  induction fuel as [|fuel IH]; intros w w'; [done|]. cbn [consumeLoop].
  destruct (isRunning (consumer w)); [|intros [= <-]; apply extends_refl].
  destruct (shouldConsumerWait (consumer w)).
  - unfold createWaitPromise, newPromise. intros [= <-]. extends_chain.
  - unfold dequeue. destruct (queue (consumer w)) as [|qc rest]; intros H%IH;
      (eapply extends_trans; [|exact H]); unfold remove; extends_chain.
Qed.

Lemma extends_consumeResume fuel w w' : consumeResume fuel w = Some w' -> extends w w'.
Proof.
  unfold consumeResume, dequeue.
  destruct (queue (consumer w)) as [|qc rest]; intros H%extends_consumeLoop;
    (eapply extends_trans; [|exact H]); unfold remove; extends_chain.
Qed.

Lemma extends_start fuel w w' : start fuel w = Some w' -> extends w w'.
Proof.
  unfold start. destruct (isRunning (consumer w)).
  - intros [= <-]. extends_chain.
  - intros H%extends_consumeLoop. eapply extends_trans; [|exact H]. extends_chain.
Qed.

Lemma extends_onComplete qc w : extends w (onComplete qc w).2.
Proof.
  unfold onComplete, promiseResolve, newPromise.
  repeat case_match; cbn; extends_chain.
Qed.

#[local] Hint Resolve extends_onComplete : extends.

Lemma extends_removeQueueCommandAsync qc w : extends w (Sync.removeQueueCommandAsync qc w).
Proof.
  unfold Sync.removeQueueCommandAsync, Sync.storageRemove, awaitSettled.
  case_match; extends_chain.
Qed.

Lemma extends_removeResume qc w : extends w (Sync.removeResume qc w).
Proof. unfold Sync.removeResume, remove. extends_chain. Qed.

Lemma extends_handleResume qc w : extends w (Sync.handleResume qc w).
Proof. unfold Sync.handleResume. extends_chain. Qed.

Lemma extends_storageSave qc w : extends w (Sync.storageSave qc w).
Proof. unfold Sync.storageSave. repeat case_match; extends_chain. Qed.

#[local] Hint Resolve extends_removeQueueCommandAsync extends_removeResume
  extends_handleResume extends_storageSave : extends.

Lemma extends_upd_ucs_snoc c w : extends w (upd_ucs (fun l => l ++ [c]) w).
Proof. split; cbn; [intros; by apply lookup_snoc_Some|done]. Qed.

#[local] Hint Resolve extends_upd_ucs_snoc : extends.

Lemma extends_buildConsolidatedCommand uc w :
  extends w (Sync.buildConsolidatedCommand uc w).2.
Proof.
  unfold Sync.buildConsolidatedCommand.
  destruct (ucs w !! uc) as [userCommand|]; [|apply extends_newQueueCommand].
  cbv zeta. destruct (match patchQueueCommands _ !! _ with Some _ => _ | None => _ end)
    as [[existing newPayload]|]; unfold newQueueCommand; cbn; extends_chain.
Qed.

Lemma extends_consolidateCommand fuel uc w qc w' :
  Sync.consolidateCommand fuel uc w = Some (qc, w') -> extends w w'.
Proof.
  unfold Sync.consolidateCommand.
  pose proof (extends_buildConsolidatedCommand uc (stop w)) as Hb.
  destruct (Sync.buildConsolidatedCommand uc (stop w)) as [queueCommand w1]. cbn in Hb.
  intros (w2 & Hs%extends_start & [= _ <-])%bind_Some.
  eapply extends_trans; [|exact Hs]. eapply extends_trans; [|exact Hb].
  by apply extends_same.
Qed.

Lemma extends_handleCommandAsync fuel uc w r w' :
  Sync.handleCommandAsync fuel uc w = Some (r, w') -> extends w w'.
Proof.
  unfold Sync.handleCommandAsync. destruct (negb _); [intros [= _ <-]; apply extends_refl|].
  cbv zeta. intros ([qc w1] & H1 & H2)%bind_Some.
  assert (extends w w1) as Hw1.
  { destruct (match ucs w !! uc with Some _ => _ | None => _ end).
    - injection H1 as <- <-. apply extends_newQueueCommand.
    - by eapply extends_consolidateCommand. }
  pose proof (extends_onComplete qc w1) as Hc.
  destruct (onComplete qc w1) as [p w2]. cbn in Hc. injection H2 as _ <-.
  unfold awaitSettled. eapply extends_trans; [exact Hw1|]. extends_chain.
Qed.

Lemma extends_foldl_remove l : forall w,
  extends w (foldl (fun w' queueCommand => Sync.removeQueueCommandAsync queueCommand w') w l).
Proof.
  induction l as [|qc l IH]; intros w; cbn; [apply extends_refl|].
  eapply extends_trans; [|apply IH]. apply extends_removeQueueCommandAsync.
Qed.

Lemma extends_dispose w : extends w (Sync.dispose w).
Proof.
  unfold Sync.dispose. cbv zeta.
  eapply extends_trans; [|by apply extends_same].
  eapply extends_trans; [|apply extends_foldl_remove]. by apply extends_same.
Qed.

Lemma extends_loadOne w obj : extends w (Sync.loadOne w obj).
Proof.
  unfold Sync.loadOne. cbv zeta. destruct (isPatch (s_meta obj)); extends_chain.
Qed.

Lemma extends_loadResume data w : extends w (Sync.loadResume data w).
Proof.
  unfold Sync.loadResume, awaitSettled.
  match goal with
  | |- extends ?w (upd_microtasks _ ?x) => apply (extends_trans w x); [|by apply extends_same]
  end.
  destruct data as [data|]; [|apply extends_refl].
  revert w. induction data as [|obj data IH]; intros w; cbn; [apply extends_refl|].
  eapply extends_trans; [apply extends_loadOne|apply IH].
Qed.

Lemma extends_initializeAsync w : extends w (Sync.initializeAsync w).
Proof.
  unfold Sync.initializeAsync, Sync.loadCommandsAsync, awaitSettled.
  repeat case_match; extends_chain.
Qed.

Lemma extends_runReaction fuel k v w w' :
  runReaction fuel k v w = Some w' -> extends w w'.
Proof.
  destruct k; cbn; try (intros [= <-]).
  - apply extends_completedCommandExecution.
  - apply extends_removeQueueCommandAsync.
  - apply extends_consumeResume.
  - apply extends_removeResume.
  - apply extends_handleResume.
  - apply extends_loadResume.
  - by apply extends_same.
  - by apply extends_same.
Qed.

Lemma extends_runMicrotask fuel w w' : runMicrotask fuel w = Some w' -> extends w w'.
Proof.
  unfold runMicrotask. destruct (microtasks w) as [|[k v] rest];
    [intros [= <-]; apply extends_refl|].
  intros H%extends_runReaction. eapply extends_trans; [|exact H]. by apply extends_same.
Qed.

Lemma extends_drain fuel : forall w w', drain fuel w = Some w' -> extends w w'.
Proof.
  induction fuel as [|fuel IH]; intros w w'; [done|]. cbn [drain].
  destruct (microtasks w) eqn:Hm; [intros [= <-]; apply extends_refl|].
  intros (w1 & H1%extends_runMicrotask & H2%IH)%bind_Some. by eapply extends_trans.
Qed.

Lemma extends_perform fuel a w w' : perform fuel w a = Some w' -> extends w w'.
Proof.
  destruct a as [t p m|uc|qc tag|qc l|qc s|qc|qc| | | |qc s|uc s| |uc| | | | | ];
    cbn [perform].
  - intros [= <-]. apply extends_newUserCommand.
  - intros [= <-]. apply extends_newQueueCommand.
  - pose proof (extends_onComplete qc w) as H. destruct (onComplete qc w) as [p w1].
    intros [= <-]. unfold probe. cbn in H. extends_chain.
  - intros [= <-]. unfold addOnStatusUpdate. extends_chain.
  - intros [= <-]. apply extends_completed.
  - intros [= <-]. apply extends_enqueue.
  - intros [= <-]. unfold remove. extends_chain.
  - apply extends_start.
  - intros [= <-]. unfold stop. extends_chain.
  - intros [= <-]. apply extends_resume.
  - intros [= <-]. apply extends_completedCommandExecution.
  - intros [= <-]. apply extends_executed.
  - intros [= <-]. apply extends_initializeAsync.
  - intros ([r w1] & H & [= <-])%fmap_Some. by eapply extends_handleCommandAsync.
  - intros ([r w1] & H & [= <-])%fmap_Some. unfold Sync.start in H.
    destruct (negb _); [by injection H as _ <-; apply extends_refl|].
    apply bind_Some in H as (w2 & H%extends_start & [= _ <-]). done.
  - intros [= <-]. unfold Sync.stop, stop. cbn. extends_chain.
  - intros [= <-]. apply extends_dispose.
  - apply extends_runMicrotask.
  - apply extends_drain.
Qed.

Lemma extends_run fuel program : forall w w',
  run fuel program w = Some w' -> extends w w'.
Proof.
  induction program as [|a program IH]; intros w w'; cbn [run];
    [intros [= <-]; apply extends_refl|].
  intros (w1 & H1%extends_perform & H2%IH)%bind_Some. by eapply extends_trans.
Qed.

(** [executed(s)] with a resolver outstanding stores [s] and drops the
    resolver and the promise. *)
Lemma executed_outstanding uc c oe p s w :
  ucs w !! uc = Some c -> signals w !! _onExecute c = Some oe ->
  oe_resolve oe = Some p ->
  stale uc (VBool s) (executed uc s w).
Proof.
  intros Hc Hs Hr. unfold stale, executionSignal, executed. rewrite Hc, Hs. cbn.
  rewrite Hr.
  assert (Hu : ucs (resolvePromise p (VBool s) w) = ucs w)
    by (unfold resolvePromise; by repeat case_match).
  assert (Hg : signals (resolvePromise p (VBool s) w) = signals w)
    by (unfold resolvePromise; by repeat case_match).
  apply bind_Some. exists c. split.
  - cbn. by rewrite Hu.
  - cbn. rewrite Hg. apply list_lookup_insert_eq. by eapply lookup_lt_Some.
Qed.

Lemma stale_executed uc v s w : stale uc v w -> executed uc s w = w.
Proof.
  intros (c & Hc & Hs)%bind_Some. unfold executed. by rewrite Hc, Hs.
Qed.

Lemma stale_onExecute uc v w : stale uc v w -> onExecute uc w = promiseResolve v w.
Proof.
  intros H. unfold onExecute. fold (executionSignal uc w). by rewrite H.
Qed.

(** Operations that only add to the microtask queue. *)

Lemma queues_refl w : queues w w.
Proof. exists []. by rewrite app_nil_r. Qed.

Lemma queues_trans w1 w2 w3 : queues w1 w2 -> queues w2 w3 -> queues w1 w3.
Proof. intros [m1 H1] [m2 H2]. exists (m1 ++ m2). by rewrite H2, H1, app_assoc. Qed.

Lemma queues_same w w' : microtasks w' = microtasks w -> queues w w'.
Proof. intros H. exists []. by rewrite app_nil_r. Qed.

Lemma queues_resolvePromise p v w : queues w (resolvePromise p v w).
Proof. unfold resolvePromise. repeat case_match; try apply queues_refl. by eexists. Qed.

Ltac queues_chain :=
  repeat match goal with
    | |- queues _ _ => assumption
    | |- queues ?w ?w => apply queues_refl
    | |- queues ?w (?f ?x) =>
        apply (queues_trans w x);
        [|solve [auto with queues | apply queues_same; reflexivity]]
    end.

Create HintDb queues.
#[local] Hint Resolve queues_refl queues_resolvePromise : queues.

Lemma queues_resume w : queues w (resumeOnConditionsSatisfied w).
Proof. unfold resumeOnConditionsSatisfied. repeat case_match; queues_chain. Qed.

Lemma queues_completed qc s w : queues w (completed qc s w).
Proof. unfold completed. repeat case_match; queues_chain. Qed.

Lemma queues_onStatusUpdate qc s w : queues w (onStatusUpdate qc s w).
Proof.
  unfold onStatusUpdate. destruct (qcs w !! qc) as [q|]; [|apply queues_refl].
  generalize (_onStatusUpdateListeners q). intros ls. revert w.
  induction ls as [|l ls IH]; intros w; cbn; [apply queues_refl|].
  eapply queues_trans; [|apply IH]. by apply queues_same.
Qed.

#[local] Hint Resolve queues_resume queues_completed queues_onStatusUpdate : queues.

Lemma queues_enqueue qc w : queues w (enqueue qc w).
Proof. unfold enqueue. queues_chain. Qed.

#[local] Hint Resolve queues_enqueue : queues.

Lemma queues_upd_deserializedAt qc info w : queues w (upd_deserializedAt qc info w).
Proof. unfold upd_deserializedAt. case_match; by apply queues_same. Qed.

#[local] Hint Resolve queues_upd_deserializedAt : queues.

Lemma queues_handleRetryDeserialized qc d w :
  queues w (handleRetryDeserialized qc d w).2.
Proof.
  unfold handleRetryDeserialized. cbv zeta.
  case_match; cbn [snd]; unfold decrProcessCount; queues_chain.
Qed.

Lemma queues_handleRetry qc w : queues w (handleRetry qc w).
Proof.
  unfold handleRetry. destruct (qcs w !! qc).
  - cbv zeta. case_match; unfold decrProcessCount, upd_qc; queues_chain.
  - destruct (deserializedAt qc w);
      [apply queues_handleRetryDeserialized|by apply queues_same].
Qed.

Lemma queues_completedCommandExecution qc s w :
  queues w (completedCommandExecution qc s w).
Proof.
  unfold completedCommandExecution. destruct (deserializedAt qc w) as [d|].
  - destruct s; [apply queues_upd_deserializedAt|].
    pose proof (queues_handleRetryDeserialized qc d w) as H.
    destruct (handleRetryDeserialized qc d w) as [raised w1]. cbn in H.
    destruct raised; [done|]. eapply queues_trans; [exact H|apply queues_resume].
  - eapply queues_trans; [|apply queues_resume].
    destruct s; [unfold decrProcessCount, upd_qc; queues_chain|apply queues_handleRetry].
Qed.

Lemma microtasks_onStatusUpdate qc s w :
  microtasks (onStatusUpdate qc s w) = microtasks w.
Proof.
  unfold onStatusUpdate. destruct (qcs w !! qc) as [q|]; [|done].
  generalize (_onStatusUpdateListeners q). intros ls. revert w.
  induction ls as [|l ls IH]; intros w; cbn; [done|]. by rewrite IH.
Qed.

(** A dispatch of a command whose execution signal has resolved queues
    the completion callback at once, with the stored result. *)
Lemma stale_processCommand qc q v w :
  qcs w !! qc = Some q -> stale (command q) v w ->
  exists more,
    microtasks (processCommand (Some qc) w)
    = microtasks w ++ (OnExecuteThen qc, v) :: more.
Proof.
  intros Hq Hs. unfold processCommand. cbn. rewrite Hq. cbn.
  pose proof Hs as (c & Hc & Hsig)%bind_Some. rewrite Hc. cbn.
  rewrite (stale_onExecute _ _ _ Hs). unfold promiseResolve. cbv zeta.
  set (w1 := upd_promises _ w).
  assert (H2 : microtasks (thenDo (length (promises w)) (OnExecuteThen qc) w1)
               = microtasks w ++ [(OnExecuteThen qc, v)]).
  { unfold thenDo. subst w1. cbn. by rewrite lookup_snoc. }
  set (w2 := thenDo _ _ w1) in *.
  set (w6 := log _ _).
  assert (H6 : microtasks w6 = microtasks w ++ [(OnExecuteThen qc, v)]).
  { subst w6. cbn. by rewrite microtasks_onStatusUpdate. }
  assert (Hq6 : forall w', queues w6 w' ->
            exists more, microtasks w' = microtasks w ++ (OnExecuteThen qc, v) :: more).
  { intros w' [more Hm]. exists more. rewrite Hm, H6. by rewrite <- app_assoc. }
  destruct (consumeFunc _ _ c); apply Hq6.
  - apply queues_refl.
  - apply queues_handleRetry.
  - rewrite stale_executed with (v := v); [apply queues_refl|].
    eapply extends_stale; [|exact Hs]. subst w6 w2 w1. unfold incrProcessCount. extends_chain.
  - apply queues_completedCommandExecution.
Qed.

(** C9 (counterexample).  The first execution fails through
    [executed(false)]; at the retry the executor calls
    [completedCommandExecution(queueCommand, true)] before it returns.  The
    completion future resolves with [true], the outcome of the second
    execution. *)
Lemma direct_completion_sets_the_result :
  (fun w => (completionResult 0 w, trace w)) <$>
    run 20 (admitOne ∅ ++ [Executed 0 false; Tick]) directWorld
  = Some (Some (VBool true),
          [ EvStatusUpdate 7 0 Processing; EvConsume 0;
            EvStatusUpdate 7 0 Processing; EvConsume 0;
            EvStatusUpdate 7 0 Complete; EvProbe 1 (VBool true) ]).
Proof. vm_compute. reflexivity. Qed.

(** C9 (amended).  Once [executed(s)] has resolved the execution signal of
    a user command, whatever the program does next, in every later state:
    the signal still holds [s]; [executed] changes nothing; [onExecute()]
    is a future already resolved with [s]; and a dispatch of a queue
    command for that user command queues the completion callback at once
    with [s].  In scenario 2, whatever the second execution reports through
    [executed], at once ([report]) or later ([later]), changes nothing: the
    run ends as without it, the completion future resolved with [false]. *)
Theorem execution_signal_resolves_once
    (uc : UcId) (c : UserCommand) (oe : OnExecute) (p : PromiseId) (s : bool)
    (w : World) :
  ucs w !! uc = Some c -> signals w !! _onExecute c = Some oe ->
  oe_resolve oe = Some p ->
  (forall fuel program w',
     run fuel program (executed uc s w) = Some w' ->
     stale uc (VBool s) w' /\
     (forall s', executed uc s' w' = w') /\
     onExecute uc w' = promiseResolve (VBool s) w' /\
     (forall qc q, qcs w' !! qc = Some q -> command q = uc ->
        exists more, microtasks (processCommand (Some qc) w')
                     = microtasks w' ++ (OnExecuteThen qc, VBool s) :: more)) /\
  (forall (report : option bool) (later : bool) (payload : Payload),
     exists w',
       run 20 (admitOne payload ++ [Executed 0 false; Tick]) (reportingWorld report)
         = Some w' /\
       run 20 (admitOne payload ++ [Executed 0 false; Tick; Executed 0 later; Tick])
           (reportingWorld report) = Some w' /\
       executions w' = 2%nat /\
       completionResult 0 w' = Some (VBool false) /\
       trace w' = [ EvStatusUpdate 7 0 Processing; EvConsume 0;
                    EvStatusUpdate 7 0 Processing; EvConsume 0;
                    EvStatusUpdate 7 0 Complete; EvProbe 1 (VBool false) ]).
Proof.
  intros Hc Hs Hr. split.
  - intros fuel program w' Hrun.
    assert (Hst : stale uc (VBool s) w').
    { eapply extends_stale; [by eapply extends_run|]. by eapply executed_outstanding. }
    split_and!; [done| | |].
    + intros s'. by eapply stale_executed.
    + by apply stale_onExecute.
    + intros qc q Hq <-. by eapply stale_processCommand.
  - intros report later payload.
    destruct report as [[]|], later;
      (eexists; split; [vm_compute; reflexivity|]; split_and!; vm_compute; reflexivity).
Qed.

Lemma execution_signal_resolves_once_witness :
  stale 0 (VBool false) (executed 0 false dispatchedWorld) /\
  onExecute 0 (executed 0 false dispatchedWorld)
  = promiseResolve (VBool false) (executed 0 false dispatchedWorld).
Proof.
  assert (Hc : ucs dispatchedWorld !! 0%nat
               = Some (mkUserCommand "work" ∅ systemMeta 0)) by reflexivity.
  assert (Hs : signals dispatchedWorld !! 0%nat
               = Some (mkOnExecute (Some 1%nat) (Some 1%nat) false VUndefined))
    by reflexivity.
  destruct (execution_signal_resolves_once 0 _ _ 1 false dispatchedWorld Hc Hs eq_refl)
    as [H _].
  destruct (H 0%nat [] _ eq_refl) as (H1 & _ & H3 & _). by split.
Defined.

(** ** Instances *)

Lemma success_completion_notifies_no_observer_witness :
  statusOf 0 (completedCommandExecution 0 true dispatchedWorld) = Some Complete /\
  trace (completedCommandExecution 0 true dispatchedWorld) = trace dispatchedWorld /\
  listenersOf 0 dispatchedWorld = [7%nat].
Proof.
  destruct (success_completion_notifies_no_observer 0 _ dispatchedWorld eq_refl) as [H1 H2].
  split_and!; [exact H1|exact H2|reflexivity].
Defined.

(** * Further properties *)

(** ** The consumer loop *)

Lemma queueState_eta s : mkQueueState (processCount s) = s.
Proof. by destruct s. Qed.

Lemma conditionsAt_processCount c :
  conditionsAt (processCount (queueState c)) c = conditionsSatisfied c.
Proof. unfold conditionsAt, conditionsSatisfied. by rewrite queueState_eta. Qed.

Lemma conditionsAt_ext n c c' :
  consumeConditions c = consumeConditions c' -> conditionsAt n c = conditionsAt n c'.
Proof. unfold conditionsAt. by intros ->. Qed.

Lemma shouldConsumerWait_spec c :
  shouldConsumerWait c = bool_decide (queue c = []) || negb (conditionsSatisfied c).
Proof.
  unfold shouldConsumerWait, conditionsSatisfied. f_equal.
  induction (consumeConditions c) as [|f l IH]; [done|].
  cbn. rewrite IH. by destruct (f (queueState c)).
Qed.

Lemma set_delete_head x (l : list nat) : NoDup (x :: l) -> set_delete x (x :: l) = l.
Proof.
  intros [Hx Hl]%NoDup_cons. unfold set_delete.
  rewrite filter_cons_False by (intros H; by apply H).
  induction l as [|y l IH]; [done|].
  apply not_elem_of_cons in Hx as [Hne Hx]. apply NoDup_cons in Hl as [_ Hl].
  rewrite filter_cons_True by done. f_equal. by apply IH.
Qed.

Lemma ucs_onStatusUpdate qc s w : ucs (onStatusUpdate qc s w) = ucs w.
Proof.
  unfold onStatusUpdate. destruct (qcs w !! qc) as [q|]; [|done].
  generalize (_onStatusUpdateListeners q). intros ls. revert w.
  induction ls as [|l ls IH]; intros w; cbn; [done|]. by rewrite IH.
Qed.

Lemma orchestrator_onStatusUpdate qc s w :
  orchestrator (onStatusUpdate qc s w) = orchestrator w.
Proof.
  unfold onStatusUpdate. destruct (qcs w !! qc) as [q|]; [|done].
  generalize (_onStatusUpdateListeners q). intros ls. revert w.
  induction ls as [|l ls IH]; intros w; cbn; [done|]. by rewrite IH.
Qed.

Lemma orchestrator_onExecute uc w : orchestrator (onExecute uc w).2 = orchestrator w.
Proof. unfold onExecute, promiseResolve, newPromise. by repeat case_match. Qed.

Lemma orchestrator_thenDo p k w : orchestrator (thenDo p k w) = orchestrator w.
Proof. unfold thenDo. by repeat case_match. Qed.

(** The part of a dispatch that comes before the executor's verdict. *)
Lemma processCommand_dispatch qc q c w :
  qcs w !! qc = Some q -> ucs w !! command q = Some c ->
  exists w6,
    processCommand (Some qc) w
    = match consumeFunc (consumer w) (executions w) c with
      | Returns => w6
      | Throws => handleRetry qc w6
      | CallsExecuted success => executed (command q) success w6
      | CallsCompleted success => completedCommandExecution qc success w6
      end /\
    replaces qc (set_status Processing q) w w6 /\
    consumer w6 = set_processCount (processCountOf w + 1) (consumer w) /\
    ucs w6 = ucs w /\
    trace w6 = trace w ++ notifications qc Processing w ++ [EvConsume (command q)] /\
    orchestrator w6 = orchestrator w /\
    deserialized w6 = deserialized w.
Proof.
  intros Hq Hc. unfold processCommand. cbn [mbind option_bind]. rewrite Hq.
  cbn [mbind option_bind]. rewrite Hc. cbn [mbind option_bind].
  pose proof (deserialized_onExecute (command q) w) as A6.
  pose proof (deserialized_thenDo (onExecute (command q) w).1 (OnExecuteThen qc)
                (onExecute (command q) w).2) as B6.
  pose proof (orchestrator_onExecute (command q) w) as A5.
  destruct (onExecute_frame (command q) w) as (A1 & A2 & A3 & A4).
  destruct (onExecute (command q) w) as [p w1]. cbn [fst snd] in A1, A2, A3, A4, A5, A6, B6.
  destruct (thenDo_frame p (OnExecuteThen qc) w1) as (B1 & B2 & B3 & B4).
  pose proof (orchestrator_thenDo p (OnExecuteThen qc) w1) as B5.
  set (w2 := thenDo p (OnExecuteThen qc) w1) in *. cbv zeta.
  assert (Hq2 : qcs w2 !! qc = Some q) by (by rewrite B1, A1).
  set (w4 := onStatusUpdate qc Processing (upd_qc qc (set_status Processing) w2)).
  assert (Ho4 : orchestrator w4 = orchestrator w).
  { subst w4. rewrite orchestrator_onStatusUpdate.
    change (orchestrator (upd_qc qc (set_status Processing) w2)) with (orchestrator w2).
    by rewrite B5, A5. }
  assert (Ht4 : trace w4 = trace w ++ notifications qc Processing w).
  { subst w4. rewrite trace_onStatusUpdate.
    change (trace (upd_qc qc (set_status Processing) w2)) with (trace w2).
    rewrite B4, A4. f_equal. unfold notifications, listenersOf.
    erewrite qcs_upd_qc_eq by exact Hq2. by rewrite Hq. }
  assert (Hc4 : consumer w4 = consumer w).
  { subst w4. rewrite consumer_onStatusUpdate.
    change (consumer (upd_qc qc (set_status Processing) w2)) with (consumer w2).
    by rewrite B3, A3. }
  assert (Hu4 : ucs w4 = ucs w).
  { subst w4. rewrite ucs_onStatusUpdate.
    change (ucs (upd_qc qc (set_status Processing) w2)) with (ucs w2). by rewrite B2, A2. }
  exists (log (EvConsume (command q)) (incrProcessCount w4)).
  assert (Hx4 : consumeFunc (consumer (incrProcessCount w4)) (executions (incrProcessCount w4)) c
                = consumeFunc (consumer w) (executions w) c).
  { unfold executions. cbn. by rewrite Ht4, Hc4, executions_notifications. }
  rewrite Hx4. split_and!.
  - done.
  - unfold replaces. cbn [log incrProcessCount upd_consumer qcs]. subst w4.
    rewrite qcs_onStatusUpdate. unfold upd_qc, upd_qcs. cbn. by rewrite Hq2, B1, A1.
  - cbn. by rewrite Hc4.
  - cbn. exact Hu4.
  - cbn. rewrite Ht4. by rewrite <- app_assoc.
  - cbn. exact Ho4.
  - cbn [log incrProcessCount upd_consumer deserialized]. subst w4.
    rewrite deserialized_onStatusUpdate.
    change (deserialized (upd_qc qc (set_status Processing) w2)) with (deserialized w2).
    subst w2. by rewrite B6, A6.
Qed.

Lemma replaces_lookup_ne (qc qc' : QcId) q' w w' :
  qc' <> qc -> replaces qc q' w w' -> qcs w' !! qc' = qcs w !! qc'.
Proof. unfold replaces. intros Hne ->. by rewrite list_lookup_insert_ne. Qed.

Lemma dispatchEvents_ext qc w w' :
  qcs w' !! qc = qcs w !! qc -> dispatchEvents qc w' = dispatchEvents qc w.
Proof. intros H. unfold dispatchEvents, notifications, listenersOf. by rewrite H. Qed.

(** The loop of [#consume] with an executor that returns: as long as the
    gating predicates hold it takes the oldest pending command and
    dispatches it. *)
Lemma consumeLoop_dispatches_front (front : list QcId) :
  forall (rest : list QcId) (extra : nat) (w : World),
  isRunning (consumer w) = true ->
  (forall n c, consumeFunc (consumer w) n c = Returns) ->
  pending w = front ++ rest -> NoDup (front ++ rest) ->
  Forall (fun qc => inStore qc w) front ->
  (forall j, (j < length front)%nat ->
     conditionsAt (processCountOf w + Z.of_nat j) (consumer w) = true) ->
  exists w1,
    consumeLoop (length front + extra) w = consumeLoop extra w1 /\
    consumer w1 = set_queue rest
                    (set_processCount (processCountOf w + Z.of_nat (length front))
                                      (consumer w)) /\
    ucs w1 = ucs w /\
    trace w1 = trace w ++ concat (map (fun qc => dispatchEvents qc w) front) /\
    (forall qc, qc ∈ front -> statusOf qc w1 = Some Processing) /\
    (forall qc, qc ∉ front -> qcs w1 !! qc = qcs w !! qc) /\
    orchestrator w1 = orchestrator w /\
    (forall qc, qc ∈ front -> qcs w1 !! qc = set_status Processing <$> qcs w !! qc) /\
    deserialized w1 = deserialized w.
Proof.
  induction front as [|qc front IH]; intros rest extra w Hrun Hx Hp Hnd Hadm Hcond.
  - exists w. cbn. split_and!; try done.
    + unfold pending in Hp. cbn in Hp. unfold processCountOf. rewrite Z.add_0_r.
      destruct (consumer w) as [? ? ? ? [?] ? ?]. cbn in *. by subst.
    + by rewrite app_nil_r.
    + intros qc H. by apply elem_of_nil in H.
    + intros qc H. by apply elem_of_nil in H.
  - apply Forall_cons in Hadm as [(q & c & Hq & Hc) Hadm].
    cbn [length Nat.add consumeLoop]. rewrite Hrun.
    assert (Hwait : shouldConsumerWait (consumer w) = false).
    { rewrite shouldConsumerWait_spec. unfold pending in Hp. rewrite Hp.
      rewrite <- conditionsAt_processCount.
      specialize (Hcond 0%nat ltac:(cbn; lia)). unfold processCountOf in Hcond.
      rewrite Z.add_0_r in Hcond. by rewrite Hcond. }
    rewrite Hwait. unfold dequeue. unfold pending in Hp. rewrite Hp. cbn [app].
    set (w0 := remove qc w).
    assert (Hq0 : qcs w0 !! qc = Some q) by done.
    assert (Hc0 : ucs w0 !! command q = Some c) by done.
    destruct (processCommand_dispatch qc q c w0 Hq0 Hc0)
      as (w6 & E & Hr & Hcon & Hu & Ht & Ho & Hd).
    assert (Hx0 : consumeFunc (consumer w0) (executions w0) c = Returns) by apply Hx.
    rewrite Hx0 in E. rewrite E. clear E.
    assert (Hp0 : queue (consumer w0) = front ++ rest).
    { subst w0. cbn. rewrite Hp. cbn [app]. by apply set_delete_head. }
    assert (Hpc0 : processCountOf w0 = processCountOf w) by done.
    cbn [app] in Hnd. apply NoDup_cons in Hnd as [Hnotin Hnd].
    destruct (IH rest extra w6) as (w1 & L1 & L2 & L3 & L4 & L5 & L6 & L7 & L8 & L9).
    + by rewrite Hcon.
    + intros n c'. rewrite Hcon. apply Hx.
    + unfold pending. rewrite Hcon. exact Hp0.
    + exact Hnd.
    + apply Forall_forall. intros qc' Hin.
      rewrite Forall_forall in Hadm. destruct (Hadm qc' Hin) as (q' & c' & Hq' & Hc').
      assert (Hne : qc' <> qc) by (intros ->; apply Hnotin, elem_of_app; by left).
      exists q', c'. split; [|by rewrite Hu].
      by rewrite (replaces_lookup_ne _ _ _ _ _ Hne Hr).
    + intros j Hj. specialize (Hcond (S j) ltac:(cbn; lia)).
      unfold processCountOf in *. rewrite Hcon. cbn.
      replace (processCount (queueState (consumer w)) + 1 + Z.of_nat j)
        with (processCount (queueState (consumer w)) + Z.of_nat (S j)) by lia.
      exact Hcond.
    + exists w1. split_and!.
      * exact L1.
      * rewrite L2, Hcon. unfold processCountOf. rewrite Hcon. subst w0.
        unfold set_queue, set_processCount. cbn -[Z.of_nat Z.add length].
        do 2 f_equal. cbn [length]. rewrite Hpc0. unfold processCountOf. lia.
      * by rewrite L3, Hu.
      * rewrite L4, Ht. cbn [map concat]. rewrite <- !app_assoc. f_equal.
        unfold dispatchEvents at 2. rewrite Hq. rewrite <- !app_assoc. f_equal. f_equal.
        f_equal. apply map_ext_in. intros qc' Hin%list_elem_of_In.
        apply dispatchEvents_ext.
        assert (Hne : qc' <> qc) by (intros ->; apply Hnotin, elem_of_app; by left).
        by rewrite (replaces_lookup_ne _ _ _ _ _ Hne Hr).
      * intros qc' [->|Hin]%elem_of_cons; [|by apply L5].
        assert (Hnf : qc ∉ front) by (intros H; apply Hnotin, elem_of_app; by left).
        erewrite statusOf_instance;
          [|rewrite (L6 _ Hnf);
            exact (replaces_lookup _ _ _ _ (lookup_lt_Some _ _ _ Hq0) Hr)]. done.
      * intros qc' [Hne Hnf]%not_elem_of_cons. rewrite (L6 _ Hnf).
        by rewrite (replaces_lookup_ne _ _ _ _ _ Hne Hr).
      * by rewrite L7, Ho.
      * assert (Hnf : qc ∉ front) by (intros H; apply Hnotin, elem_of_app; by left).
        intros qc' [->|Hin]%elem_of_cons.
        -- rewrite (L6 _ Hnf), Hq.
           by rewrite (replaces_lookup _ _ _ _ (lookup_lt_Some _ _ _ Hq0) Hr).
        -- rewrite (L8 _ Hin).
           assert (Hne : qc' <> qc) by (intros ->; done).
           by rewrite (replaces_lookup_ne _ _ _ _ _ Hne Hr).
      * by rewrite L9, Hd.
Qed.

(** An iteration of the loop that has to wait registers the wait handle
    and suspends. *)
Lemma consumeLoop_waits fuel w :
  isRunning (consumer w) = true -> shouldConsumerWait (consumer w) = true ->
  exists w',
    consumeLoop (S fuel) w = Some w' /\
    consumer w' = set_resumeResolver (Some (length (promises w))) (consumer w) /\
    promises w' = promises w ++ [mkPromise None [ConsumeResume]] /\
    qcs w' = qcs w /\ ucs w' = ucs w /\ trace w' = trace w /\
    microtasks w' = microtasks w /\ orchestrator w' = orchestrator w /\
    deserialized w' = deserialized w.
Proof.
  intros Hr Hw. cbn [consumeLoop]. rewrite Hr, Hw.
  unfold createWaitPromise, newPromise, thenDo. cbn. rewrite lookup_snoc.
  eexists. split; [done|]. cbn. by rewrite insert_snoc.
Qed.

(** [#resumeOnConditionsSatisfied] touches the wait handle, the promise
    table and the microtask queue only. *)
Lemma resume_frame w :
  let w' := resumeOnConditionsSatisfied w in
  (exists r, consumer w' = set_resumeResolver r (consumer w)) /\
  qcs w' = qcs w /\ ucs w' = ucs w /\ trace w' = trace w /\
  orchestrator w' = orchestrator w /\ deserialized w' = deserialized w.
Proof.
  unfold resumeOnConditionsSatisfied.
  assert (Hid : consumer w = set_resumeResolver (resumeResolver (consumer w)) (consumer w))
    by (by destruct (consumer w)).
  destruct (_ && _); [|by split; [eexists|]].
  destruct (resumeResolver (consumer w)) as [p|] eqn:E; [|by split; [eexists|]].
  unfold resolvePromise. split; [exists None|]; by repeat case_match.
Qed.

(** [start()] on a stopped consumer whose executor returns: the commands
    at the front of the pending set are dispatched one after the other as
    long as the gating predicates hold, then the loop suspends. *)
Lemma start_dispatches (fuel : nat) (front rest : list QcId) (w : World) :
  isRunning (consumer w) = false ->
  (forall n c, consumeFunc (consumer w) n c = Returns) ->
  pending w = front ++ rest -> NoDup (front ++ rest) ->
  Forall (fun qc => inStore qc w) front ->
  (forall j, (j < length front)%nat ->
     conditionsAt (processCountOf w + Z.of_nat j) (consumer w) = true) ->
  rest = [] \/ conditionsAt (processCountOf w + Z.of_nat (length front)) (consumer w) = false ->
  (length front < fuel)%nat ->
  exists w',
    start fuel w = Some w' /\
    isRunning (consumer w') = true /\
    pending w' = rest /\
    processCountOf w' = processCountOf w + Z.of_nat (length front) /\
    trace w' = trace w ++ concat (map (fun qc => dispatchEvents qc w) front) /\
    (forall qc, qc ∈ front -> statusOf qc w' = Some Processing) /\
    (forall qc, qc ∉ front -> qcs w' !! qc = qcs w !! qc) /\
    ucs w' = ucs w /\
    resumeResolver (consumer w') <> None /\
    orchestrator w' = orchestrator w /\
    deserialized w' = deserialized w.
Proof.
  intros Hr Hx Hp Hnd Hadm Hcond Hend Hfuel. unfold start. rewrite Hr.
  set (w0 := resumeOnConditionsSatisfied (upd_consumer (set_isRunning true) w)).
  destruct (resume_frame (upd_consumer (set_isRunning true) w))
    as ([r Hc0] & Hq0 & Hu0 & Ht0 & Ho0 & Hd0). fold w0 in Hc0, Hq0, Hu0, Ht0, Ho0, Hd0.
  cbn [upd_consumer consumer qcs ucs trace orchestrator deserialized]
    in Hc0, Hq0, Hu0, Ht0, Ho0, Hd0.
  assert (Hpc0 : processCountOf w0 = processCountOf w)
    by (unfold processCountOf; by rewrite Hc0).
  replace fuel with (length front + S (fuel - length front - 1))%nat by lia.
  destruct (consumeLoop_dispatches_front front rest (S (fuel - length front - 1)) w0)
    as (w1 & L1 & L2 & L3 & L4 & L5 & L6 & L7 & _ & L9).
  - by rewrite Hc0.
  - intros n c. rewrite Hc0. apply Hx.
  - unfold pending in *. by rewrite Hc0.
  - exact Hnd.
  - apply Forall_forall. intros qc Hin. rewrite Forall_forall in Hadm.
    destruct (Hadm qc Hin) as (q & c & Hq & Hc). exists q, c. by rewrite Hq0, Hu0.
  - intros j Hj. rewrite Hpc0. rewrite <- (Hcond j Hj). unfold conditionsAt. by rewrite Hc0.
  - rewrite L1.
    destruct (consumeLoop_waits (fuel - length front - 1) w1)
      as (w' & W1 & W2 & _ & W4 & W5 & W6 & _ & W8 & W9).
    + by rewrite L2, Hc0.
    + rewrite shouldConsumerWait_spec. rewrite <- conditionsAt_processCount.
      rewrite L2. cbn [set_queue set_processCount queue queueState processCount].
      destruct Hend as [->|Hend]; [done|].
      apply orb_true_iff. right. rewrite Hpc0.
      rewrite (conditionsAt_ext _ _ (consumer w)) by (by rewrite Hc0).
      by rewrite Hend.
    + exists w'. split; [exact W1|]. split_and!.
      * by rewrite W2, L2, Hc0.
      * unfold pending. by rewrite W2, L2.
      * unfold processCountOf. rewrite W2, L2. cbn. by rewrite Hpc0.
      * rewrite W6, L4, Ht0. do 2 f_equal. apply map_ext. intros qc.
        apply dispatchEvents_ext. by rewrite Hq0.
      * intros qc Hin. rewrite (statusOf_ext _ _ _ W4 W9). by apply L5.
      * intros qc Hin. by rewrite W4, (L6 _ Hin), Hq0.
      * by rewrite W5, L3.
      * by rewrite W2.
      * by rewrite W8, L7.
      * by rewrite W9, L9.
Qed.

(** X1.  [start] on a stopped consumer without gating predicate, whose
    executor starts asynchronous work and returns: every pending command is
    dispatched within the call, oldest first; each dispatch notifies the
    status observers of the command of [Processing] and then calls the
    executor.  Afterwards nothing is pending, [processCount] has grown by the
    number of commands, each of them is [Processing], and no other command
    has changed status. *)
Theorem start_dispatches_pending_in_order (fuel : nat) (w : World) :
  isRunning (consumer w) = false ->
  consumeConditions (consumer w) = [] ->
  (forall n c, consumeFunc (consumer w) n c = Returns) ->
  NoDup (pending w) ->
  Forall (fun qc => inStore qc w) (pending w) ->
  (length (pending w) < fuel)%nat ->
  exists w',
    start fuel w = Some w' /\
    isRunning (consumer w') = true /\
    pending w' = [] /\
    trace w' = trace w ++ concat (map (fun qc => dispatchEvents qc w) (pending w)) /\
    processCountOf w' = processCountOf w + Z.of_nat (length (pending w)) /\
    (forall qc, qc ∈ pending w -> statusOf qc w' = Some Processing) /\
    (forall qc, qc ∉ pending w -> statusOf qc w' = statusOf qc w).
Proof.
  intros Hr Hc Hx Hnd Hadm Hfuel.
  destruct (start_dispatches fuel (pending w) [] w)
    as (w' & H1 & H2 & H3 & H4 & H5 & H6 & H7 & _ & _ & _ & H11); try done.
  - by rewrite app_nil_r.
  - by rewrite app_nil_r.
  - intros j _. unfold conditionsAt. by rewrite Hc.
  - by left.
  - exists w'. split_and!; try done. intros qc Hin.
    apply statusOf_frame; [by rewrite H7|done].
Qed.

(** X2.  [start] with the gating predicate [processCount < cap]: the loop
    dispatches the [cap - processCount] oldest pending commands (none when
    the count is at the cap or above it), in order, and leaves the others
    pending in their order; [processCount] does not exceed the larger of
    [cap] and its value before. *)
Theorem start_dispatches_up_to_the_cap (fuel : nat) (cap : Z) (w : World) :
  isRunning (consumer w) = false ->
  consumeConditions (consumer w) = [processCountBelow cap] ->
  (forall n c, consumeFunc (consumer w) n c = Returns) ->
  NoDup (pending w) ->
  Forall (fun qc => inStore qc w) (pending w) ->
  (length (pending w) < fuel)%nat ->
  let free := Z.to_nat (cap - processCountOf w) in
  exists w',
    start fuel w = Some w' /\
    pending w' = drop free (pending w) /\
    trace w' = trace w ++ concat (map (fun qc => dispatchEvents qc w)
                                      (take free (pending w))) /\
    processCountOf w' = processCountOf w + Z.of_nat (length (take free (pending w))) /\
    processCountOf w' <= Z.max cap (processCountOf w) /\
    (forall qc, qc ∈ take free (pending w) -> statusOf qc w' = Some Processing) /\
    (forall qc, qc ∉ take free (pending w) -> statusOf qc w' = statusOf qc w).
Proof.
  intros Hr Hc Hx Hnd Hadm Hfuel free.
  assert (Hlen : (length (take free (pending w)) <= length (pending w))%nat)
    by (rewrite length_take; lia).
  assert (Hlen' : (length (take free (pending w)) <= free)%nat)
    by (rewrite length_take; lia).
  destruct (start_dispatches fuel (take free (pending w)) (drop free (pending w)) w)
    as (w' & H1 & H2 & H3 & H4 & H5 & H6 & H7 & _ & _ & _ & H11); try done.
  - by rewrite take_drop.
  - by rewrite take_drop.
  - rewrite <- (take_drop free (pending w)) in Hadm. by apply Forall_app in Hadm as [? _].
  - intros j Hj. unfold conditionsAt. rewrite Hc. cbn. rewrite andb_true_r.
    unfold processCountBelow. cbn. apply Z.ltb_lt. lia.
  - destruct (decide (length (pending w) <= free)%nat) as [Hle|Hgt].
    + left. by apply drop_ge.
    + right. unfold conditionsAt. rewrite Hc. cbn. rewrite andb_true_r.
      unfold processCountBelow. cbn. apply Z.ltb_ge. rewrite length_take. lia.
  - lia.
  - exists w'. split_and!; try done.
    + rewrite H4. lia.
    + intros qc Hin. apply statusOf_frame; [by rewrite H7|done].
Qed.

(* ---- retry handler: what it keeps ---- *)

Lemma ucs_resolvePromise p v w : ucs (resolvePromise p v w) = ucs w.
Proof. unfold resolvePromise. by repeat case_match. Qed.

Lemma ucs_completed qc s w : ucs (completed qc s w) = ucs w.
Proof.
  unfold completed. repeat case_match; try done.
  change (ucs (upd_qc ?a ?b ?c)) with (ucs c). apply ucs_resolvePromise.
Qed.

Lemma sameConfig_trans c1 c2 c3 : sameConfig c1 c2 -> sameConfig c2 c3 -> sameConfig c1 c3.
Proof. intros (A1 & A2 & A3 & A4) (B1 & B2 & B3 & B4). split_and!; congruence. Qed.

Lemma sameConfig_resume w : sameConfig (consumer w) (consumer (resumeOnConditionsSatisfied w)).
Proof. destruct (resume_frame w) as ([r ->] & _). done. Qed.

Lemma sameConfig_enqueue qc w : sameConfig (consumer w) (consumer (enqueue qc w)).
Proof.
  unfold enqueue. eapply sameConfig_trans; [|apply sameConfig_resume]. done.
Qed.

Lemma handleRetry_frame qc q w :
  qcs w !! qc = Some q ->
  let w' := handleRetry qc w in
  sameConfig (consumer w) (consumer w') /\ ucs w' = ucs w /\
  exists q', replaces qc q' w w' /\ command q' = command q /\
             _onStatusUpdateListeners q' = _onStatusUpdateListeners q.
Proof.
  intros Hq. unfold handleRetry. rewrite Hq. cbv zeta.
  set (a := attemptNo (queueInfo q) + 1).
  pose proof (qcs_upd_qc_eq qc (set_attemptNo a) w q Hq) as H1.
  destruct (retryDecision qc (upd_qc qc (set_attemptNo a) w)).
  - split_and!.
    + unfold decrProcessCount. cbn [upd_consumer consumer].
      eapply sameConfig_trans; [|apply sameConfig_resume].
      eapply sameConfig_trans; [|apply sameConfig_enqueue]. done.
    + cbn [decrProcessCount upd_consumer ucs].
      destruct (resume_frame (enqueue qc (upd_qc qc (set_status Initial)
                                            (upd_qc qc (set_attemptNo a) w))))
        as (_ & _ & -> & _).
      unfold enqueue.
      by destruct (resume_frame (upd_consumer (fun c => set_queue (set_add qc (queue c)) c)
                     (upd_qc qc (set_status Initial) (upd_qc qc (set_attemptNo a) w))))
        as (_ & _ & -> & _).
    + exists (set_status Initial (set_attemptNo a q)). split; [|done].
      unfold replaces. cbn [decrProcessCount upd_consumer qcs].
      rewrite qcs_resume, qcs_enqueue.
      apply (replaces_trans qc (set_attemptNo a q) _ w (upd_qc qc (set_attemptNo a) w));
        by apply replaces_upd_qc.
  - pose proof (qcs_upd_qc_eq qc (set_status Complete) _ _ H1) as H2.
    assert (H3 : qcs (onStatusUpdate qc Complete
                        (upd_qc qc (set_status Complete)
                           (upd_qc qc (set_attemptNo a) w))) !! qc
                 = Some (set_status Complete (set_attemptNo a q)))
      by (by rewrite qcs_onStatusUpdate).
    destruct (replaces_completed qc false _ _ H3) as [oc Hc].
    split_and!.
    + cbn [decrProcessCount upd_consumer consumer].
      rewrite consumer_completed, consumer_onStatusUpdate. done.
    + cbn [decrProcessCount upd_consumer ucs]. by rewrite ucs_completed, ucs_onStatusUpdate.
    + exists (set_onComplete oc (set_status Complete (set_attemptNo a q))). split; [|done].
      unfold replaces. cbn [decrProcessCount upd_consumer qcs].
      unfold replaces in Hc. rewrite Hc, qcs_onStatusUpdate.
      unfold upd_qc, upd_qcs. cbn. rewrite Hq. cbn.
      rewrite list_lookup_insert_eq by (by eapply lookup_lt_Some).
      by rewrite !list_insert_insert_eq.
Qed.

Lemma set_add_nil x : set_add x [] = [x].
Proof. unfold set_add. by rewrite bool_decide_eq_false_2 by apply not_elem_of_nil. Qed.

Lemma set_delete_singleton x : set_delete x [x] = [].
Proof. apply set_delete_head. apply NoDup_singleton. Qed.

(** The loop of [#consume] on one pending command whose every execution
    raises, under the attempt-count condition: the command is executed
    again and again until [attemptNo] has reached [maxRetries], at least
    once. *)
Lemma throwing_loop (maxRetries : Z) (qc : QcId) (k : nat) :
  forall (extra : nat) (w : World) (q : QueueCommand) (c : UserCommand),
  isRunning (consumer w) = true ->
  consumeConditions (consumer w) = [] ->
  retryPolicyEvaluator (consumer w) = attemptCountPolicy maxRetries ->
  (forall n c, consumeFunc (consumer w) n c = Throws) ->
  pending w = [qc] -> qcs w !! qc = Some q -> ucs w !! command q = Some c ->
  Z.of_nat k = Z.max 0 (maxRetries - attemptNo (queueInfo q) - 1) ->
  exists w',
    consumeLoop (S k + extra) w = consumeLoop extra w' /\
    sameConfig (consumer w) (consumer w') /\
    pending w' = [] /\
    statusOf qc w' = Some Complete /\
    attemptNoOf qc w' = Some (attemptNo (queueInfo q) + 1 + Z.of_nat k) /\
    processCountOf w' = processCountOf w /\
    trace w' = trace w ++ concat (replicate (S k) (dispatchEvents qc w))
                       ++ notifications qc Complete w.
Proof.
  induction k as [|k IH]; intros extra w q c Hrun Hcond Hpol Hx Hp Hq Hc Hk.
  all: cbn [Nat.add consumeLoop]; rewrite Hrun.
  all: assert (Hwait : shouldConsumerWait (consumer w) = false)
         by (rewrite shouldConsumerWait_spec; unfold conditionsSatisfied, pending in *;
             by rewrite Hp, Hcond).
  all: rewrite Hwait; unfold dequeue; unfold pending in Hp; rewrite Hp.
  all: set (w0 := remove qc w).
  all: assert (Hq0 : qcs w0 !! qc = Some q) by done.
  all: assert (Hc0 : ucs w0 !! command q = Some c) by done.
  all: destruct (processCommand_dispatch qc q c w0 Hq0 Hc0)
         as (w6 & E & Hr & Hcon & Hu & Ht & _).
  all: assert (Hx0 : consumeFunc (consumer w0) (executions w0) c = Throws) by apply Hx.
  all: rewrite Hx0 in E; rewrite E; clear E.
  all: pose proof (replaces_lookup _ _ _ _ (lookup_lt_Some _ _ _ Hq0) Hr) as Hq6.
  all: assert (Hp6 : pending w6 = [])
         by (unfold pending; rewrite Hcon; subst w0; cbn; rewrite Hp; apply set_delete_singleton).
  all: assert (Hpc6 : processCountOf w6 = processCountOf w + 1)
         by (unfold processCountOf; by rewrite Hcon).
  all: assert (Hpol6 : retryPolicyEvaluator (consumer w6) = attemptCountPolicy maxRetries)
         by (by rewrite Hcon).
  all: assert (Hc6 : ucs w6 !! command (set_status Processing q) = Some c) by (by rewrite Hu).
  all: set (a := attemptNo (queueInfo q) + 1).
  all: assert (Hd : retryDecision qc (upd_qc qc (set_attemptNo a) w6) = (a <? maxRetries))
         by (erewrite (attemptCount_retryDecision qc (set_attemptNo a (set_status Processing q))
                         c maxRetries); [done|done|by apply qcs_upd_qc_eq|done]).
  all: destruct (handleRetry_frame qc _ w6 Hq6) as (Hcfg & Hu' & q' & Hr' & Hcmd & Hls).
  all: assert (Hcfg0 : sameConfig (consumer w) (consumer (handleRetry qc w6)))
         by (eapply sameConfig_trans; [|exact Hcfg]; by rewrite Hcon).
  all: assert (Hev : dispatchEvents qc w
                     = notifications qc Processing w0 ++ [EvConsume (command q)])
         by (unfold dispatchEvents; by rewrite Hq).
  all: assert (Hnot : notifications qc Complete w6 = notifications qc Complete w)
         by (unfold notifications, listenersOf; by rewrite Hq6, Hq).
  - assert (Hlt : (a <? maxRetries) = false) by (apply Z.ltb_ge; lia).
    rewrite Hlt in Hd.
    destruct (handleRetry_deny qc _ w6 Hq6 Hd) as (D1 & D2 & D3 & D4 & D5).
    exists (handleRetry qc w6). split_and!; try done.
    + by rewrite D3.
    + rewrite D1. cbn. f_equal. lia.
    + rewrite D4. lia.
    + rewrite D5, Ht, Hnot. cbn [replicate concat]. rewrite app_nil_r, Hev.
      by rewrite <- !app_assoc.
  - assert (Hlt : (a <? maxRetries) = true) by (apply Z.ltb_lt; lia).
    rewrite Hlt in Hd.
    destruct (handleRetry_retry qc _ w6 Hq6 Hd) as (R1 & R2 & R3 & R4 & R5).
    set (w7 := handleRetry qc w6) in *.
    pose proof (replaces_lookup _ _ _ _ (lookup_lt_Some _ _ _ Hq6) Hr') as Hq7.
    assert (Ha7 : attemptNo (queueInfo q') = a).
    { unfold attemptNoOf in R1. rewrite Hq7 in R1. cbn in R1. by injection R1. }
    destruct Hcfg0 as (C1 & C2 & C3 & C4).
    destruct (IH extra w7 q' c) as (w' & L1 & L2 & L3 & L4 & L5 & L6 & L7).
    + by rewrite C4.
    + by rewrite C2.
    + by rewrite C3.
    + intros n c'. rewrite C1. apply Hx.
    + rewrite R3, Hp6. apply set_add_nil.
    + exact Hq7.
    + by rewrite Hcmd, Hu'.
    + rewrite Ha7. lia.
    + exists w'. split_and!; try done.
      * eapply sameConfig_trans; [|exact L2]. done.
      * rewrite L5, Ha7. f_equal. lia.
      * rewrite L6, R4. lia.
      * rewrite L7, R5, Ht.
        assert (Hev7 : dispatchEvents qc w7 = dispatchEvents qc w).
        { unfold dispatchEvents, notifications, listenersOf. rewrite Hq7, Hq. cbn.
          by rewrite Hcmd, Hls. }
        assert (Hn7 : notifications qc Complete w7 = notifications qc Complete w).
        { unfold notifications, listenersOf. rewrite Hq7, Hq. cbn. by rewrite Hls. }
        rewrite Hev7, Hn7. cbn [replicate concat]. rewrite Hev.
        by rewrite <- !app_assoc.
Qed.

Lemma filter_isConsume_notifications qc s w :
  filter isConsume (notifications qc s w) = [].
Proof.
  unfold notifications. induction (listenersOf qc w) as [|l ls IH]; [done|].
  change (map _ (l :: ls)) with (EvStatusUpdate l qc s :: map (fun listener =>
    EvStatusUpdate listener qc s) ls).
  rewrite filter_cons_False; [exact IH|]. cbn. tauto.
Qed.

Lemma executions_dispatchEvents qc q w t :
  qcs w !! qc = Some q ->
  length (filter isConsume (concat (replicate t (dispatchEvents qc w)))) = t.
Proof.
  intros Hq. induction t as [|t IH]; [done|].
  cbn [replicate concat]. rewrite filter_app, length_app, IH.
  unfold dispatchEvents. rewrite Hq, filter_app, filter_isConsume_notifications. done.
Qed.

(** X3.  One pending command, an executor that raises every time, the
    attempt-count condition with [maxRetries]: [start] executes the command
    max(1, maxRetries - attemptNo) times in a row within the same call, so
    [maxRetries] bounds the number of executions and not the number of
    retries after the first one.  Then the command is [Complete] and no
    longer pending, its status observers were notified of [Processing] once
    per execution and of [Complete] once, [attemptNo] has grown by the number
    of executions and [processCount] is what it was. *)
Theorem failing_command_execution_count
    (fuel : nat) (maxRetries : Z) (qc : QcId) (q : QueueCommand) (c : UserCommand)
    (w : World) :
  isRunning (consumer w) = false ->
  consumeConditions (consumer w) = [] ->
  retryPolicyEvaluator (consumer w) = attemptCountPolicy maxRetries ->
  (forall n c, consumeFunc (consumer w) n c = Throws) ->
  pending w = [qc] -> qcs w !! qc = Some q -> ucs w !! command q = Some c ->
  let times := Z.to_nat (Z.max 1 (maxRetries - attemptNo (queueInfo q))) in
  (times < fuel)%nat ->
  exists w',
    start fuel w = Some w' /\
    executions w' = (executions w + times)%nat /\
    trace w' = trace w ++ concat (replicate times (dispatchEvents qc w))
                       ++ notifications qc Complete w /\
    statusOf qc w' = Some Complete /\
    attemptNoOf qc w' = Some (attemptNo (queueInfo q) + Z.of_nat times) /\
    pending w' = [] /\
    processCountOf w' = processCountOf w.
Proof.
  intros Hr Hcond Hpol Hx Hp Hq Hc times Hfuel. unfold start. rewrite Hr.
  set (w0 := resumeOnConditionsSatisfied (upd_consumer (set_isRunning true) w)).
  destruct (resume_frame (upd_consumer (set_isRunning true) w))
    as ([r Hc0] & Hq0 & Hu0 & Ht0 & _). fold w0 in Hc0, Hq0, Hu0, Ht0.
  cbn [upd_consumer consumer qcs ucs trace] in Hc0, Hq0, Hu0, Ht0.
  assert (Htimes : exists k, times = S k /\
            Z.of_nat k = Z.max 0 (maxRetries - attemptNo (queueInfo q) - 1)).
  { exists (Z.to_nat (Z.max 0 (maxRetries - attemptNo (queueInfo q) - 1))).
    subst times. split; lia. }
  destruct Htimes as (k & Hk & Hk').
  replace fuel with (S k + S (fuel - times - 1))%nat by lia.
  destruct (throwing_loop maxRetries qc k (S (fuel - times - 1)) w0 q c)
    as (w1 & L1 & L2 & L3 & L4 & L5 & L6 & L7).
  - by rewrite Hc0.
  - by rewrite Hc0.
  - by rewrite Hc0.
  - intros n c'. rewrite Hc0. apply Hx.
  - unfold pending in *. by rewrite Hc0.
  - by rewrite Hq0.
  - by rewrite Hu0.
  - exact Hk'.
  - rewrite L1. destruct L2 as (C1 & C2 & C3 & C4).
    destruct (consumeLoop_waits (fuel - times - 1) w1)
      as (w' & W1 & W2 & _ & W4 & W5 & W6 & _ & _ & W9).
    + by rewrite C4, Hc0.
    + rewrite shouldConsumerWait_spec. unfold pending in L3. by rewrite L3.
    + assert (Hd : dispatchEvents qc w0 = dispatchEvents qc w)
        by (apply dispatchEvents_ext; by rewrite Hq0).
      assert (Hn : notifications qc Complete w0 = notifications qc Complete w)
        by (unfold notifications, listenersOf; by rewrite Hq0).
      assert (Htr : trace w' = trace w ++ concat (replicate times (dispatchEvents qc w))
                                  ++ notifications qc Complete w)
        by (by rewrite W6, L7, Ht0, Hd, Hn, Hk).
      exists w'. split; [exact W1|]. split_and!.
      * unfold executions. rewrite Htr, !filter_app, !length_app.
        rewrite filter_isConsume_notifications, (executions_dispatchEvents qc q w times Hq).
        cbn. lia.
      * exact Htr.
      * by rewrite (statusOf_ext _ _ _ W4 W9).
      * unfold attemptNoOf in *. rewrite W4, L5. f_equal. lia.
      * unfold pending in *. by rewrite W2.
      * unfold processCountOf in *. rewrite W2. cbn. by rewrite L6, Hc0.
Qed.

(** ** Observers, the pending set and the retry policy *)

Lemma set_add_NoDup x s : NoDup s -> NoDup (set_add x s).
Proof.
  intros H. unfold set_add. case_bool_decide; [done|].
  apply NoDup_app. split_and!; [done| |apply NoDup_singleton].
  intros y Hy ->%list_elem_of_singleton. done.
Qed.

Lemma set_delete_NoDup x s : NoDup s -> NoDup (set_delete x s).
Proof. apply NoDup_filter. Qed.

Lemma elem_of_set_add x y s : y ∈ set_add x s <-> y = x \/ y ∈ s.
Proof.
  unfold set_add. case_bool_decide.
  - split; [by right|]. by intros [->|].
  - rewrite elem_of_app, list_elem_of_singleton. tauto.
Qed.

Lemma elem_of_set_delete x y s : y ∈ set_delete x s <-> y <> x /\ y ∈ s.
Proof. unfold set_delete. by rewrite list_elem_of_filter. Qed.

Lemma listenersOf_subscription qc q w s :
  qcs w !! qc = Some q ->
  qcs (subscription qc w s) !! qc
  = Some (set_listeners
            match s with
            | Subscribe l => set_add l (_onStatusUpdateListeners q)
            | Unsubscribe l => set_delete l (_onStatusUpdateListeners q)
            end q).
Proof.
  intros Hq. destruct s; cbn; unfold addOnStatusUpdate, removeOnStatusUpdate;
    by erewrite qcs_upd_qc_eq.
Qed.

Lemma subscriptions_frame qc calls : forall w,
  trace (foldl (subscription qc) w calls) = trace w /\
  length (qcs (foldl (subscription qc) w calls)) = length (qcs w).
Proof.
  induction calls as [|s calls IH]; intros w; [done|]. cbn [foldl].
  destruct (IH (subscription qc w s)) as [-> ->].
  destruct s; cbn; unfold addOnStatusUpdate, removeOnStatusUpdate, upd_qc, upd_qcs; cbn;
    (split; [done|]); case_match; by rewrite ?length_insert.
Qed.

Lemma subscriptions_listeners qc calls : forall w q (b : ListenerId -> bool),
  qcs w !! qc = Some q -> NoDup (_onStatusUpdateListeners q) ->
  (forall l, l ∈ _onStatusUpdateListeners q <-> b l = true) ->
  exists q', qcs (foldl (subscription qc) w calls) !! qc = Some q' /\
    queueInfo q' = queueInfo q /\
    NoDup (_onStatusUpdateListeners q') /\
    forall l, l ∈ _onStatusUpdateListeners q' <->
      foldl (fun b s =>
               match s with
               | Subscribe l' => if decide (l' = l) then true else b
               | Unsubscribe l' => if decide (l' = l) then false else b
               end) (b l) calls = true.
Proof.
  induction calls as [|s calls IH]; intros w q b Hq Hnd Hb; [by exists q|].
  cbn [foldl].
  pose proof (listenersOf_subscription qc q w s Hq) as Hq'.
  destruct s as [l0|l0].
  - destruct (IH _ _ (fun l => if decide (l0 = l) then true else b l) Hq')
      as (q' & H1 & H0 & H2 & H3).
    + by apply set_add_NoDup.
    + intros l. cbn. rewrite elem_of_set_add, Hb.
      destruct (decide (l0 = l)); intuition congruence.
    + exists q'. split_and!; [done|done|done|]. intros l. by rewrite H3.
  - destruct (IH _ _ (fun l => if decide (l0 = l) then false else b l) Hq')
      as (q' & H1 & H0 & H2 & H3).
    + by apply set_delete_NoDup.
    + intros l. cbn. rewrite elem_of_set_delete, Hb.
      destruct (decide (l0 = l)); intuition congruence.
    + exists q'. split_and!; [done|done|done|]. intros l. by rewrite H3.
Qed.

(** X4.  The status observers of a queue command form a set: after any
    sequence of [addOnStatusUpdate] and [removeOnStatusUpdate] on a new queue
    command, a listener is registered iff the last call that names it is an
    [addOnStatusUpdate], and none is registered twice; [onStatusUpdate(s)]
    calls each registered listener once, in the order of the set, and leaves
    the status of the command alone. *)
Theorem status_observers_form_a_set (uc : UcId) (calls : list Subscription)
    (s : QueueStatus) (w : World) :
  let '(qc, w0) := newQueueCommand uc w in
  let w1 := foldl (subscription qc) w0 calls in
  NoDup (listenersOf qc w1) /\
  (forall listener, listener ∈ listenersOf qc w1 <-> subscribed listener calls = true) /\
  trace (onStatusUpdate qc s w1)
  = trace w ++ map (fun listener => EvStatusUpdate listener qc s) (listenersOf qc w1) /\
  statusOf qc (onStatusUpdate qc s w1) = Some Initial.
Proof.
  pose proof (newQueueCommand_lookup uc w) as Hq.
  destruct (newQueueCommand uc w) as [qc w0] eqn:E. cbn [fst snd] in Hq. cbv zeta.
  destruct (subscriptions_listeners qc calls w0 _ (fun _ => false) Hq) as (q' & H1 & H0 & H2 & H3).
  - apply NoDup_nil_2.
  - intros l. cbn. split; [by intros ?%elem_of_nil|done].
  - destruct (subscriptions_frame qc calls w0) as [Ht _].
    assert (Hw0 : trace w0 = trace w) by (by injection E as <- <-).
    unfold listenersOf. rewrite H1. cbn. split_and!; [done|exact H3| |].
    + rewrite trace_onStatusUpdate, Ht, Hw0. unfold notifications, listenersOf. by rewrite H1.
    + unfold statusOf. rewrite qcs_onStatusUpdate, H1. cbn. by rewrite H0.
Qed.

Lemma consumer_eta c :
  mkConsumer (consumeFunc c) (consumeConditions c) (retryPolicyEvaluator c)
             (isRunning c) (queueState c) (queue c) (resumeResolver c) = c.
Proof. by destruct c. Qed.

Lemma set_add_idem x s : set_add x (set_add x s) = set_add x s.
Proof.
  unfold set_add at 1. rewrite bool_decide_eq_true_2; [done|apply set_add_elem].
Qed.

Lemma resume_idem w :
  resumeOnConditionsSatisfied (resumeOnConditionsSatisfied w) = resumeOnConditionsSatisfied w.
Proof.
  unfold resumeOnConditionsSatisfied at 2.
  destruct (_ && _ && _) eqn:E.
  - destruct (resumeResolver (consumer w)) as [p|] eqn:Hr.
    + unfold resumeOnConditionsSatisfied. cbn. rewrite consumer_resolvePromise.
      cbn. fold (conditionsSatisfied (consumer w)). by rewrite E, Hr.
    + unfold resumeOnConditionsSatisfied. by rewrite E, Hr.
  - unfold resumeOnConditionsSatisfied. by rewrite E.
Qed.

(** X5.  [enqueue] is idempotent: a second [enqueue] of the same command
    changes nothing at all.  The command is pending afterwards, the pending
    set has no duplicate if it had none, and a command that was pending
    keeps its place. *)
Theorem enqueue_is_idempotent (qc : QcId) (w : World) :
  enqueue qc (enqueue qc w) = enqueue qc w /\
  qc ∈ pending (enqueue qc w) /\
  (NoDup (pending w) -> NoDup (pending (enqueue qc w))) /\
  (qc ∈ pending w -> pending (enqueue qc w) = pending w).
Proof.
  split_and!.
  - unfold enqueue at 1.
    set (w1 := enqueue qc w).
    assert (H : upd_consumer (fun c => set_queue (set_add qc (queue c)) c) w1 = w1).
    { assert (Hq : set_add qc (queue (consumer w1)) = queue (consumer w1)).
      { fold (pending w1). subst w1. rewrite pending_enqueue. apply set_add_idem. }
      unfold upd_consumer, set_queue. rewrite Hq, consumer_eta. apply world_eta. }
    rewrite H. subst w1. unfold enqueue. apply resume_idem.
  - rewrite pending_enqueue. apply set_add_elem.
  - rewrite pending_enqueue. apply set_add_NoDup.
  - intros Hin. rewrite pending_enqueue. unfold set_add. by rewrite bool_decide_eq_true_2.
Qed.

(** X6.  [remove] takes a command out of the pending set and touches nothing
    else: on a command that is not pending it does nothing; after the
    [enqueue] of a command that was not pending it restores the pending set,
    but a wake-up of the loop that this [enqueue] queued stays queued; the
    queue commands and [processCount] are as before. *)
Theorem remove_undoes_enqueue_only (qc : QcId) (w : World) :
  (qc ∉ pending w -> remove qc w = w) /\
  (qc ∉ pending w -> pending (remove qc (enqueue qc w)) = pending w) /\
  microtasks (remove qc (enqueue qc w)) = microtasks (enqueue qc w) /\
  qcs (remove qc w) = qcs w /\ processCountOf (remove qc w) = processCountOf w.
Proof.
  assert (Hdel : forall s, qc ∉ s -> set_delete qc s = s).
  { intros s Hs. unfold set_delete. induction s as [|y s IH]; [done|].
    apply not_elem_of_cons in Hs as [Hne Hs].
    rewrite filter_cons_True by done. f_equal. by apply IH. }
  split_and!; try done.
  - intros Hn. unfold remove, upd_consumer, set_queue. unfold pending in Hn.
    rewrite (Hdel _ Hn), consumer_eta. apply world_eta.
  - intros Hn. change (pending (remove qc ?x)) with (set_delete qc (pending x)).
    rewrite pending_enqueue. unfold set_add. rewrite bool_decide_eq_false_2 by done.
    unfold set_delete. rewrite filter_app. fold (set_delete qc (pending w)).
    rewrite (Hdel _ Hn). rewrite filter_cons_False by (intros H; by apply H).
    by rewrite app_nil_r.
Qed.

(** X7.  The conditions of a retry policy evaluator are alternatives: an
    evaluator without condition never allows a retry; after [addCondition]
    the answer of [shouldRetry] is the disjunction of the former answer and
    of the new condition, so adding a condition can only allow more retries;
    an evaluator made of attempt-count conditions allows a retry iff
    [attemptNo] is below one of the counts. *)
Theorem retry_conditions_are_alternatives (e : RetryPolicyEvaluator)
    (condition : IRetryCondition) (retryCounts : list Z) (c : UserCommand) (info : QueueInfo) :
  shouldRetry (mkEvaluator []) c info = false /\
  shouldRetry (addCondition condition e) c info
  = shouldRetry e c info || condition c info /\
  (shouldRetry e c info = true -> shouldRetry (addCondition condition e) c info = true) /\
  (shouldRetry (mkEvaluator (map AttempNoRetryCondition retryCounts)) c info = true
   <-> exists retryCount, retryCount ∈ retryCounts /\ attemptNo info < retryCount).
Proof.
  assert (Happ : shouldRetry (addCondition condition e) c info
                 = shouldRetry e c info || condition c info).
  { unfold shouldRetry, addCondition. cbn. rewrite existsb_app. cbn. by rewrite orb_false_r. }
  split_and!; [done|exact Happ|by rewrite Happ; intros ->|].
  unfold shouldRetry. cbn. rewrite existsb_exists. split.
  - intros (f & (n & <- & Hn)%in_map_iff & Hf). exists n.
    split; [by apply list_elem_of_In|]. by apply Z.ltb_lt.
  - intros (n & Hn & Hlt). exists (AttempNoRetryCondition n). split.
    + apply in_map. by apply list_elem_of_In.
    + by apply Z.ltb_lt.
Qed.

(** X8.  One failure of a known command ([#handleRetry]): [attemptNo] grows
    by one and [processCount] falls by one.  If the consumer has a retry
    policy and one of its conditions allows a retry at the incremented
    [attemptNo], the command is [Initial] and pending again, and no observer
    is notified; otherwise (also when there is no policy) it is [Complete],
    the pending set is unchanged and its status observers are notified of
    [Complete]. *)
Theorem failure_is_retried_iff_a_condition_allows (qc : QcId) (q : QueueCommand)
    (c : UserCommand) (w : World) :
  qcs w !! qc = Some q -> ucs w !! command q = Some c ->
  let info := mkQueueInfo (attemptNo (queueInfo q) + 1) (dateCreated (queueInfo q))
                          (status (queueInfo q)) in
  let allowed :=
    match retryPolicyEvaluator (consumer w) with
    | Some e => existsb (fun condition => condition c info) (conditions e)
    | None => false
    end in
  let w' := handleRetry qc w in
  attemptNoOf qc w' = Some (attemptNo (queueInfo q) + 1) /\
  processCountOf w' = processCountOf w - 1 /\
  (allowed = true ->
     statusOf qc w' = Some Initial /\ pending w' = set_add qc (pending w) /\
     trace w' = trace w) /\
  (allowed = false ->
     statusOf qc w' = Some Complete /\ pending w' = pending w /\
     trace w' = trace w ++ notifications qc Complete w).
Proof.
  intros Hq Hc info allowed w'.
  assert (Hd : retryDecision qc (upd_qc qc (set_attemptNo (attemptNo (queueInfo q) + 1)) w)
               = allowed).
  { unfold retryDecision.
    change (consumer (upd_qc ?a ?b ?x)) with (consumer x).
    change (ucs (upd_qc ?a ?b ?x)) with (ucs x).
    erewrite qcs_upd_qc_eq by exact Hq. cbn. rewrite Hc. cbn.
    subst allowed. by destruct (retryPolicyEvaluator (consumer w)). }
  destruct allowed eqn:Ha.
  - destruct (handleRetry_retry qc q w Hq Hd) as (H1 & H2 & H3 & H4 & H5).
    split_and!; [done|done|done|done].
  - destruct (handleRetry_deny qc q w Hq Hd) as (H1 & H2 & H3 & H4 & H5).
    split_and!; [done|done|done|done].
Qed.

(** ** The metadata of a user command *)

(** X9.  The metadata of [new UserCommand(type, payload, meta)]: a [meta]
    that is no object raises, an omitted one gives the resource "system".
    For a plain object the fallback "system" applies only when the key
    [resourceId] is absent: a key that is present with the empty string or
    with [undefined] is copied by [Object.assign] over the fallback, and the
    command has a falsy [resourceId].  [isPatch] and [isSensitiveData]
    default to false, [contextId] to undefined and [uuid] to a fresh one;
    [ReferenceId] is the concatenation of [contextId], [resourceId] and
    [uuid]. *)
Theorem meta_fallback_applies_to_an_absent_key_only (o : MetaObject)
    (randomUUID : string) (now : Z) :
  userCommandMeta MetaOther randomUUID now = None /\
  userCommandMeta MetaOmitted randomUUID now
  = Some (mkMeta (Some "system"%string) None randomUUID now false false) /\
  exists m,
    userCommandMeta (MetaPlain o) randomUUID now = Some m /\
    resourceId m = match o_resourceId o with
                   | Some given => given
                   | None => Some "system"%string
                   end /\
    (truthy (resourceId m) = false <->
       o_resourceId o = Some None \/ o_resourceId o = Some (Some ""%string)) /\
    isPatch m = default false (o_isPatch o) /\
    isSensitiveData m = default false (o_isSensitiveData o) /\
    contextId m = default None (o_contextId o) /\
    uuid m = default randomUUID (o_uuid o) /\
    ReferenceId m = (default "" (contextId m) +:+ default "" (resourceId m)
                       +:+ default randomUUID (o_uuid o))%string.
Proof.
  split_and!; [done|done|].
  set (m := assignMeta
              (newUserCommandMeta
                 (if truthy (mjoin (o_resourceId o)) then mjoin (o_resourceId o)
                  else Some "system"%string) None randomUUID now) o).
  exists m. split; [reflexivity|].
  assert (Hr : resourceId m = match o_resourceId o with
                              | Some given => given
                              | None => Some "system"%string
                              end).
  { subst m. unfold assignMeta. cbn. by destruct (o_resourceId o). }
  split_and!; try done.
  rewrite Hr. destruct (o_resourceId o) as [[r|]|]; cbn.
  - destruct r; cbn; split; try done; try (by right); by intros [|].
  - split; [by left|done].
  - split; [done|by intros [|]].
Qed.

(** ** The orchestrator and its store *)

Lemma prefix_app (s t : string) : String.prefix s (s +:+ t) = true.
Proof.
  induction s as [|a s IH]; [by destruct t|].
  change (String a s +:+ t) with (String a (s +:+ t)). cbn.
  destruct (Ascii.ascii_dec a a); [exact IH|done].
Qed.

Lemma append_assoc (s t u : string) : (s +:+ (t +:+ u) = (s +:+ t) +:+ u)%string.
Proof.
  induction s as [|a s IH]; [done|].
  change (String a s +:+ ?x) with (String a (s +:+ x)).
  change ((String a s +:+ t) +:+ u) with (String a ((s +:+ t) +:+ u)). by rewrite IH.
Qed.

Lemma prefix_trans (s : string) : forall t u,
  String.prefix s t = true -> String.prefix t u = true -> String.prefix s u = true.
Proof.
  induction s as [|a s IH]; intros t u Hst Htu; [by destruct u|].
  destruct t as [|b t]; [done|]. destruct u as [|c u]; [done|]. cbn in *.
  destruct (Ascii.ascii_dec a b) as [->|]; [|done].
  destruct (Ascii.ascii_dec b c) as [->|]; [|done]. by eapply IH.
Qed.

Lemma getKey_prefix qc w :
  String.prefix (id (orchestrator w) +:+ "-") (Sync.getKey qc w) = true.
Proof.
  unfold Sync.getKey. rewrite append_assoc. apply prefix_app.
Qed.

Lemma saveAsync_elem key v s : (key, v) ∈ saveAsync key v s.
Proof.
  unfold saveAsync. destruct (existsb _ s) eqn:E.
  - apply existsb_exists in E as ([k v'] & Hin & Hk). cbn in Hk.
    apply String.eqb_eq in Hk as ->. apply list_elem_of_In in Hin.
    apply list_elem_of_In. apply in_map_iff. exists (key, v'). split.
    + cbn. by rewrite String.eqb_refl.
    + by apply list_elem_of_In.
  - apply elem_of_app. right. by left.
Qed.

Lemma loadByKeyPrefixAsync_elem prefix key v s :
  (key, v) ∈ s -> String.prefix prefix key = true -> v ∈ loadByKeyPrefixAsync prefix s.
Proof.
  intros Hin Hp. unfold loadByKeyPrefixAsync.
  apply list_elem_of_In, in_map_iff. exists (key, v). split; [done|].
  apply list_elem_of_In. apply list_elem_of_filter. by split.
Qed.

(** X10.  What the orchestrator saves for a queue command,
    [#loadCommandsAsync] finds again: the record is stored under the key
    [id-ReferenceId], which has the prefix [id-] that the orchestrator loads
    by.  It is also found by every orchestrator on the same store whose
    [id-] is a prefix of this one's, such as "a" for "a-b". *)
Theorem saved_command_is_found_by_its_orchestrator (qc : QcId)
    (s : list (string * StoredRecord)) (v : StoredRecord) (w : World) :
  offlineStorage (orchestrator w) = Some s ->
  Sync.snapshot qc w = Some v ->
  exists s',
    offlineStorage (orchestrator (Sync.storageSave qc w)) = Some s' /\
    (Sync.getKey qc w, v) ∈ s' /\
    v ∈ loadByKeyPrefixAsync (id (orchestrator w) +:+ "-") s' /\
    (forall other : string,
       String.prefix (other +:+ "-") (id (orchestrator w) +:+ "-") = true ->
       v ∈ loadByKeyPrefixAsync (other +:+ "-") s') /\
    trace (Sync.storageSave qc w) = trace w ++ [EvSave (Sync.getKey qc w)].
Proof.
  intros Hs Hv. unfold Sync.storageSave. rewrite Hs, Hv. cbn.
  eexists. split; [done|]. split_and!; [apply saveAsync_elem| | |done].
  - eapply loadByKeyPrefixAsync_elem; [apply saveAsync_elem|apply getKey_prefix].
  - intros other Ho. eapply loadByKeyPrefixAsync_elem; [apply saveAsync_elem|].
    eapply prefix_trans; [exact Ho|apply getKey_prefix].
Qed.

(* ---- recovery ---- *)

Lemma set_add_fresh x s : x ∉ s -> set_add x s = s ++ [x].
Proof. intros H. unfold set_add. by rewrite bool_decide_eq_false_2. Qed.

Lemma stopped_enqueue qc w :
  isRunning (consumer w) = false ->
  enqueue qc w = upd_consumer (fun c => set_queue (set_add qc (queue c)) c) w.
Proof. intros H. unfold enqueue, resumeOnConditionsSatisfied. cbn. by rewrite H. Qed.

(** The body of the [forEach] of [#loadCommandsAsync] on a stopped
    consumer: one more deserialized object, pending and tracked; no
    QueueCommand, UserCommand, execution signal or promise is made. *)
Lemma loadOne_stopped w obj :
  isRunning (consumer w) = false ->
  let queueCommand := (deserializedFrom + length (deserialized w))%nat in
  (forall x, x ∈ pending w -> (x < queueCommand)%nat) ->
  (forall x, x ∈ trackedBy w -> (x < queueCommand)%nat) ->
  let w' := Sync.loadOne w obj in
  deserialized w' = deserialized w ++ [obj] /\
  qcs w' = qcs w /\ ucs w' = ucs w /\ signals w' = signals w /\
  pending w' = pending w ++ [queueCommand] /\
  trackedBy w' = trackedBy w ++ [queueCommand] /\
  patchQueueCommands (orchestrator w')
  = (if isPatch (s_meta obj)
     then <[resourceId (s_meta obj) := queueCommand]> (patchQueueCommands (orchestrator w))
     else patchQueueCommands (orchestrator w)) /\
  sameConfig (consumer w) (consumer w') /\
  processCountOf w' = processCountOf w /\
  trace w' = trace w /\ microtasks w' = microtasks w /\ promises w' = promises w /\
  initialized (orchestrator w') = initialized (orchestrator w) /\
  offlineStorage (orchestrator w') = offlineStorage (orchestrator w) /\
  id (orchestrator w') = id (orchestrator w) /\
  commandConsolidator (orchestrator w') = commandConsolidator (orchestrator w).
Proof.
  intros Hr queueCommand Hp Ht. unfold Sync.loadOne. cbv zeta. fold queueCommand.
  rewrite stopped_enqueue by done.
  assert (H1 : set_add queueCommand (pending w) = pending w ++ [queueCommand]).
  { apply set_add_fresh. intros H%Hp. lia. }
  assert (H2 : set_add queueCommand (trackedBy w) = trackedBy w ++ [queueCommand]).
  { apply set_add_fresh. intros H%Ht. lia. }
  unfold pending, trackedBy in *.
  destruct (isPatch (s_meta obj)); cbn; rewrite ?H1, ?H2; by split_and!.
Qed.

Lemma snapshot_stable qc v w w' :
  (forall i q, qcs w !! i = Some q -> qcs w' !! i = Some q) ->
  (forall i c, ucs w !! i = Some c -> ucs w' !! i = Some c) ->
  Sync.snapshot qc w = Some v -> Sync.snapshot qc w' = Some v.
Proof.
  intros Hq Hu. unfold Sync.snapshot.
  intros (q & Hq1 & (c & Hc & Hv)%bind_Some)%bind_Some.
  rewrite (Hq _ _ Hq1). cbn. rewrite (Hu _ _ Hc). done.
Qed.

(** The [forEach] of [#loadCommandsAsync] on a stopped consumer: one
    deserialized object per record, in the order of the records. *)
Lemma foldl_loadOne_recovers data : forall w,
  isRunning (consumer w) = false ->
  let first := (deserializedFrom + length (deserialized w))%nat in
  (forall x, x ∈ pending w -> (x < first)%nat) ->
  (forall x, x ∈ trackedBy w -> (x < first)%nat) ->
  let w' := foldl Sync.loadOne w data in
  deserialized w' = deserialized w ++ data /\
  qcs w' = qcs w /\ ucs w' = ucs w /\ signals w' = signals w /\
  pending w' = pending w ++ seq first (length data) /\
  trackedBy w' = trackedBy w ++ seq first (length data) /\
  (forall r, patchQueueCommands (orchestrator w') !! r
             = match lastPatchFrom first r data with
               | Some qc => Some qc
               | None => patchQueueCommands (orchestrator w) !! r
               end) /\
  sameConfig (consumer w) (consumer w') /\
  processCountOf w' = processCountOf w /\
  trace w' = trace w /\ microtasks w' = microtasks w /\ promises w' = promises w /\
  initialized (orchestrator w') = initialized (orchestrator w) /\
  offlineStorage (orchestrator w') = offlineStorage (orchestrator w) /\
  id (orchestrator w') = id (orchestrator w) /\
  commandConsolidator (orchestrator w') = commandConsolidator (orchestrator w).
Proof.
  induction data as [|obj data IH]; intros w Hr first Hp Ht.
  - cbn. rewrite !app_nil_r. split_and!; try done.
  - cbn [foldl].
    destruct (loadOne_stopped w obj Hr Hp Ht)
      as (A1 & A2 & A3 & A4 & A5 & A6 & A7 & A8 & A9 & A10 & A11 & A12 & A13 & A14
          & A15 & A16).
    set (w1 := Sync.loadOne w obj) in *. clearbody w1.
    assert (Hl1 : (deserializedFrom + length (deserialized w1))%nat = S first)
      by (rewrite A1, length_app; cbn; subst first; lia).
    destruct (IH w1) as (B1 & B2 & B3 & B4 & B5 & B6 & B7 & B8 & B9 & B10 & B11 & B12
                         & B13 & B14 & B15 & B16).
    + destruct A8 as (_ & _ & _ & ->). done.
    + intros x. rewrite A5, Hl1.
      intros [H%Hp|H%list_elem_of_singleton]%elem_of_app; [lia|subst; lia].
    + intros x. rewrite A6, Hl1.
      intros [H%Ht|H%list_elem_of_singleton]%elem_of_app; [lia|subst; lia].
    + rewrite Hl1 in B5, B6, B7. cbv zeta. split_and!.
      * by rewrite B1, A1, <- app_assoc.
      * by rewrite B2.
      * by rewrite B3.
      * by rewrite B4.
      * rewrite B5, A5. cbn [length seq]. by rewrite <- app_assoc.
      * rewrite B6, A6. cbn [length seq]. by rewrite <- app_assoc.
      * intros r. rewrite B7. cbn [lastPatchFrom].
        destruct (lastPatchFrom (S first) r data); [done|].
        rewrite A7. destruct (isPatch (s_meta obj)); [|done]. cbn.
        case_bool_decide as Hres.
        -- subst r. by rewrite lookup_insert_eq.
        -- by rewrite lookup_insert_ne.
      * eapply sameConfig_trans; [exact A8|exact B8].
      * by rewrite B9.
      * by rewrite B10.
      * by rewrite B11.
      * by rewrite B12.
      * by rewrite B13.
      * by rewrite B14.
      * by rewrite B15.
      * by rewrite B16.
Qed.

(** A deserialized object is found under its number as long as no
    QueueCommand instance has that number. *)
Lemma deserializedAt_lookup (j : nat) d w :
  (length (qcs w) <= deserializedFrom)%nat ->
  deserialized w !! j = Some d ->
  deserializedAt (deserializedFrom + j) w = Some d.
Proof.
  intros Hl Hd. unfold deserializedAt.
  rewrite lookup_ge_None_2 by lia.
  rewrite decide_True by lia.
  by replace (deserializedFrom + j - deserializedFrom)%nat with j by lia.
Qed.

(** What [initializeAsync] does on an idle orchestrator with a store. *)
Lemma initializeAsync_loads (fuel : nat) (s : list (string * StoredRecord)) (w : World) :
  initialized (orchestrator w) = false ->
  microtasks w = [] ->
  isRunning (consumer w) = false ->
  offlineStorage (orchestrator w) = Some s ->
  let prefix := (id (orchestrator w) +:+ "-")%string in
  run (3 + fuel) [InitializeAsync; Tick] w
  = Some (Sync.initResume
            (upd_microtasks (fun _ => [])
               (awaitSettled InitResume
                  (foldl Sync.loadOne
                     (upd_microtasks (fun _ => []) (log (EvLoadByKeyPrefix prefix) w))
                     (loadByKeyPrefixAsync prefix s))))).
Proof.
  intros Hi Hm Hr Hs prefix.
  set (w0 := upd_microtasks (fun _ => []) (log (EvLoadByKeyPrefix prefix) w)).
  set (data := loadByKeyPrefixAsync prefix s).
  destruct (foldl_loadOne_stopped data w0 Hr) as (_ & B11 & _).
  set (w1 := foldl Sync.loadOne w0 data) in *.
  cbn [run perform Nat.add mbind option_bind].
  assert (Hinit : Sync.initializeAsync w
                  = awaitSettled (LoadResume (Some data)) (log (EvLoadByKeyPrefix prefix) w)).
  { unfold Sync.initializeAsync, Sync.loadCommandsAsync. by rewrite Hi, Hs. }
  rewrite Hinit.
  rewrite (drain_cons _ (LoadResume (Some data)) VUndefined [] _ (awaitSettled InitResume w1));
    [|by cbn; rewrite Hm|reflexivity].
  rewrite (drain_cons _ InitResume VUndefined [] _
             (Sync.initResume (upd_microtasks (fun _ => []) (awaitSettled InitResume w1))));
    [|by cbn; rewrite B11|reflexivity].
  by rewrite drain_nil.
Qed.

(** X11.  The first [initializeAsync] of an orchestrator with a store: every
    record under the prefix [id-] becomes a deserialized object with the
    stored type, payload, metadata and queue info, in the order of the
    store; each is enqueued and tracked.  No QueueCommand or UserCommand
    instance, no execution signal and no promise is made.  For each resource
    the patch index names the last patch record of the resource (other
    entries are kept).  The store is read once and not written, and the
    consumer is not started. *)
Theorem initialize_recovers_every_stored_command (fuel : nat)
    (s : list (string * StoredRecord)) (w : World) :
  initialized (orchestrator w) = false ->
  microtasks w = [] ->
  isRunning (consumer w) = false ->
  (length (qcs w) <= deserializedFrom)%nat ->
  let first := (deserializedFrom + length (deserialized w))%nat in
  (forall qc, qc ∈ pending w -> (qc < first)%nat) ->
  (forall qc, qc ∈ trackedBy w -> (qc < first)%nat) ->
  offlineStorage (orchestrator w) = Some s ->
  let data := loadByKeyPrefixAsync (id (orchestrator w) +:+ "-") s in
  exists w',
    run (3 + fuel) [InitializeAsync; Tick] w = Some w' /\
    initialized (orchestrator w') = true /\
    microtasks w' = [] /\
    isRunning (consumer w') = false /\
    pending w' = pending w ++ seq first (length data) /\
    trackedBy w' = trackedBy w ++ seq first (length data) /\
    (forall i obj, data !! i = Some obj -> deserializedAt (first + i) w' = Some obj) /\
    (forall r, patchQueueCommands (orchestrator w') !! r
               = match lastPatchFrom first r data with
                 | Some qc => Some qc
                 | None => patchQueueCommands (orchestrator w) !! r
                 end) /\
    trace w' = trace w ++ [EvLoadByKeyPrefix (id (orchestrator w) +:+ "-")] /\
    qcs w' = qcs w /\ ucs w' = ucs w /\ signals w' = signals w /\
    promises w' = promises w /\
    offlineStorage (orchestrator w') = Some s.
Proof.
  intros Hi Hm Hr Hl first Hp Ht Hs data.
  set (w0 := upd_microtasks (fun _ => [])
               (log (EvLoadByKeyPrefix (id (orchestrator w) +:+ "-")) w)).
  destruct (foldl_loadOne_recovers data w0 Hr Hp Ht)
    as (B1 & B2 & B3 & B4 & B5 & B6 & B7 & B8 & B9 & B10 & B11 & B12 & B13 & B14 & B15 & B16).
  pose proof (initializeAsync_loads fuel s w Hi Hm Hr Hs) as Hrun. cbv zeta in Hrun.
  fold w0 data in Hrun.
  set (w1 := foldl Sync.loadOne w0 data) in *.
  cbn [w0 upd_microtasks log qcs ucs signals trace microtasks promises orchestrator consumer
       deserialized] in B1, B2, B3, B4, B7, B8, B10, B11, B12, B13, B14, B15, B16.
  change (pending w0) with (pending w) in B5.
  change (trackedBy w0) with (trackedBy w) in B6.
  change (deserialized w0) with (deserialized w) in B5, B6.
  change (processCountOf w0) with (processCountOf w) in B9.
  exists (Sync.initResume (upd_microtasks (fun _ => []) (awaitSettled InitResume w1))).
  split; [exact Hrun|].
  clearbody w1. destruct B8 as (_ & _ & _ & B8).
  split_and!; try done.
  - cbn. by rewrite B8.
  - intros i obj Hobj.
    rewrite (deserializedAt_ext _ w1) by done.
    subst first. rewrite <- Nat.add_assoc.
    apply deserializedAt_lookup; [by rewrite B2|].
    rewrite B1. rewrite lookup_app_r by lia.
    by replace (length (deserialized w) + i - length (deserialized w))%nat with i by lia.
  - cbn. by rewrite B14.
Qed.

(* ---- dispose ---- *)


Lemma removeQueueCommandAsync_spec qc w :
  let w' := Sync.removeQueueCommandAsync qc w in
  microtasks w' = microtasks w ++ [(RemoveResume qc, VUndefined)] /\
  qcs w' = qcs w /\ ucs w' = ucs w /\ consumer w' = consumer w /\ promises w' = promises w /\
  queueCommands (orchestrator w') = queueCommands (orchestrator w) /\
  patchQueueCommands (orchestrator w') = patchQueueCommands (orchestrator w) /\
  initialized (orchestrator w') = initialized (orchestrator w) /\
  id (orchestrator w') = id (orchestrator w) /\
  commandConsolidator (orchestrator w') = commandConsolidator (orchestrator w) /\
  offlineStorage (orchestrator w')
  = removeAsync (Sync.getKey qc w) <$> offlineStorage (orchestrator w) /\
  trace w' = trace w ++ match offlineStorage (orchestrator w) with
                        | Some _ => [EvRemove (Sync.getKey qc w)]
                        | None => []
                        end /\
  deserialized w' = deserialized w.
Proof.
  unfold Sync.removeQueueCommandAsync, Sync.storageRemove, awaitSettled.
  destruct (offlineStorage (orchestrator w)) eqn:E; cbn; rewrite ?E, ?app_nil_r; by split_and!.
Qed.







(* ---- patches that are not merged ---- *)

(** [#buildConsolidatedCommand] when there is nothing to merge with: no
    entry for the resource in the patch index, no consolidator, or an
    entry whose queue command is not [Initial] any more. *)
Lemma buildConsolidatedCommand_plain uc c w :
  ucs w !! uc = Some c ->
  patchQueueCommands (orchestrator w) !! resourceId (meta c) = None \/
  commandConsolidator (orchestrator w) = None \/
  (exists existing,
     patchQueueCommands (orchestrator w) !! resourceId (meta c) = Some existing /\
     statusOf existing w <> Some Initial) ->
  Sync.buildConsolidatedCommand uc w
  = (length (qcs w),
     upd_orchestrator
       (fun o => set_patchQueueCommands
                   (<[resourceId (meta c) := length (qcs w)]> (patchQueueCommands o)) o)
       (newQueueCommand uc w).2).
Proof.
  intros Hc Hno. unfold Sync.buildConsolidatedCommand. rewrite Hc. cbv zeta.
  destruct Hno as [->|[Hno|(existing & -> & Hst)]]; [done| |].
  - rewrite Hno. by destruct (patchQueueCommands (orchestrator w) !! resourceId (meta c)).
  - destruct (commandConsolidator (orchestrator w)); [|done].
    unfold statusOf in Hst. destruct (qcs w !! existing) as [q|] eqn:Hq; cbn in *.
    + rewrite (deserializedAt_instance _ _ _ Hq).
      destruct (ucs w !! command q); [|done]. cbn.
      destruct (status (queueInfo q)); done.
    + destruct (deserializedAt existing w) as [d|]; [|done]. cbn in *.
      destruct (status (s_queueInfo d)); done.
Qed.

(** X13.  [#buildConsolidatedCommand] on a patch command whose resource has
    no entry in the patch index, or an entry whose command is no longer
    [Initial], or without consolidator: the result is a new queue command
    with the payload of the user command as it is, which takes the patch
    index entry of the resource; nothing is removed, stored, enqueued or
    queued. *)
Theorem patch_without_pending_predecessor_is_not_merged (uc : UcId) (c : UserCommand)
    (w : World) :
  ucs w !! uc = Some c ->
  patchQueueCommands (orchestrator w) !! resourceId (meta c) = None \/
  commandConsolidator (orchestrator w) = None \/
  (exists existing,
     patchQueueCommands (orchestrator w) !! resourceId (meta c) = Some existing /\
     statusOf existing w <> Some Initial) ->
  let '(queueCommand, w') := Sync.buildConsolidatedCommand uc w in
  queueCommand = length (qcs w) /\
  qcs w' = qcs w ++ [mkQueueCommand uc (mkQueueInfo 0 (now w) Initial)
                       (mkOnComplete None None false VUndefined) []] /\
  payloadOf queueCommand w' = Some (payload c) /\
  patchQueueCommands (orchestrator w')
  = <[resourceId (meta c) := queueCommand]> (patchQueueCommands (orchestrator w)) /\
  ucs w' = ucs w /\ microtasks w' = microtasks w /\ trace w' = trace w /\
  pending w' = pending w /\ trackedBy w' = trackedBy w /\
  offlineStorage (orchestrator w') = offlineStorage (orchestrator w).
Proof.
  intros Hc Hno. rewrite (buildConsolidatedCommand_plain uc c w Hc Hno).
  split_and!; try done.
  unfold payloadOf. cbn. rewrite lookup_snoc. cbn. by rewrite Hc.
Qed.

(** X14.  The removal of a queue command deletes the patch index entry of
    its resource, whichever command that entry names.  A patch command for
    the same resource that is handled next is therefore not merged: it gets
    a queue command of its own, with its own payload, and the entry. *)
Theorem removal_drops_the_patch_entry_of_the_resource (qc uc : nat)
    (m : UserCommandMeta) (c : UserCommand) (w : World) :
  Sync.metaOf qc w = Some m ->
  ucs w !! uc = Some c -> resourceId (meta c) = resourceId m ->
  let w1 := Sync.removeResume qc w in
  patchQueueCommands (orchestrator w1) !! resourceId m = None /\
  (forall r, r <> resourceId m ->
     patchQueueCommands (orchestrator w1) !! r = patchQueueCommands (orchestrator w) !! r) /\
  let '(queueCommand, w2) := Sync.buildConsolidatedCommand uc w1 in
  queueCommand = length (qcs w) /\
  payloadOf queueCommand w2 = Some (payload c) /\
  microtasks w2 = microtasks w /\
  patchQueueCommands (orchestrator w2) !! resourceId m = Some queueCommand.
Proof.
  intros Hm Hc Hres w1.
  assert (Hp1 : patchQueueCommands (orchestrator w1)
                = delete (resourceId m) (patchQueueCommands (orchestrator w))).
  { subst w1. unfold Sync.removeResume. cbn. by rewrite Hm. }
  assert (Hnone : patchQueueCommands (orchestrator w1) !! resourceId m = None)
    by (rewrite Hp1; apply lookup_delete_eq).
  split_and!; [done|intros r Hr; rewrite Hp1; by apply lookup_delete_ne|].
  assert (Hc1 : ucs w1 !! uc = Some c) by done.
  rewrite (buildConsolidatedCommand_plain uc c w1 Hc1) by (left; by rewrite Hres).
  split_and!; try done.
  - unfold payloadOf. cbn. rewrite lookup_snoc. cbn. by rewrite Hc.
  - cbn. rewrite Hres. apply lookup_insert_eq.
Qed.

(* ---- handleCommandAsync, without consolidation ---- *)

(** [handleCommandAsync] of a command that is not a patch for a resource,
    up to its [await]. *)
Lemma handleCommandAsync_direct (fuel : nat) (uc : UcId) (c : UserCommand) (w : World) :
  initialized (orchestrator w) = true ->
  ucs w !! uc = Some c ->
  isPatch (meta c) = false \/ truthy (resourceId (meta c)) = false ->
  let new := length (qcs w) in
  let key := (id (orchestrator w) +:+ "-" +:+ ReferenceId (meta c))%string in
  let record := mkStored (type c) (payload c) (meta c) (mkQueueInfo 0 (now w) Initial) in
  exists wA,
    Sync.handleCommandAsync fuel uc w = Some (Returned, wA) /\
    microtasks wA = microtasks w ++ [(HandleResume new, VUndefined)] /\
    qcs wA = qcs w ++ [mkQueueCommand uc (mkQueueInfo 0 (now w) Initial)
                         (mkOnComplete (Some (length (promises w)))
                                       (Some (length (promises w))) false VUndefined) []] /\
    promises wA = promises w ++ [mkPromise None [OnCompleteThen new]] /\
    consumer wA = consumer w /\
    ucs wA = ucs w /\
    queueCommands (orchestrator wA) = queueCommands (orchestrator w) /\
    patchQueueCommands (orchestrator wA) = patchQueueCommands (orchestrator w) /\
    offlineStorage (orchestrator wA) = saveAsync key record <$> offlineStorage (orchestrator w) /\
    trace wA = trace w ++ match offlineStorage (orchestrator w) with
                          | Some _ => [EvSave key]
                          | None => []
                          end.
Proof.
  intros Hinit Hc Hdirect new key record.
  set (w1 := (newQueueCommand uc w).2).
  assert (Hq1 : qcs w1 !! new = Some (mkQueueCommand uc (mkQueueInfo 0 (now w) Initial)
                                        (mkOnComplete None None false VUndefined) []))
    by apply newQueueCommand_lookup.
  set (w2 := upd_qc new (set_onComplete (mkOnComplete (Some (length (promises w1)))
                                           (Some (length (promises w1))) false VUndefined))
               (upd_promises (fun l => l ++ [mkPromise None []]) w1)).
  set (w3 := upd_promises (fun l => <[length (promises w1) :=
                                        mkPromise None [OnCompleteThen new]]> l) w2).
  exists (awaitSettled (HandleResume new) (Sync.storageSave new w3)).
  split.
  { unfold Sync.handleCommandAsync, Sync.ensureInitialized. rewrite Hinit, Hc. cbn [negb].
    assert (Hd : negb (isPatch (meta c)) || negb (truthy (resourceId (meta c))) = true)
      by (destruct Hdirect as [-> | ->]; [done|apply orb_true_r]).
    rewrite Hd. cbn [mbind option_bind].
    change (newQueueCommand uc w) with (new, w1). cbv iota beta.
    erewrite onComplete_fresh; [|exact Hq1|done]. fold w2.
    erewrite (thenDo_pending _ []); [done|subst w2 w1; cbn; apply lookup_snoc]. }
  assert (Hq3 : qcs w3 = qcs w ++ [mkQueueCommand uc (mkQueueInfo 0 (now w) Initial)
                                     (mkOnComplete (Some (length (promises w)))
                                        (Some (length (promises w))) false VUndefined) []]).
  { subst w3 w2 w1. unfold upd_qc. cbn. subst new. rewrite lookup_snoc.
    unfold set_onComplete. cbn. by rewrite insert_snoc. }
  assert (Hp3 : promises w3 = promises w ++ [mkPromise None [OnCompleteThen new]]).
  { subst w3 w2 w1. unfold upd_qc. cbn. by rewrite insert_snoc. }
  assert (Hm3 : microtasks w3 = microtasks w) by (subst w3 w2 w1; unfold upd_qc; by cbn).
  assert (Hc3 : consumer w3 = consumer w) by (subst w3 w2 w1; unfold upd_qc; by cbn).
  assert (Ho3 : orchestrator w3 = orchestrator w) by (subst w3 w2 w1; unfold upd_qc; by cbn).
  assert (Ht3 : trace w3 = trace w) by (subst w3 w2 w1; unfold upd_qc; by cbn).
  assert (Hu3 : ucs w3 = ucs w) by (subst w3 w2 w1; unfold upd_qc; by cbn).
  clearbody w3. clear w2 w1 Hq1.
  assert (Hsnap : Sync.snapshot new w3 = Some record).
  { unfold Sync.snapshot. rewrite Hq3. subst new. rewrite lookup_snoc. cbn.
    by rewrite Hu3, Hc. }
  assert (Hkey : Sync.getKey new w3 = key).
  { unfold Sync.getKey, Sync.metaOf. rewrite Hq3. subst new. rewrite lookup_snoc. cbn.
    by rewrite Hu3, Hc, Ho3. }
  unfold Sync.storageSave. rewrite Hsnap, Hkey, Ho3.
  destruct (offlineStorage (orchestrator w)) eqn:E; cbn;
    rewrite ?Hm3, ?Hc3, ?Ho3, ?Ht3, ?Hu3, ?E, ?app_nil_r; by split_and!.
Qed.

(** X15.  [handleCommandAsync] of a command that is not a patch of a
    resource, on an initialized orchestrator whose consumer is stopped: one
    new queue command, [Initial] and awaited by the orchestrator, is stored
    under [id-ReferenceId] (when a store is configured), tracked and pending;
    the patch index and the user commands are unchanged and the consumer
    stays stopped. *)
Theorem direct_command_is_saved_tracked_and_queued (fuel : nat) (uc : UcId)
    (c : UserCommand) (w : World) :
  initialized (orchestrator w) = true ->
  ucs w !! uc = Some c ->
  isPatch (meta c) = false \/ truthy (resourceId (meta c)) = false ->
  microtasks w = [] ->
  isRunning (consumer w) = false ->
  let new := length (qcs w) in
  let key := (id (orchestrator w) +:+ "-" +:+ ReferenceId (meta c))%string in
  let record := mkStored (type c) (payload c) (meta c) (mkQueueInfo 0 (now w) Initial) in
  exists w',
    run (2 + fuel) [HandleCommandAsync uc; Tick] w = Some w' /\
    microtasks w' = [] /\
    qcs w' = qcs w ++ [mkQueueCommand uc (mkQueueInfo 0 (now w) Initial)
                         (mkOnComplete (Some (length (promises w)))
                                       (Some (length (promises w))) false VUndefined) []] /\
    promises w' = promises w ++ [mkPromise None [OnCompleteThen new]] /\
    pending w' = set_add new (pending w) /\
    trackedBy w' = set_add new (trackedBy w) /\
    offlineStorage (orchestrator w') = saveAsync key record <$> offlineStorage (orchestrator w) /\
    trace w' = trace w ++ match offlineStorage (orchestrator w) with
                          | Some _ => [EvSave key]
                          | None => []
                          end /\
    patchQueueCommands (orchestrator w') = patchQueueCommands (orchestrator w) /\
    isRunning (consumer w') = false /\
    ucs w' = ucs w.
Proof.
  intros Hinit Hc Hdirect Hm Hr new key record.
  destruct (handleCommandAsync_direct (S (S fuel)) uc c w Hinit Hc Hdirect)
    as (wA & Hhandle & A1 & A2 & A3 & A4 & A5 & A6 & A7 & A8 & A9).
  rewrite Hm in A1. cbn [app] in A1.
  set (wH := Sync.handleResume new (upd_microtasks (fun _ => []) wA)).
  assert (Hstep : runReaction (S (S fuel)) (HandleResume new) VUndefined
                    (upd_microtasks (fun _ => []) wA) = Some wH) by reflexivity.
  assert (HwH : wH = upd_consumer (fun c0 => set_queue (set_add new (queue c0)) c0)
                       (upd_orchestrator
                          (fun o => set_queueCommands (set_add new (queueCommands o)) o)
                          (upd_microtasks (fun _ => []) wA))).
  { subst wH. unfold Sync.handleResume. apply stopped_enqueue. cbn. by rewrite A4. }
  exists wH. split.
  { cbn [run perform Nat.add]. rewrite Hhandle.
    cbn [fmap option_fmap option_map mbind option_bind snd].
    rewrite (drain_cons _ _ _ _ _ _ A1 Hstep).
    rewrite drain_nil; [done|by rewrite HwH]. }
  rewrite HwH. unfold pending, trackedBy. cbn.
  rewrite A2, A3, A4, A5, A6, A7, A8, A9. by split_and!.
Qed.

(* ---- handleCommandAsync of a patch command starts the consumer ---- *)

Lemma buildConsolidatedCommand_frame uc w :
  let w' := (Sync.buildConsolidatedCommand uc w).2 in
  consumer w' = consumer w /\
  (forall i q, qcs w !! i = Some q -> qcs w' !! i = Some q) /\
  (forall i c, ucs w !! i = Some c -> ucs w' !! i = Some c) /\
  filter isConsume (trace w') = filter isConsume (trace w) /\
  initialized (orchestrator w') = initialized (orchestrator w).
Proof.
  unfold Sync.buildConsolidatedCommand.
  destruct (ucs w !! uc) as [c|]; cbn;
    [|split_and!; try done; intros; by apply lookup_app_l_Some].
  match goal with
  | |- context [let '(_, _) := match ?x with _ => _ end in _] => destruct x as [[existing newPayload]|]
  end.
  - unfold Sync.removeQueueCommandAsync, Sync.storageRemove, awaitSettled, newQueueCommand.
    destruct (offlineStorage (orchestrator w)); cbn; rewrite ?filter_app, ?app_nil_r;
      split_and!; try done; intros; by apply lookup_app_l_Some.
  - cbn. split_and!; try done; intros; by apply lookup_app_l_Some.
Qed.

Lemma executions_dispatches (l : list QcId) w t :
  Forall (fun qc => inStore qc w) l ->
  length (filter isConsume (t ++ concat (map (fun qc => dispatchEvents qc w) l)))
  = (length (filter isConsume t) + length l)%nat.
Proof.
  intros Hadm. rewrite filter_app, length_app. f_equal.
  induction Hadm as [|qc l (q & c & Hq & Hc) Hadm IH]; [done|].
  cbn [map concat]. rewrite filter_app, length_app, IH.
  unfold dispatchEvents. rewrite Hq, filter_app, filter_isConsume_notifications. done.
Qed.

Lemma onComplete_frame qc w :
  let w' := (onComplete qc w).2 in
  consumer w' = consumer w /\ trace w' = trace w /\ ucs w' = ucs w /\
  orchestrator w' = orchestrator w /\ microtasks w' = microtasks w /\
  forall qc', statusOf qc' w' = statusOf qc' w.
Proof.
  unfold onComplete, promiseResolve, newPromise.
  destruct (qcs w !! qc) as [q|] eqn:Hq; [|by split_and!].
  destruct (oc_completed (_onComplete q)); [by split_and!|].
  destruct (oc_promise (_onComplete q)); [by split_and!|].
  cbn. split_and!; try done. intros qc'. apply statusOf_frame; [|done].
  unfold upd_qc, upd_qcs. cbn. rewrite Hq.
  destruct (decide (qc' = qc)) as [->|Hne].
  - rewrite list_lookup_insert_eq by (by eapply lookup_lt_Some). by rewrite Hq.
  - by rewrite list_lookup_insert_ne.
Qed.

Lemma thenDo_frame' p k w :
  let w' := thenDo p k w in
  orchestrator w' = orchestrator w /\ forall qc, statusOf qc w' = statusOf qc w.
Proof. unfold thenDo. by repeat case_match. Qed.

Lemma storageSave_frame' qc w :
  let w' := Sync.storageSave qc w in
  filter isConsume (trace w') = filter isConsume (trace w) /\
  initialized (orchestrator w') = initialized (orchestrator w).
Proof.
  unfold Sync.storageSave. repeat case_match; try done. cbn.
  by rewrite filter_app, app_nil_r.
Qed.

(** X16.  [handleCommandAsync] of a patch command calls [stop] and then
    [start] on the consumer, whether it was running or not: on a consumer
    without gating predicate every command that was pending is dispatched
    before [handleCommandAsync] reaches its first [await], and the consumer
    runs afterwards, also when the client had stopped it. *)
Theorem patch_command_starts_the_consumer (fuel : nat) (uc : UcId) (c : UserCommand)
    (w : World) :
  initialized (orchestrator w) = true ->
  ucs w !! uc = Some c ->
  isPatch (meta c) = true -> truthy (resourceId (meta c)) = true ->
  consumeConditions (consumer w) = [] ->
  (forall n c, consumeFunc (consumer w) n c = Returns) ->
  NoDup (pending w) ->
  Forall (fun qc => inStore qc w) (pending w) ->
  (length (pending w) < fuel)%nat ->
  exists w',
    Sync.handleCommandAsync fuel uc w = Some (Returned, w') /\
    isRunning (consumer w') = true /\
    pending w' = [] /\
    (forall qc, qc ∈ pending w -> statusOf qc w' = Some Processing) /\
    executions w' = (executions w + length (pending w))%nat /\
    processCountOf w' = processCountOf w + Z.of_nat (length (pending w)).
Proof.
  intros Hinit Hc Hpatch Htruthy Hcond Hx Hnd Hadm Hfuel.
  destruct (buildConsolidatedCommand_frame uc (stop w)) as (F1 & F2 & F3 & F4 & F5).
  destruct (Sync.buildConsolidatedCommand uc (stop w)) as [new w1] eqn:Hb.
  cbn [snd stop upd_consumer consumer qcs ucs trace orchestrator] in F1, F2, F3, F4, F5.
  assert (Hadm1 : Forall (fun qc => inStore qc w1) (pending w)).
  { eapply Forall_impl; [exact Hadm|]. intros qc (q & c' & Hq & Hc'). exists q, c'. auto. }
  destruct (start_dispatches fuel (pending w) [] w1)
    as (w2 & S1 & S2 & S3 & S4 & S5 & S6 & S7 & S8 & _).
  { by rewrite F1. }
  { intros n c'. rewrite F1. apply Hx. }
  { unfold pending. rewrite F1. cbn. by rewrite app_nil_r. }
  { by rewrite app_nil_r. }
  { exact Hadm1. }
  { intros j _. unfold conditionsAt. rewrite F1. cbn. by rewrite Hcond. }
  { by left. }
  { exact Hfuel. }
  destruct (onComplete_frame new w2) as (O1 & O2 & O3 & O4 & O5 & O6).
  destruct (onComplete new w2) as [p w3] eqn:Ho. cbn [snd] in O1, O2, O3, O4, O5, O6.
  destruct (thenDo_frame p (OnCompleteThen new) w3) as (T1 & T2 & T3 & T4).
  destruct (thenDo_frame' p (OnCompleteThen new) w3) as (T5 & T6).
  set (w4 := thenDo p (OnCompleteThen new) w3) in *.
  destruct (storageSave_frame new w4) as (V1 & V2 & V3 & V4 & V5 & V6).
  destruct (storageSave_frame' new w4) as (V7 & V8).
  exists (awaitSettled (HandleResume new) (Sync.storageSave new w4)). split.
  { unfold Sync.handleCommandAsync, Sync.ensureInitialized.
    rewrite Hinit, Hc, Hpatch, Htruthy. cbn [negb orb]. unfold Sync.consolidateCommand.
    rewrite Hb, S1. cbn [mbind option_bind]. by rewrite Ho. }
  cbn [awaitSettled upd_microtasks consumer].
  assert (Hst : forall qc, statusOf qc (awaitSettled (HandleResume new) (Sync.storageSave new w4))
                           = statusOf qc w2).
  { intros qc. rewrite <- O6, <- T6. apply statusOf_ext; [exact V1|].
    unfold Sync.storageSave. by repeat case_match. }
  split_and!.
  - by rewrite V4, T3, O1.
  - unfold pending. cbn. by rewrite V4, T3, O1.
  - intros qc Hin. rewrite Hst. by apply S6.
  - unfold executions. cbn. rewrite V7, T4, O2, S5.
    rewrite (executions_dispatches _ w1 _ Hadm1). by rewrite F4.
  - unfold processCountOf. cbn. rewrite V4, T3, O1.
    fold (processCountOf w2). rewrite S4. unfold processCountOf. by rewrite F1.
Qed.

(** ** Waking the loop *)

Lemma consumeResume_consumeLoop fuel w :
  isRunning (consumer w) = true -> shouldConsumerWait (consumer w) = false ->
  consumeResume fuel w = consumeLoop (S fuel) w.
Proof. intros Hr Hw. cbn [consumeLoop]. by rewrite Hr, Hw. Qed.

Lemma foldl_set_add (l : list nat) : forall s,
  NoDup (s ++ l) -> foldl (fun s x => set_add x s) s l = s ++ l.
Proof.
  induction l as [|x l IH]; intros s Hnd; cbn; [by rewrite app_nil_r|].
  rewrite set_add_fresh.
  - rewrite IH; rewrite <- app_assoc; done.
  - apply NoDup_app in Hnd as (_ & Hd & _). intros Hin. apply (Hd x Hin). by left.
Qed.

(** [enqueue] on a consumer that is not waiting (stopped, or woken
    already) only adds to the pending set. *)
Lemma enqueue_no_waiter qc w :
  resumeResolver (consumer w) = None ->
  enqueue qc w = upd_consumer (fun c => set_queue (set_add qc (queue c)) c) w.
Proof.
  intros H. unfold enqueue, resumeOnConditionsSatisfied. cbn. rewrite H.
  by destruct (_ && _).
Qed.

Lemma run_enqueues_no_waiter fuel (l : list QcId) : forall w,
  resumeResolver (consumer w) = None ->
  run fuel (map Enqueue l) w
  = Some (upd_consumer (fun c => set_queue (foldl (fun s x => set_add x s) (queue c) l) c) w).
Proof.
  induction l as [|qc l IH]; intros w Hn.
  - cbn. f_equal. unfold upd_consumer, set_queue. by rewrite consumer_eta, world_eta.
  - cbn [map run perform mbind option_bind]. rewrite enqueue_no_waiter by done.
    rewrite IH by done. done.
Qed.

(** The first [enqueue] on a waiting consumer with nothing pending and no
    gating predicate resolves the wait promise. *)
Lemma first_enqueue_wakes qc w :
  waiting w -> pending w = [] -> consumeConditions (consumer w) = [] ->
  let w' := enqueue qc w in
  microtasks w' = microtasks w ++ [(ConsumeResume, VUndefined)] /\
  consumer w' = set_resumeResolver None (set_queue [qc] (consumer w)) /\
  qcs w' = qcs w /\ ucs w' = ucs w /\ trace w' = trace w /\
  orchestrator w' = orchestrator w.
Proof.
  intros (Hrun & p & Hres & Hprom) Hp Hcond.
  unfold enqueue, resumeOnConditionsSatisfied. cbn.
  unfold pending in Hp. rewrite Hrun, Hp, set_add_nil, Hres. cbn.
  unfold conditionsSatisfied. cbn. rewrite Hcond. cbn.
  unfold resolvePromise. cbn. rewrite Hprom. cbn. rewrite Hp, set_add_nil. by split_and!.
Qed.

(** The loop, woken with commands pending, no gating predicate and an
    executor that returns: it dispatches them all, oldest first, and
    suspends again. *)
Lemma woken_loop_dispatches (fuel : nat) (l : list QcId) (w : World) :
  isRunning (consumer w) = true -> consumeConditions (consumer w) = [] ->
  (forall n c, consumeFunc (consumer w) n c = Returns) ->
  pending w = l -> l <> [] -> NoDup l -> Forall (fun qc => inStore qc w) l ->
  (length l <= fuel)%nat ->
  exists w',
    consumeResume fuel w = Some w' /\
    pending w' = [] /\
    trace w' = trace w ++ concat (map (fun qc => dispatchEvents qc w) l) /\
    processCountOf w' = processCountOf w + Z.of_nat (length l) /\
    (forall qc, qc ∈ l -> statusOf qc w' = Some Processing) /\
    (forall qc, qc ∉ l -> qcs w' !! qc = qcs w !! qc) /\
    ucs w' = ucs w /\ orchestrator w' = orchestrator w /\
    waiting w' /\
    (forall qc, qc ∈ l -> qcs w' !! qc = set_status Processing <$> qcs w !! qc) /\
    deserialized w' = deserialized w.
Proof.
  intros Hrun Hcond Hx Hp Hne Hnd Hadm Hfuel.
  destruct (consumeLoop_dispatches_front l [] (S (fuel - length l)) w)
    as (w3 & L1 & L2 & L3 & L4 & L5 & L6 & L7 & L8 & L9).
  { exact Hrun. }
  { exact Hx. }
  { by rewrite app_nil_r. }
  { by rewrite app_nil_r. }
  { exact Hadm. }
  { intros j _. unfold conditionsAt. by rewrite Hcond. }
  destruct (consumeLoop_waits (fuel - length l) w3)
    as (w' & W1 & W2 & W3 & W4 & W5 & W6 & W7 & W8 & W9).
  { by rewrite L2. }
  { rewrite shouldConsumerWait_spec, L2. done. }
  exists w'. split_and!.
  - rewrite consumeResume_consumeLoop.
    + replace (S fuel) with (length l + S (fuel - length l))%nat by lia. by rewrite L1.
    + exact Hrun.
    + rewrite shouldConsumerWait_spec. unfold conditionsSatisfied, pending in *.
      rewrite Hp, Hcond. by destruct l.
  - unfold pending. by rewrite W2, L2.
  - by rewrite W6, L4.
  - unfold processCountOf. by rewrite W2, L2.
  - intros qc Hin. rewrite (statusOf_ext _ _ _ W4 W9). by apply L5.
  - intros qc Hin. rewrite W4. by apply L6.
  - by rewrite W5, L3.
  - by rewrite W8, L7.
  - split; [by rewrite W2, L2|]. exists (length (promises w3)). split.
    + by rewrite W2.
    + rewrite W3. apply lookup_snoc.
  - intros qc Hin. rewrite W4. by apply L8.
  - by rewrite W9, L9.
Qed.

(** X17.  [enqueue] on a running consumer whose loop waits with nothing
    pending and no gating predicate: the first [enqueue] queues the wake-up
    of the loop and nothing is dispatched yet; further calls before the loop
    runs only add to the pending set.  The loop then dispatches all of them
    in one run, oldest first, and waits again. *)
Theorem enqueue_wakes_the_waiting_loop (fuel : nat) (qc : QcId) (more : list QcId)
    (w : World) :
  waiting w -> pending w = [] -> microtasks w = [] ->
  consumeConditions (consumer w) = [] ->
  (forall n c, consumeFunc (consumer w) n c = Returns) ->
  NoDup (qc :: more) ->
  Forall (fun qc => inStore qc w) (qc :: more) ->
  (S (length more) < fuel)%nat ->
  exists w1 w',
    run fuel (map Enqueue (qc :: more)) w = Some w1 /\
    microtasks w1 = [(ConsumeResume, VUndefined)] /\
    pending w1 = qc :: more /\ trace w1 = trace w /\
    run fuel [Microtask] w1 = Some w' /\
    pending w' = [] /\
    trace w' = trace w ++ concat (map (fun qc => dispatchEvents qc w) (qc :: more)) /\
    processCountOf w' = processCountOf w + Z.of_nat (S (length more)) /\
    (forall qc', qc' ∈ qc :: more -> statusOf qc' w' = Some Processing) /\
    waiting w'.
Proof.
  intros Hwait Hp Hm Hcond Hx Hnd Hadm Hfuel.
  destruct (first_enqueue_wakes qc w Hwait Hp Hcond) as (E1 & E2 & E3 & E4 & E5 & E6).
  set (w0 := enqueue qc w) in *.
  set (w1 := upd_consumer (fun c => set_queue (foldl (fun s x => set_add x s) (queue c) more) c)
               w0).
  assert (Hrun1 : run fuel (map Enqueue (qc :: more)) w = Some w1).
  { cbn [map run perform mbind option_bind]. fold w0.
    rewrite run_enqueues_no_waiter; [done|by rewrite E2]. }
  assert (Hq1 : queue (consumer w1) = qc :: more).
  { subst w1. cbn. rewrite E2. cbn. by rewrite (foldl_set_add more [qc]). }
  assert (Hm1 : microtasks w1 = [(ConsumeResume, VUndefined)])
    by (subst w1; cbn; by rewrite E1, Hm).
  set (w2 := upd_microtasks (fun _ => []) w1).
  destruct Hwait as (Hrun & _).
  assert (Hc2 : consumer w2 = set_queue (qc :: more) (set_resumeResolver None (consumer w))).
  { subst w2. cbn. rewrite <- Hq1. subst w1. cbn. rewrite E2. done. }
  destruct (woken_loop_dispatches fuel (qc :: more) w2)
    as (w' & V1 & V2 & V3 & V4 & V5 & V6 & V7 & V8 & V9 & _).
  { by rewrite Hc2. }
  { by rewrite Hc2. }
  { intros n c. rewrite Hc2. apply Hx. }
  { unfold pending. by rewrite Hc2. }
  { done. }
  { exact Hnd. }
  { eapply Forall_impl; [exact Hadm|]. intros x (q & c & Hq & Hc). exists q, c.
    subst w2 w1. cbn. by rewrite E3, E4. }
  { cbn [length]. lia. }
  assert (Ht2 : trace w2 = trace w) by (subst w2 w1; cbn; exact E5).
  assert (Hq2 : qcs w2 = qcs w) by (subst w2 w1; cbn; exact E3).
  exists w1, w'. split_and!.
  - exact Hrun1.
  - exact Hm1.
  - exact Hq1.
  - exact Ht2.
  - cbn [run perform mbind option_bind]. unfold runMicrotask. rewrite Hm1.
    fold w2. cbn [runReaction]. by rewrite V1.
  - exact V2.
  - rewrite V3, Ht2. do 2 f_equal. apply map_ext. intros x.
    apply dispatchEvents_ext. by rewrite Hq2.
  - rewrite V4. unfold processCountOf. by rewrite Hc2.
  - exact V5.
  - exact V9.
Qed.

(** ** Reports of the executor *)

Lemma promises_onStatusUpdate qc s w : promises (onStatusUpdate qc s w) = promises w.
Proof.
  unfold onStatusUpdate. destruct (qcs w !! qc) as [q|]; [|done].
  generalize (_onStatusUpdateListeners q). intros ls. revert w.
  induction ls as [|l ls IH]; intros w; cbn; [done|]. by rewrite IH.
Qed.

Lemma signals_onStatusUpdate qc s w : signals (onStatusUpdate qc s w) = signals w.
Proof.
  unfold onStatusUpdate. destruct (qcs w !! qc) as [q|]; [|done].
  generalize (_onStatusUpdateListeners q). intros ls. revert w.
  induction ls as [|l ls IH]; intros w; cbn; [done|]. by rewrite IH.
Qed.

(** A dispatch with an executor that returns leaves the promise table,
    the execution signals and the microtask queue as the subscription to
    the execution signal made them. *)
Lemma dispatch_promises qc q c w :
  qcs w !! qc = Some q -> ucs w !! command q = Some c ->
  consumeFunc (consumer w) (executions w) c = Returns ->
  let w' := processCommand (Some qc) w in
  let w2 := thenDo (onExecute (command q) w).1 (OnExecuteThen qc) (onExecute (command q) w).2 in
  promises w' = promises w2 /\ signals w' = signals w2 /\ microtasks w' = microtasks w2.
Proof.
  intros Hq Hc Hx. unfold processCommand. cbn [mbind option_bind]. rewrite Hq.
  cbn [mbind option_bind]. rewrite Hc. cbn [mbind option_bind].
  destruct (onExecute_frame (command q) w) as (A1 & A2 & A3 & A4).
  destruct (onExecute (command q) w) as [p w1]. cbn [fst snd] in *.
  destruct (thenDo_frame p (OnExecuteThen qc) w1) as (B1 & B2 & B3 & B4).
  set (w2 := thenDo p (OnExecuteThen qc) w1) in *. cbv zeta.
  assert (Hq2 : qcs w2 !! qc = Some q) by (by rewrite B1, A1).
  set (w4 := onStatusUpdate qc Processing (upd_qc qc (set_status Processing) w2)).
  assert (Ht4 : trace w4 = trace w ++ notifications qc Processing w).
  { subst w4. rewrite trace_onStatusUpdate.
    change (trace (upd_qc qc (set_status Processing) w2)) with (trace w2).
    rewrite B4, A4. f_equal. unfold notifications, listenersOf.
    erewrite qcs_upd_qc_eq by exact Hq2. by rewrite Hq. }
  assert (Hc4 : consumer w4 = consumer w).
  { subst w4. rewrite consumer_onStatusUpdate.
    change (consumer (upd_qc qc (set_status Processing) w2)) with (consumer w2).
    by rewrite B3, A3. }
  assert (Hx4 : consumeFunc (consumer (incrProcessCount w4)) (executions (incrProcessCount w4)) c
                = Returns).
  { unfold executions. cbn. rewrite Ht4, Hc4, executions_notifications. exact Hx. }
  rewrite Hx4. cbn [log incrProcessCount upd_consumer promises signals microtasks]. subst w4.
  rewrite promises_onStatusUpdate, signals_onStatusUpdate, microtasks_onStatusUpdate.
  done.
Qed.

(** X18.  The first dispatch of a command, by an executor that returns, and
    the report through [executed(success)]: after the report the command is
    still [Processing] and counted, and one reaction is queued; that reaction
    gives the slot back ([processCount] as before the dispatch) and moves the
    command to [Complete] or to [Initial], to [Complete] on success.  No
    other command changes status and the execution signal has resolved. *)
Theorem first_report_completes_the_dispatch (fuel : nat) (qc : QcId) (q : QueueCommand)
    (c : UserCommand) (success : bool) (w : World) :
  qcs w !! qc = Some q -> ucs w !! command q = Some c ->
  signals w !! _onExecute c = Some (mkOnExecute None None false VUndefined) ->
  consumeFunc (consumer w) (executions w) c = Returns ->
  microtasks w = [] ->
  let w1 := processCommand (Some qc) w in
  exists w2 w',
    run fuel [Executed (command q) success] w1 = Some w2 /\
    microtasks w2 = [(OnExecuteThen qc, VBool success)] /\
    statusOf qc w2 = Some Processing /\
    processCountOf w2 = processCountOf w + 1 /\
    run fuel [Microtask] w2 = Some w' /\
    processCountOf w' = processCountOf w /\
    (statusOf qc w' = Some Complete \/ statusOf qc w' = Some Initial) /\
    (success = true -> statusOf qc w' = Some Complete) /\
    (forall qc', qc' <> qc -> statusOf qc' w' = statusOf qc' w) /\
    stale (command q) (VBool success) w'.
Proof.
  intros Hq Hc Hs Hx Hm w1.
  destruct (dispatch_step qc q c w Hq Hc Hx) as (D1 & D2 & D3 & D4).
  destruct (processCommand_dispatch qc q c w Hq Hc) as (w6 & E & _ & _ & Hu & _).
  rewrite Hx in E. fold w1 in E, D1, D2, D3, D4. rewrite <- E in Hu. clear E w6.
  destruct (dispatch_promises qc q c w Hq Hc Hx) as (P1 & P2 & P3). fold w1 in P1, P2, P3.
  assert (Ho : onExecute (command q) w
               = (length (promises w),
                  upd_signals (fun l => <[_onExecute c :=
                                  mkOnExecute (Some (length (promises w)))
                                              (Some (length (promises w))) false VUndefined]> l)
                    (upd_promises (fun l => l ++ [mkPromise None []]) w))).
  { unfold onExecute. rewrite Hc. cbn. by rewrite Hs. }
  rewrite Ho in P1, P2, P3. cbn [fst snd] in P1, P2, P3.
  unfold thenDo in P1, P2, P3. cbn in P1, P2, P3. rewrite lookup_snoc in P1, P2, P3.
  cbn in P1, P2, P3. rewrite insert_snoc in P1. rewrite Hm in P3.
  set (p := length (promises w)) in *.
  assert (Hs1 : signals w1 !! _onExecute c
                = Some (mkOnExecute (Some p) (Some p) false VUndefined)).
  { rewrite P2. apply list_lookup_insert_eq. by eapply lookup_lt_Some. }
  assert (Hp1 : promises w1 !! p = Some (mkPromise None [OnExecuteThen qc])).
  { rewrite P1. apply lookup_snoc. }
  pose proof (replaces_lookup _ _ _ _ (lookup_lt_Some _ _ _ Hq) D1) as Hq1.
  set (w2 := executed (command q) success w1).
  assert (Hw2 : w2 = upd_signals (fun l => <[_onExecute c :=
                                     mkOnExecute None None true (VBool success)]> l)
                       (upd_microtasks (fun q0 => q0 ++ [(OnExecuteThen qc, VBool success)])
                          (upd_promises (fun l => <[p := mkPromise (Some (VBool success)) []]> l)
                             w1))).
  { subst w2. unfold executed. rewrite Hu, Hc, Hs1. cbn.
    unfold resolvePromise. by rewrite Hp1. }
  assert (Hst2 : stale (command q) (VBool success) w2).
  { eapply executed_outstanding; [by rewrite Hu|exact Hs1|done]. }
  set (w3 := upd_microtasks (fun _ => []) w2).
  assert (Hq3 : qcs w3 !! qc = Some (set_status Processing q)) by (subst w3; by rewrite Hw2).
  destruct (completion_step qc _ success w3 Hq3) as (q' & C1 & C2 & C3 & C4).
  set (w' := completedCommandExecution qc success w3) in *.
  exists w2, w'. split_and!.
  - done.
  - rewrite Hw2. cbn. by rewrite P3.
  - erewrite statusOf_instance; [|rewrite Hw2; cbn; exact Hq1]. done.
  - rewrite Hw2. unfold processCountOf. cbn. exact D2.
  - cbn [run perform mbind option_bind]. unfold runMicrotask.
    assert (Hm2 : microtasks w2 = [(OnExecuteThen qc, VBool success)])
      by (rewrite Hw2; cbn; by rewrite P3).
    rewrite Hm2. fold w3. done.
  - rewrite C4. subst w3. rewrite Hw2. unfold processCountOf in *. cbn. rewrite D2. lia.
  - erewrite statusOf_instance;
      [|exact (replaces_lookup _ _ _ _ (lookup_lt_Some _ _ _ Hq3) C1)]. cbn.
    destruct C2 as [-> | ->]; auto.
  - intros ->. erewrite statusOf_instance;
      [|exact (replaces_lookup _ _ _ _ (lookup_lt_Some _ _ _ Hq3) C1)]. cbn. by rewrite C3.
  - intros qc' Hne. rewrite (replaces_others _ _ _ _ _ Hne C1)
      by (by eapply deserialized_completedCommandExecution).
    apply statusOf_frame.
    + subst w3. rewrite Hw2. cbn. by rewrite (replaces_lookup_ne _ _ _ _ _ Hne D1).
    + subst w3. rewrite Hw2. cbn. by eapply deserialized_dispatch.
  - eapply extends_stale; [apply extends_completedCommandExecution|].
    subst w3. exact Hst2.
Qed.

Lemma resume_nothing_to_do w :
  pending w = [] \/ isRunning (consumer w) = false -> resumeOnConditionsSatisfied w = w.
Proof.
  unfold resumeOnConditionsSatisfied, pending. intros [-> | ->]; [|done].
  by rewrite andb_false_r.
Qed.

(** X19.  When the consumer completes, with success, a command that the
    orchestrator awaits, the orchestrator forgets it: the command is
    [Complete] with the result [true], it is no longer tracked nor pending,
    the patch index entry of its resource is deleted and its record is
    removed from the store. *)
Theorem completed_command_is_forgotten (fuel : nat) (qc : QcId) (q : QueueCommand)
    (p : PromiseId) (m : UserCommandMeta) (w : World) :
  qcs w !! qc = Some q ->
  oc_resolve (_onComplete q) = Some p ->
  promises w !! p = Some (mkPromise None [OnCompleteThen qc]) ->
  Sync.metaOf qc w = Some m ->
  microtasks w = [] ->
  pending w = [] \/ isRunning (consumer w) = false ->
  exists w',
    run (3 + fuel) [CompletedCommandExecution qc true; Tick] w = Some w' /\
    microtasks w' = [] /\
    statusOf qc w' = Some Complete /\
    completionResult qc w' = Some (VBool true) /\
    processCountOf w' = processCountOf w - 1 /\
    trackedBy w' = set_delete qc (trackedBy w) /\
    pending w' = set_delete qc (pending w) /\
    patchQueueCommands (orchestrator w')
    = delete (resourceId m) (patchQueueCommands (orchestrator w)) /\
    offlineStorage (orchestrator w')
    = removeAsync (Sync.getKey qc w) <$> offlineStorage (orchestrator w) /\
    trace w' = trace w ++ match offlineStorage (orchestrator w) with
                          | Some _ => [EvRemove (Sync.getKey qc w)]
                          | None => []
                          end.
Proof.
  intros Hq Ho Hp Hmeta Hm Hidle.
  set (w1 := upd_qc qc (set_status Complete) w).
  assert (Hq1 : qcs w1 !! qc = Some (set_status Complete q)) by (by apply qcs_upd_qc_eq).
  assert (Hp1 : promises w1 !! p = Some (mkPromise None [OnCompleteThen qc])) by done.
  destruct (completed_outstanding qc true w1 _ p _ Hq1 Ho Hp1) as (C1 & C2 & C3).
  set (w2 := completed qc true w1) in *.
  assert (Hq2 : qcs w2 = <[qc := set_onComplete (mkOnComplete None None true (VBool true))
                                   (set_status Complete q)]> (qcs w)).
  { subst w2. unfold completed. rewrite Hq1. cbn [set_status _onComplete]. rewrite Ho.
    unfold upd_qc, upd_qcs. cbn. rewrite qcs_resolvePromise, Hq1.
    subst w1. unfold upd_qc, upd_qcs. cbn. rewrite Hq. cbn.
    by rewrite list_insert_insert_eq. }
  assert (Hfr : consumer w2 = consumer w /\ ucs w2 = ucs w /\ trace w2 = trace w /\
                orchestrator w2 = orchestrator w).
  { subst w2. rewrite consumer_completed, ucs_completed, trace_completed.
    split_and!; try done.
    unfold completed. rewrite Hq1. cbn [set_status _onComplete]. rewrite Ho.
    unfold resolvePromise. rewrite Hp1. done. }
  destruct Hfr as (F1 & F2 & F3 & F4).
  cbn [w1 upd_qc microtasks] in C2. change (microtasks w1) with (microtasks w) in C2.
  rewrite Hm in C2. cbn in C2.
  set (w3 := decrProcessCount w2).
  assert (Hcce : completedCommandExecution qc true w = w3).
  { rewrite (completedCommandExecution_instance _ _ _ _ Hq). fold w1. fold w2. fold w3.
    apply resume_nothing_to_do. unfold pending in *. subst w3. cbn. by rewrite F1. }
  assert (Hm3 : microtasks w3 = [(OnCompleteThen qc, VBool true)]) by exact C2.
  set (w4 := Sync.removeQueueCommandAsync qc (upd_microtasks (fun _ => []) w3)).
  destruct (removeQueueCommandAsync_spec qc (upd_microtasks (fun _ => []) w3))
    as (A1 & A2 & A3 & A4 & A5 & A6 & A7 & A8 & A9 & A10 & A11 & A12 & _).
  fold w4 in A1, A2, A3, A4, A5, A6, A7, A8, A9, A10, A11, A12.
  cbn [upd_microtasks w3 decrProcessCount upd_consumer microtasks qcs ucs consumer promises
       orchestrator trace app] in A1, A2, A3, A4, A5, A6, A7, A8, A9, A10, A11, A12.
  assert (Hk : Sync.getKey qc (upd_microtasks (fun _ => []) w3) = Sync.getKey qc w).
  { unfold Sync.getKey. rewrite (deserializedAt_instance qc w q Hq).
    erewrite (deserializedAt_instance qc (upd_microtasks _ w3));
      [|cbn; rewrite Hq2; apply list_lookup_insert_eq; by eapply lookup_lt_Some].
    unfold Sync.metaOf. cbn. rewrite Hq2, F2, F4.
    rewrite list_lookup_insert_eq by (by eapply lookup_lt_Some). by rewrite Hq. }
  assert (Hmeta4 : Sync.metaOf qc w4 = Some m).
  { unfold Sync.metaOf in *. rewrite A2, A3, Hq2, F2.
    rewrite list_lookup_insert_eq by (by eapply lookup_lt_Some). by rewrite Hq in Hmeta. }
  rewrite Hk, F4 in A11, A12. rewrite F3 in A12. rewrite F4 in A6, A7.
  assert (S1 : runReaction (S (S (S fuel))) (OnCompleteThen qc) (VBool true)
                 (upd_microtasks (fun _ => []) w3) = Some w4) by reflexivity.
  clearbody w4.
  set (w5 := Sync.removeResume qc (upd_microtasks (fun _ => []) w4)).
  assert (S2 : runReaction (S (S fuel)) (RemoveResume qc) VUndefined
                 (upd_microtasks (fun _ => []) w4) = Some w5) by reflexivity.
  exists w5. split.
  { cbn [run perform Nat.add mbind option_bind]. rewrite Hcce.
    rewrite (drain_cons _ _ _ _ _ _ Hm3 S1).
    rewrite (drain_cons _ _ _ _ _ _ A1 S2).
    by rewrite drain_nil. }
  assert (Hq5 : qcs w5 !! qc = Some (set_onComplete (mkOnComplete None None true (VBool true))
                                       (set_status Complete q))).
  { subst w5. cbn. rewrite A2, Hq2. apply list_lookup_insert_eq. by eapply lookup_lt_Some. }
  split_and!.
  - done.
  - by rewrite (statusOf_instance _ _ _ Hq5).
  - unfold completionResult. by rewrite Hq5.
  - subst w5. unfold processCountOf. cbn. rewrite A4. cbn. by rewrite F1.
  - subst w5. unfold trackedBy. cbn. by rewrite A6.
  - subst w5. unfold pending. cbn. rewrite A4. cbn. by rewrite F1.
  - subst w5. unfold Sync.removeResume. cbn.
    change (Sync.metaOf qc (upd_microtasks (fun _ => []) w4)) with (Sync.metaOf qc w4).
    rewrite Hmeta4. cbn. by rewrite A7.
  - subst w5. cbn. exact A11.
  - subst w5. cbn. exact A12.
Qed.

(** ** The orchestrator on a running consumer *)

(** X20.  A consumer that runs at most [cap] commands at a time, with [cap]
    of them running, commands pending and the loop waiting: the completion
    of one command wakes the loop, which dispatches the oldest pending
    command and no other, and waits again; [processCount] is back at
    [cap]. *)
Theorem completion_frees_a_slot_for_the_oldest_pending (fuel : nat) (cap : Z)
    (qc next : QcId) (rest : list QcId) (q : QueueCommand) (w : World) :
  waiting w -> microtasks w = [] ->
  consumeConditions (consumer w) = [processCountBelow cap] ->
  (forall n c, consumeFunc (consumer w) n c = Returns) ->
  processCountOf w = cap ->
  pending w = next :: rest -> NoDup (next :: rest) -> inStore next w ->
  qcs w !! qc = Some q -> oc_resolve (_onComplete q) = None -> qc <> next ->
  (1 < fuel)%nat ->
  exists w1 w',
    run fuel [CompletedCommandExecution qc true] w = Some w1 /\
    microtasks w1 = [(ConsumeResume, VUndefined)] /\
    processCountOf w1 = cap - 1 /\
    run fuel [Microtask] w1 = Some w' /\
    statusOf qc w' = Some Complete /\
    statusOf next w' = Some Processing /\
    pending w' = rest /\
    processCountOf w' = cap /\
    trace w' = trace w ++ dispatchEvents next w /\
    waiting w'.
Proof.
  intros (Hrun & p & Hres & Hprom) Hm Hcond Hx Hpc Hp Hnd Hadm Hq Hoc Hne Hfuel.
  set (wc := upd_qc qc (set_status Complete) w).
  assert (Hqc : qcs wc !! qc = Some (set_status Complete q)) by (by apply qcs_upd_qc_eq).
  assert (Hcompl : completed qc true wc = wc) by (by eapply completed_again).
  set (wd := decrProcessCount wc).
  set (w1 := upd_consumer (set_resumeResolver None)
               (upd_microtasks (fun q0 => q0 ++ [(ConsumeResume, VUndefined)])
                  (upd_promises (fun l => <[p := mkPromise (Some VUndefined) []]> l) wd))).
  assert (Hcce : completedCommandExecution qc true w = w1).
  { rewrite (completedCommandExecution_instance _ _ _ _ Hq). fold wc. rewrite Hcompl. fold wd.
    unfold resumeOnConditionsSatisfied. unfold pending in Hp. subst w1 wd wc.
    unfold upd_qc. cbn.
    rewrite Hrun, Hp, Hres. cbn. unfold conditionsSatisfied. cbn. rewrite Hcond. cbn.
    unfold processCountOf in Hpc. rewrite Hpc. unfold processCountBelow. cbn.
    assert (Hlt : (cap - 1 <? cap) = true) by (apply Z.ltb_lt; lia). rewrite Hlt. cbn.
    unfold resolvePromise. cbn. by rewrite Hprom. }
  exists w1.
  set (w2 := upd_microtasks (fun _ => []) w1).
  assert (Hc2 : consumer w2 = set_resumeResolver None (set_processCount (cap - 1) (consumer w))).
  { subst w2 w1 wd wc. unfold upd_qc. cbn. unfold processCountOf in Hpc. by rewrite Hpc. }
  assert (Hq2 : qcs w2 = <[qc := set_status Complete q]> (qcs w)).
  { subst w2 w1 wd wc. unfold upd_qc, upd_qcs. cbn. by rewrite Hq. }
  assert (Hpc2 : processCountOf w2 = cap - 1) by (unfold processCountOf; by rewrite Hc2).
  assert (Ht2 : trace w2 = trace w) by (subst w2 w1 wd wc; by unfold upd_qc).
  assert (Hu2 : ucs w2 = ucs w) by (subst w2 w1 wd wc; by unfold upd_qc).
  assert (Hw2 : upd_microtasks (fun _ => []) w1 = w2) by done.
  clearbody w2.
  destruct Hadm as (qn & cn & Hqn & Hcn).
  destruct (consumeLoop_dispatches_front [next] rest (S (fuel - 1)) w2)
    as (w3 & L1 & L2 & L3 & L4 & L5 & L6 & L7 & _ & L9).
  { by rewrite Hc2. }
  { intros n c. rewrite Hc2. apply Hx. }
  { unfold pending in *. by rewrite Hc2. }
  { exact Hnd. }
  { constructor; [|constructor]. exists qn, cn. split; [|by rewrite Hu2].
    rewrite Hq2. by rewrite list_lookup_insert_ne. }
  { intros j Hj. cbn in Hj. assert (j = 0%nat) as -> by lia.
    rewrite Hpc2. unfold conditionsAt. rewrite Hc2. cbn. rewrite Hcond. cbn.
    unfold processCountBelow. cbn. rewrite andb_true_r. apply Z.ltb_lt. lia. }
  destruct (consumeLoop_waits (fuel - 1) w3)
    as (w' & W1 & W2 & W3 & W4 & W5 & W6 & W7 & _ & W9).
  { by rewrite L2, Hc2. }
  { rewrite shouldConsumerWait_spec, L2. cbn. apply orb_true_iff. right.
    unfold conditionsSatisfied. cbn. rewrite Hc2. cbn. rewrite Hcond. cbn.
    rewrite Hpc2. unfold processCountBelow. cbn. rewrite andb_true_r.
    apply negb_true_iff, Z.ltb_ge. lia. }
  assert (Hres2 : consumeResume fuel w2 = Some w').
  { rewrite consumeResume_consumeLoop.
    - replace (S fuel) with (length [next] + S (fuel - 1))%nat by (cbn [length]; lia).
      by rewrite L1.
    - by rewrite Hc2.
    - rewrite shouldConsumerWait_spec, Hc2. cbn. unfold pending in Hp. rewrite Hp. cbn.
      unfold conditionsSatisfied. cbn. rewrite Hcond. cbn. unfold processCountBelow. cbn.
      assert (Hlt : (cap - 1 <? cap) = true) by (apply Z.ltb_lt; lia). by rewrite Hlt. }
  exists w'.
  assert (Hm1 : microtasks w1 = [(ConsumeResume, VUndefined)])
    by (subst w1 wd wc; unfold upd_qc; cbn; by rewrite Hm).
  split_and!.
  - cbn [run perform mbind option_bind]. by rewrite Hcce.
  - exact Hm1.
  - subst w2 w1 wd wc. unfold processCountOf in *. unfold upd_qc. cbn. by rewrite Hpc.
  - cbn [run perform mbind option_bind]. unfold runMicrotask. rewrite Hm1.
    rewrite Hw2. cbn [runReaction]. by rewrite Hres2.
  - erewrite statusOf_instance;
      [|rewrite W4, L6, Hq2;
        [apply list_lookup_insert_eq; by eapply lookup_lt_Some
        |by intros ->%list_elem_of_singleton]]. done.
  - rewrite (statusOf_ext _ _ _ W4 W9). apply L5. by left.
  - unfold pending. by rewrite W2, L2.
  - unfold processCountOf. rewrite W2, L2. cbn. rewrite Hpc2. lia.
  - rewrite W6, L4, Ht2. cbn [map concat]. rewrite app_nil_r. f_equal.
    apply dispatchEvents_ext. rewrite Hq2. by rewrite list_lookup_insert_ne.
  - split; [by rewrite W2, L2, Hc2|]. exists (length (promises w3)). split.
    + by rewrite W2.
    + rewrite W3. apply lookup_snoc.
Qed.

(** X21.  [handleCommandAsync] of a command that is not a patch of a
    resource, on an initialized orchestrator whose consumer runs and waits:
    the command is stored and tracked, and two microtasks later the loop has
    dispatched it; the executor is called once, after the save, and the loop
    waits again. *)
Theorem handled_command_is_dispatched_by_the_waiting_loop (fuel : nat) (uc : UcId)
    (c : UserCommand) (w : World) :
  initialized (orchestrator w) = true ->
  ucs w !! uc = Some c ->
  isPatch (meta c) = false \/ truthy (resourceId (meta c)) = false ->
  microtasks w = [] ->
  waiting w -> pending w = [] ->
  consumeConditions (consumer w) = [] ->
  (forall n c, consumeFunc (consumer w) n c = Returns) ->
  (0 < fuel)%nat ->
  let new := length (qcs w) in
  let key := (id (orchestrator w) +:+ "-" +:+ ReferenceId (meta c))%string in
  let record := mkStored (type c) (payload c) (meta c) (mkQueueInfo 0 (now w) Initial) in
  exists w',
    run fuel [HandleCommandAsync uc; Microtask; Microtask] w = Some w' /\
    statusOf new w' = Some Processing /\
    payloadOf new w' = Some (payload c) /\
    pending w' = [] /\
    processCountOf w' = processCountOf w + 1 /\
    trackedBy w' = set_add new (trackedBy w) /\
    offlineStorage (orchestrator w') = saveAsync key record <$> offlineStorage (orchestrator w) /\
    trace w' = trace w ++ match offlineStorage (orchestrator w) with
                          | Some _ => [EvSave key]
                          | None => []
                          end ++ [EvConsume uc] /\
    waiting w'.
Proof.
  intros Hinit Hc Hdirect Hm Hwait Hp Hcond Hx Hfuel new key record.
  destruct (handleCommandAsync_direct fuel uc c w Hinit Hc Hdirect)
    as (wA & Hhandle & A1 & A2 & A3 & A4 & A5 & A6 & A7 & A8 & A9).
  fold new in A1, A2, A3. rewrite Hm in A1. cbn [app] in A1.
  (* the continuation of handleCommandAsync *)
  set (wT := upd_orchestrator (fun o => set_queueCommands (set_add new (queueCommands o)) o)
               (upd_microtasks (fun _ => []) wA)).
  assert (HwaitT : waiting wT).
  { destruct Hwait as (Hrun & p & Hres & Hprom). split; [by subst wT; cbn; rewrite A4|].
    exists p. subst wT. cbn. rewrite A4, A3. split; [done|]. by apply lookup_app_l_Some. }
  assert (HpT : pending wT = []) by (subst wT; unfold pending in *; cbn; by rewrite A4).
  assert (HcT : consumeConditions (consumer wT) = []) by (subst wT; cbn; by rewrite A4).
  destruct (first_enqueue_wakes new wT HwaitT HpT HcT) as (E1 & E2 & E3 & E4 & E5 & E6).
  set (w1 := enqueue new wT) in *.
  assert (Hstep1 : runReaction fuel (HandleResume new) VUndefined
                     (upd_microtasks (fun _ => []) wA) = Some w1) by reflexivity.
  cbn [wT upd_orchestrator upd_microtasks microtasks consumer qcs ucs trace orchestrator app]
    in E1, E2, E3, E4, E5, E6.
  rewrite A4 in E2. rewrite A2 in E3. rewrite A5 in E4. rewrite A9 in E5.
  clearbody w1. clear wT HwaitT HpT HcT.
  (* the woken loop *)
  set (w2 := upd_microtasks (fun _ => []) w1).
  assert (Hq2 : qcs w2 !! new = Some (mkQueueCommand uc (mkQueueInfo 0 (now w) Initial)
                                        (mkOnComplete (Some (length (promises w)))
                                           (Some (length (promises w))) false VUndefined) []))
    by (subst w2; cbn; rewrite E3; apply lookup_snoc).
  destruct Hwait as (Hrun & _).
  destruct (woken_loop_dispatches fuel [new] w2)
    as (w' & V1 & V2 & V3 & V4 & V5 & V6 & V7 & V8 & V9 & V10 & _).
  { subst w2. cbn. by rewrite E2. }
  { subst w2. cbn. by rewrite E2. }
  { intros n c'. subst w2. cbn. rewrite E2. apply Hx. }
  { subst w2. unfold pending. cbn. by rewrite E2. }
  { done. }
  { apply NoDup_singleton. }
  { constructor; [|constructor]. eexists _, c. split; [exact Hq2|]. cbn. subst w2. cbn.
    by rewrite E4. }
  { cbn. lia. }
  assert (Hstep2 : runReaction fuel ConsumeResume VUndefined w2 = Some w') by exact V1.
  exists w'. split.
  { cbn [run perform mbind option_bind]. rewrite Hhandle.
    cbn [fmap option_fmap option_map mbind option_bind snd].
    assert (R1 : runMicrotask fuel wA = Some w1)
      by (unfold runMicrotask; rewrite A1; exact Hstep1).
    assert (R2 : runMicrotask fuel w1 = Some w')
      by (unfold runMicrotask; rewrite E1; exact Hstep2).
    rewrite R1. cbn [mbind option_bind]. by rewrite R2. }
  split_and!.
  - apply V5. by left.
  - unfold payloadOf. rewrite (V10 new ltac:(by left)), Hq2. cbn.
    rewrite V7. subst w2. cbn. by rewrite E4, Hc.
  - exact V2.
  - rewrite V4. subst w2. unfold processCountOf. cbn. by rewrite E2.
  - unfold trackedBy. rewrite V8. subst w2. cbn. rewrite E6. cbn. by rewrite A6.
  - rewrite V8. subst w2. cbn. rewrite E6. cbn. exact A8.
  - rewrite V3. cbn [map concat]. rewrite app_nil_r.
    unfold dispatchEvents, notifications, listenersOf. rewrite Hq2. cbn.
    subst w2. cbn. rewrite E5. by rewrite <- app_assoc.
  - exact V9.
Qed.

(** ** Chains of patch commands *)

Lemma mergedPayload_ItemConsolidator (later : list Payload) : forall (first : Payload) k,
  mergedPayload ItemConsolidator first later !! k
  = head (omap (fun p : Payload => p !! k) (first :: later)).
Proof.
  induction later as [|p later IH]; intros first k.
  - cbn. by destruct (first !! k).
  - unfold mergedPayload in *. cbn [foldl]. rewrite IH.
    cbn -[ItemConsolidator]. rewrite ItemConsolidator_lookup.
    destruct (first !! k) as [v|]; [done|]. by destruct (p !! k).
Qed.

(** X22.  Three patch commands for one resource handled back to back while
    dispatch is held back: one queue command is left, pending, tracked and
    stored, and its payload is
    [consolidate(third, consolidate(second, first))].  With the
    ItemConsolidator every key has the value of the oldest patch that sets
    it: a later patch adds keys and never overwrites one. *)
Theorem oldest_patch_wins_under_ItemConsolidator (consolidate : IObjectConsolidator)
    (first second third : Payload) (k : string) :
  (fun w => (payloadOf 2 w, pending w, trackedBy w, persistedKeys w)) <$>
    run 20 [ InitializeAsync; Tick; SyncStart; Tick;
             NewUserCommand "patch" first (patchMeta "r1" "u1");
             NewUserCommand "patch" second (patchMeta "r1" "u2");
             NewUserCommand "patch" third (patchMeta "r1" "u3");
             HandleCommandAsync 0; HandleCommandAsync 1; HandleCommandAsync 2; Tick ]
        (syncWorldWith (Some consolidate) [offline] [])
  = Some (Some (mergedPayload consolidate first [second; third]),
          [2%nat], [2%nat], Some ["o-r1u3"%string]) /\
  forall later : list Payload,
    mergedPayload ItemConsolidator first later !! k
    = head (omap (fun p : Payload => p !! k) (first :: later)).
Proof.
  split; [vm_compute; reflexivity|]. intros later. apply mergedPayload_ItemConsolidator.
Qed.

(** * The orchestrator after initialization

    What is needed for C8 and C10: when the loop of the consumer ends, and
    what the consumer does with the objects made by [#loadCommandsAsync]. *)

(** The dispatch of a deserialized object on a consumer without retry policy. *)
Lemma processCommand_deserialized qc d w :
  deserializedAt qc w = Some d -> retryPolicyEvaluator (consumer w) = None ->
  processCommand (Some qc) w
  = log EvUnhandledRejection
      (upd_deserializedAt qc
         (mkQueueInfo (attemptNo (s_queueInfo d) + 1) (dateCreated (s_queueInfo d)) Complete)
         w).
Proof.
  intros Hd Hpol. unfold processCommand.
  assert (Hq : qcs w !! qc = None).
  { unfold deserializedAt in Hd. by destruct (qcs w !! qc). }
  cbn [mbind option_bind]. rewrite Hq, Hd. cbn [mbind option_bind].
  unfold handleRetryDeserialized. by rewrite Hpol.
Qed.

Lemma upd_deserializedAt_frame qc info w :
  let w' := upd_deserializedAt qc info w in
  qcs w' = qcs w /\ ucs w' = ucs w /\ consumer w' = consumer w /\
  orchestrator w' = orchestrator w /\ promises w' = promises w /\
  microtasks w' = microtasks w /\ trace w' = trace w /\ signals w' = signals w /\
  length (deserialized w') = length (deserialized w).
Proof.
  unfold upd_deserializedAt. destruct (deserializedAt qc w); [|done].
  cbn. split_and!; try done. apply length_insert.
Qed.

Lemma dispatchable_ext qc w w' :
  (forall i q, qcs w !! i = Some q ->
     exists q', qcs w' !! i = Some q' /\ command q' = command q) ->
  length (qcs w') = length (qcs w) \/ (length (qcs w') <= deserializedFrom)%nat ->
  (forall i c, ucs w !! i = Some c -> ucs w' !! i = Some c) ->
  length (deserialized w') = length (deserialized w) ->
  retryPolicyEvaluator (consumer w') = retryPolicyEvaluator (consumer w) ->
  dispatchable qc w -> dispatchable qc w'.
Proof.
  intros Hq Hl Hu Hd Hp [(q & c & H1 & H2)|[[d Hs] Hpol]].
  - left. destruct (Hq _ _ H1) as (q' & H3 & H4). exists q', c.
    split; [done|]. rewrite H4. by apply Hu.
  - right. split; [|by rewrite Hp]. unfold deserializedAt in *.
    destruct (qcs w !! qc) eqn:E; [done|].
    destruct (decide _) as [Hge|]; [|done].
    rewrite lookup_ge_None_2 by (apply lookup_ge_None_1 in E; lia).
    apply lookup_lt_is_Some. rewrite Hd. by eapply lookup_lt_Some.
Qed.

(** With an executor that starts asynchronous work and returns, the loop
    of [#consume] ends: each iteration takes a command from the pending
    set and none comes back. *)
Lemma consumeLoop_returns (fuel : nat) : forall w,
  (forall n c, consumeFunc (consumer w) n c = Returns) ->
  NoDup (pending w) ->
  Forall (fun qc => dispatchable qc w) (pending w) ->
  (length (pending w) < fuel)%nat ->
  exists w',
    consumeLoop fuel w = Some w' /\
    isRunning (consumer w') = isRunning (consumer w) /\
    orchestrator w' = orchestrator w /\
    length (qcs w') = length (qcs w) /\
    ucs w' = ucs w /\
    (forall i, i ∉ pending w -> qcs w' !! i = qcs w !! i).
Proof.
  induction fuel as [|fuel IH]; intros w Hx Hnd Hadm Hfuel; [lia|].
  cbn [consumeLoop]. destruct (isRunning (consumer w)) eqn:Hrun; [|by exists w].
  destruct (shouldConsumerWait (consumer w)) eqn:Hwait.
  - destruct (consumeLoop_waits fuel w Hrun Hwait)
      as (w' & W1 & W2 & _ & W4 & W5 & _ & _ & W8 & _).
    cbn [consumeLoop] in W1. rewrite Hrun, Hwait in W1.
    exists w'. split_and!; [done| |done| |done|].
    + by rewrite W2.
    + by rewrite W4.
    + intros i _. by rewrite W4.
  - unfold dequeue. unfold pending in *.
    destruct (queue (consumer w)) as [|qc rest] eqn:Hp.
    { rewrite shouldConsumerWait_spec, Hp in Hwait. done. }
    set (w0 := remove qc w).
    assert (Hp0 : queue (consumer w0) = rest) by (subst w0; cbn; rewrite Hp; by apply set_delete_head).
    apply Forall_cons in Hadm as [Hqc Hadm]. apply NoDup_cons in Hnd as [_ Hnd].
    assert (Hstep : exists w1,
              processCommand (Some qc) w0 = w1 /\
              queue (consumer w1) = rest /\
              consumeFunc (consumer w1) = consumeFunc (consumer w) /\
              isRunning (consumer w1) = true /\
              orchestrator w1 = orchestrator w /\
              length (qcs w1) = length (qcs w) /\ ucs w1 = ucs w /\
              (forall qc', dispatchable qc' w -> dispatchable qc' w1) /\
              (forall i, i <> qc -> qcs w1 !! i = qcs w !! i)).
    { destruct Hqc as [(q & c & Hq & Hc)|[[d Hd] Hpol]].
      - destruct (processCommand_dispatch qc q c w0 Hq Hc)
          as (w6 & E & Hr & Hcon & Hu & _ & Ho & Hd).
        assert (Hx0 : consumeFunc (consumer w0) (executions w0) c = Returns) by apply Hx.
        rewrite Hx0 in E. exists w6. split; [done|].
        assert (Hlen : length (qcs w6) = length (qcs w))
          by (unfold replaces in Hr; rewrite Hr; apply length_insert).
        split_and!; try done; try (by rewrite Hcon).
        * intros qc'. apply dispatchable_ext; try done; try (by rewrite Hcon).
          -- intros i q0 Hi. destruct (decide (i = qc)) as [->|Hne].
             ++ rewrite (replaces_lookup _ _ _ _ (lookup_lt_Some _ _ _ Hq) Hr).
                eexists. split; [done|]. change (qcs w0) with (qcs w) in Hq.
                assert (q0 = q) as -> by congruence. done.
             ++ rewrite (replaces_lookup_ne _ _ _ _ _ Hne Hr). by exists q0.
          -- by left.
          -- intros i c0. by rewrite Hu.
          -- by rewrite Hd.
        * intros i Hne. by rewrite (replaces_lookup_ne _ _ _ _ _ Hne Hr).
      - rewrite (processCommand_deserialized qc d w0 Hd Hpol).
        destruct (upd_deserializedAt_frame qc
                    (mkQueueInfo (attemptNo (s_queueInfo d) + 1)
                       (dateCreated (s_queueInfo d)) Complete) w0)
          as (F1 & F2 & F3 & F4 & _ & _ & _ & _ & F9).
        eexists. split; [done|]. cbn [log consumer orchestrator qcs ucs].
        rewrite F1, F2, F3, F4. split_and!; try done.
        intros qc'. apply dispatchable_ext; cbn [log consumer qcs ucs deserialized];
          rewrite ?F1, ?F2, ?F3; try done; [|by left].
        intros i q0 Hi. by exists q0. }
    destruct Hstep as (w1 & -> & S1 & S2 & S3 & S4 & S5 & S6 & S7 & S8).
    destruct (IH w1) as (w' & L1 & L2 & L3 & L4 & L5 & L6).
    + intros n c. rewrite S2. apply Hx.
    + by rewrite S1.
    + rewrite S1. eapply Forall_impl; [exact Hadm|]. intros qc'. apply S7.
    + rewrite S1. cbn in Hfuel. lia.
    + exists w'. split_and!; [done|congruence|congruence|congruence|congruence|].
      intros i [Hne Hin]%not_elem_of_cons. rewrite L6 by (by rewrite S1). by apply S8.
Qed.

(** [start()] returns under the same conditions. *)
Lemma start_returns (fuel : nat) (w : World) :
  (forall n c, consumeFunc (consumer w) n c = Returns) ->
  NoDup (pending w) ->
  Forall (fun qc => dispatchable qc w) (pending w) ->
  (length (pending w) < fuel)%nat ->
  exists w',
    start fuel w = Some w' /\
    isRunning (consumer w') = true /\
    orchestrator w' = orchestrator w /\
    length (qcs w') = length (qcs w) /\
    ucs w' = ucs w /\
    (forall i, i ∉ pending w -> qcs w' !! i = qcs w !! i).
Proof.
  intros Hx Hnd Hadm Hfuel. unfold start.
  destruct (resume_frame (upd_consumer (set_isRunning true) w))
    as ([r Hc0] & Hq0 & Hu0 & _ & Ho0 & Hd0).
  set (w0 := resumeOnConditionsSatisfied (upd_consumer (set_isRunning true) w)) in *.
  cbn [upd_consumer consumer qcs ucs orchestrator deserialized] in Hc0, Hq0, Hu0, Ho0, Hd0.
  destruct (isRunning (consumer w)) eqn:Hrun.
  - exists w0. split_and!; try done; [by rewrite Hc0|by rewrite Hq0|intros; by rewrite Hq0].
  - destruct (consumeLoop_returns fuel w0) as (w' & L1 & L2 & L3 & L4 & L5 & L6).
    + intros n c. rewrite Hc0. apply Hx.
    + unfold pending in *. by rewrite Hc0.
    + unfold pending in *. rewrite Hc0. cbn. eapply Forall_impl; [exact Hadm|].
      intros qc. apply dispatchable_ext; rewrite ?Hq0, ?Hu0, ?Hd0, ?Hc0; try done; [|by left].
      intros i q Hi. by exists q.
    + unfold pending in *. by rewrite Hc0.
    + exists w'. split_and!; [done| |congruence|congruence|congruence|].
      * by rewrite L2, Hc0.
      * intros i Hi. rewrite L6, Hq0; [done|]. unfold pending in *. by rewrite Hc0.
Qed.

Lemma buildConsolidatedCommand_new uc w :
  let '(queueCommand, w') := Sync.buildConsolidatedCommand uc w in
  queueCommand = length (qcs w) /\
  (exists q, qcs w' = qcs w ++ [q] /\
             _onComplete q = mkOnComplete None None false VUndefined) /\
  deserialized w' = deserialized w.
Proof.
  unfold Sync.buildConsolidatedCommand.
  destruct (ucs w !! uc) as [c|]; cbn; [|split_and!; try done; by eexists].
  match goal with
  | |- context [let '(_, _) := match ?x with _ => _ end in _] => destruct x as [[existing newPayload]|]
  end.
  - unfold Sync.removeQueueCommandAsync, Sync.storageRemove, awaitSettled, newQueueCommand.
    destruct (offlineStorage (orchestrator w)); cbn; split_and!; try done; by eexists.
  - cbn. split_and!; try done; by eexists.
Qed.

(** [queueCommand.onComplete().then(...)] on a queue command nobody awaits
    yet: a pending future with the callback of the orchestrator. *)
Lemma subscribe_fresh new q w :
  qcs w !! new = Some q ->
  _onComplete q = mkOnComplete None None false VUndefined ->
  let p := length (promises w) in
  let w3 := thenDo (onComplete new w).1 (OnCompleteThen new) (onComplete new w).2 in
  (onComplete new w).1 = p /\
  promises w3 = promises w ++ [mkPromise None [OnCompleteThen new]] /\
  (oc_promise ∘ _onComplete <$> qcs w3 !! new) = Some (Some p) /\
  microtasks w3 = microtasks w /\ orchestrator w3 = orchestrator w.
Proof.
  intros Hq Hoc. unfold onComplete. rewrite Hq, Hoc. unfold upd_qc, upd_qcs. cbn.
  unfold thenDo. cbn. rewrite lookup_snoc. cbn. split_and!; try done.
  - by rewrite insert_snoc.
  - rewrite Hq. cbn.
    rewrite list_lookup_insert_eq by (by eapply lookup_lt_Some). done.
Qed.

(** [handleCommandAsync] on an initialized orchestrator returns, having
    made a queue command and subscribed to its completion; the rest of the
    function is queued. *)
Lemma handleCommandAsync_returns (fuel : nat) (uc : UcId) (c : UserCommand) (w : World) :
  initialized (orchestrator w) = true ->
  ucs w !! uc = Some c ->
  (forall n c, consumeFunc (consumer w) n c = Returns) ->
  NoDup (pending w) ->
  Forall (fun qc => dispatchable qc w) (pending w) ->
  (length (pending w) < fuel)%nat ->
  (length (qcs w) < deserializedFrom)%nat ->
  let new := length (qcs w) in
  exists w' p rest,
    Sync.handleCommandAsync fuel uc w = Some (Returned, w') /\
    initialized (orchestrator w') = true /\
    microtasks w' = rest ++ [(HandleResume new, VUndefined)] /\
    (oc_promise ∘ _onComplete <$> qcs w' !! new) = Some (Some p) /\
    promises w' !! p = Some (mkPromise None [OnCompleteThen new]).
Proof.
  intros Hinit Hc Hx Hnd Hadm Hfuel Hlen new.
  unfold Sync.handleCommandAsync, Sync.ensureInitialized. rewrite Hinit, Hc. cbn [negb].
  assert (Hgen : forall w1 q,
            qcs w1 !! new = Some q ->
            _onComplete q = mkOnComplete None None false VUndefined ->
            initialized (orchestrator w1) = true ->
            exists w' p rest,
              (let '(p, w2) := onComplete new w1 in
               let w3 := thenDo p (OnCompleteThen new) w2 in
               Some (Returned, awaitSettled (HandleResume new) (Sync.storageSave new w3)))
              = Some (Returned, w') /\
              initialized (orchestrator w') = true /\
              microtasks w' = rest ++ [(HandleResume new, VUndefined)] /\
              (oc_promise ∘ _onComplete <$> qcs w' !! new) = Some (Some p) /\
              promises w' !! p = Some (mkPromise None [OnCompleteThen new])).
  { intros w1 q Hq Hoc Hi1.
    destruct (subscribe_fresh new q w1 Hq Hoc) as (P1 & P2 & P3 & P4 & P5).
    destruct (onComplete new w1) as [p w2]. cbn [fst snd] in *.
    set (w3 := thenDo p (OnCompleteThen new) w2) in *.
    destruct (storageSave_frame new w3) as (V1 & V2 & V3 & V4 & V5 & V6).
    destruct (storageSave_frame' new w3) as (_ & V8).
    eexists _, p, _. split; [done|]. cbn [awaitSettled upd_microtasks orchestrator microtasks
      qcs promises]. split_and!.
    - rewrite V8, P5. exact Hi1.
    - done.
    - rewrite V1, P3. by rewrite P1.
    - rewrite V5, P2, P1. apply lookup_snoc. }
  destruct (negb (isPatch (meta c)) || negb (truthy (resourceId (meta c)))).
  - cbn [mbind option_bind].
    apply (Hgen (newQueueCommand uc w).2 _ (newQueueCommand_lookup uc w)); done.
  - unfold Sync.consolidateCommand.
    pose proof (buildConsolidatedCommand_new uc (stop w)) as Hb.
    destruct (buildConsolidatedCommand_frame uc (stop w)) as (F1 & F2 & F3 & _ & F5).
    destruct (Sync.buildConsolidatedCommand uc (stop w)) as [new' w1].
    destruct Hb as (-> & (q & Hq1 & Hoc) & Hd1).
    cbn [snd stop upd_consumer consumer qcs ucs orchestrator deserialized] in *.
    destruct (start_returns fuel w1) as (w2 & S1 & S2 & S3 & S4 & S5 & S6).
    + intros n c'. rewrite F1. apply Hx.
    + unfold pending in *. by rewrite F1.
    + unfold pending in *. rewrite F1. cbn. eapply Forall_impl; [exact Hadm|].
      intros qc. apply dispatchable_ext; rewrite ?F1, ?Hd1; try done.
      * intros i q0 Hi. exists q0. split; [by apply F2|done].
      * right. rewrite Hq1, length_app. cbn. lia.
    + unfold pending in *. by rewrite F1.
    + rewrite S1. cbn [mbind option_bind].
      eapply (Hgen w2 q); [|done|by rewrite S3, F5].
      rewrite S6, Hq1; [apply lookup_snoc|].
      unfold pending. rewrite F1. cbn. intros Hin.
      rewrite Forall_forall in Hadm. destruct (Hadm _ Hin) as [(q0 & c0 & Hq0 & _)|[[d Hd] _]].
      * apply lookup_lt_Some in Hq0. unfold new in Hq0. lia.
      * unfold deserializedAt in Hd. destruct (qcs w !! new); [done|].
        destruct (decide _); [|done]. unfold new in *. lia.
Qed.

(** C8 (amended).  Before [initializeAsync] has completed,
    [handleCommandAsync] is rejected and [start] raises, both with the
    "uninitialized" error and without any effect; [stop] is not guarded and
    stops the consumer.  One [initializeAsync] on an idle orchestrator
    completes and sets [initialized].  From then on [handleCommandAsync] and
    [start] do not fail, and a further [initializeAsync] changes nothing:
    the store is not read and nothing is admitted.  They return when the
    loop of the consumer ends, which it does when the executor starts
    asynchronous work and returns and every pending command is
    [dispatchable]: [handleCommandAsync] has then made a queue command,
    subscribed the removal to its completion and queued the rest of its
    work, and [start] leaves the consumer running. *)
Theorem initialization_guard (fuel : nat) (uc : UcId) (c : UserCommand) (w : World) :
  (initialized (orchestrator w) = false ->
     Sync.handleCommandAsync fuel uc w = Some (Rejected Sync.uninitialized, w) /\
     Sync.start fuel w = Some (Threw Sync.uninitialized, w) /\
     Sync.stop w = (Returned, stop w) /\
     isRunning (consumer (Sync.stop w).2) = false) /\
  (initialized (orchestrator w) = false -> microtasks w = [] ->
   isRunning (consumer w) = false ->
     exists w', run (3 + fuel) [InitializeAsync; Tick] w = Some w' /\
                initialized (orchestrator w') = true /\ microtasks w' = []) /\
  (initialized (orchestrator w) = true ->
     (forall r w', Sync.handleCommandAsync fuel uc w = Some (r, w') -> r = Returned) /\
     (forall r w', Sync.start fuel w = Some (r, w') -> r = Returned) /\
     (microtasks w = [] -> run (2 + fuel) [InitializeAsync; Tick] w = Some w)) /\
  (initialized (orchestrator w) = true ->
   ucs w !! uc = Some c ->
   (forall n c', consumeFunc (consumer w) n c' = Returns) ->
   NoDup (pending w) ->
   Forall (fun qc => dispatchable qc w) (pending w) ->
   (length (pending w) < fuel)%nat ->
   (length (qcs w) < deserializedFrom)%nat ->
     (exists w' p rest,
        Sync.handleCommandAsync fuel uc w = Some (Returned, w') /\
        initialized (orchestrator w') = true /\
        microtasks w' = rest ++ [(HandleResume (length (qcs w)), VUndefined)] /\
        (oc_promise ∘ _onComplete <$> qcs w' !! length (qcs w)) = Some (Some p) /\
        promises w' !! p = Some (mkPromise None [OnCompleteThen (length (qcs w))])) /\
     (exists w',
        Sync.start fuel w = Some (Returned, w') /\
        isRunning (consumer w') = true /\
        initialized (orchestrator w') = true)).
Proof.
  split_and!.
  - intros Hi. unfold Sync.handleCommandAsync, Sync.start, Sync.stop, Sync.ensureInitialized.
    by rewrite Hi.
  - intros Hi Hm Hr.
    set (data := loadByKeyPrefixAsync (id (orchestrator w) +:+ "-") <$>
                   offlineStorage (orchestrator w)).
    set (w0 := match offlineStorage (orchestrator w) with
               | Some _ => log (EvLoadByKeyPrefix (id (orchestrator w) +:+ "-")) w
               | None => w
               end).
    assert (Hw0 : microtasks w0 = []) by (by subst w0; destruct (offlineStorage _)).
    set (w1 := match data with
               | Some data => foldl Sync.loadOne (upd_microtasks (fun _ => []) w0) data
               | None => upd_microtasks (fun _ => []) w0
               end).
    assert (Hw1 : microtasks w1 = []).
    { subst w1. destruct data; [|done].
      by edestruct (foldl_loadOne_stopped l (upd_microtasks (fun _ => []) w0))
        as (_ & -> & _); [by subst w0; destruct (offlineStorage _)|]. }
    exists (Sync.initResume (upd_microtasks (fun _ => []) (awaitSettled InitResume w1))).
    split; [|done].
    cbn [run perform Nat.add mbind option_bind].
    assert (Hinit : Sync.initializeAsync w = awaitSettled (LoadResume data) w0).
    { unfold Sync.initializeAsync, Sync.loadCommandsAsync. rewrite Hi.
      subst data w0. by destruct (offlineStorage _). }
    rewrite Hinit.
    rewrite (drain_cons _ (LoadResume data) VUndefined [] _ (awaitSettled InitResume w1));
      [|by cbn; rewrite Hw0|reflexivity].
    rewrite (drain_cons _ InitResume VUndefined [] _
               (Sync.initResume (upd_microtasks (fun _ => []) (awaitSettled InitResume w1))));
      [|by cbn; rewrite Hw1|reflexivity].
    by rewrite drain_nil.
  - intros Hi. split_and!.
    + intros r w'. unfold Sync.handleCommandAsync, Sync.ensureInitialized. rewrite Hi. cbn.
      intros ([qc w1] & _ & H)%bind_Some.
      destruct (onComplete qc w1). by injection H as <- _.
    + intros r w'. unfold Sync.start, Sync.ensureInitialized. rewrite Hi. cbn.
      destruct (start fuel w); [|done]. by intros [= <- _].
    + intros Hm. cbn [run perform Nat.add mbind option_bind].
      unfold Sync.initializeAsync, Sync.loadCommandsAsync. rewrite Hi.
      erewrite drain_cons; [|by cbn; rewrite Hm|reflexivity].
      rewrite drain_nil by done. f_equal.
      unfold Sync.initResume, upd_orchestrator, set_initialized. cbn.
      rewrite <- Hi, <- Hm at 1. by rewrite orchestrator_eta, world_eta.
  - intros Hi Hc Hx Hnd Hadm Hfuel Hlen. split.
    + exact (handleCommandAsync_returns fuel uc c w Hi Hc Hx Hnd Hadm Hfuel Hlen).
    + destruct (start_returns fuel w Hx Hnd Hadm Hfuel) as (w' & S1 & S2 & S3 & _).
      exists w'. unfold Sync.start, Sync.ensureInitialized. rewrite Hi, S1. cbn.
      split_and!; [done|done|by rewrite S3].
Qed.









Lemma NoDup_seq' (first n : nat) : NoDup (seq first n).
Proof. apply NoDup_ListNoDup, List.seq_NoDup. Qed.


(** * Instances of the further properties *)

Lemma run_app fuel (program1 program2 : list Action) : forall w,
  run fuel (program1 ++ program2) w = run fuel program1 w ≫= run fuel program2.
Proof.
  induction program1 as [|a program1 IH]; intros w; [done|].
  cbn [app run]. destruct (perform fuel w a) as [w1|]; [apply IH|done].
Qed.

Ltac in_store := repeat constructor; eexists _, _; split; reflexivity.
Ltac no_dup := apply (bool_decide_unpack _); vm_compute; exact I.

Lemma start_dispatches_pending_in_order_witness :
  exists w',
    start 5 (queuedWorld []) = Some w' /\
    pending w' = [] /\
    filter isConsume (trace w') = [EvConsume 0; EvConsume 1] /\
    processCountOf w' = 2.
Proof.
  destruct (start_dispatches_pending_in_order 5 (queuedWorld []))
    as (w' & H1 & _ & H3 & H4 & H5 & _).
  - reflexivity.
  - reflexivity.
  - intros n c. reflexivity.
  - no_dup.
  - in_store.
  - vm_compute. lia.
  - exists w'. split_and!; [exact H1|exact H3|by rewrite H4|by rewrite H5].
Defined.

Lemma start_dispatches_up_to_the_cap_witness :
  exists w',
    start 5 (queuedWorld [processCountBelow 1]) = Some w' /\
    pending w' = [1%nat] /\
    filter isConsume (trace w') = [EvConsume 0] /\
    processCountOf w' = 1.
Proof.
  destruct (start_dispatches_up_to_the_cap 5 1 (queuedWorld [processCountBelow 1]))
    as (w' & H1 & H2 & H3 & H4 & _).
  - reflexivity.
  - reflexivity.
  - intros n c. reflexivity.
  - no_dup.
  - in_store.
  - vm_compute. lia.
  - exists w'. split_and!; [exact H1|exact H2|by rewrite H3|by rewrite H4].
Defined.

Lemma failing_command_execution_count_witness :
  exists w',
    start 5 (throwingWorld 3) = Some w' /\
    executions w' = 3%nat /\
    trace w' = [ EvStatusUpdate 7 0 Processing; EvConsume 0;
                 EvStatusUpdate 7 0 Processing; EvConsume 0;
                 EvStatusUpdate 7 0 Processing; EvConsume 0;
                 EvStatusUpdate 7 0 Complete ] /\
    attemptNoOf 0 w' = Some 3.
Proof.
  destruct (failing_command_execution_count 5 3 0
              (mkQueueCommand 0 (mkQueueInfo 0 0 Initial)
                              (mkOnComplete None None false VUndefined) [7%nat])
              (mkUserCommand "work" ∅ systemMeta 0) (throwingWorld 3))
    as (w' & H1 & H2 & H3 & _ & H5 & _).
  - reflexivity.
  - reflexivity.
  - reflexivity.
  - intros n c. reflexivity.
  - reflexivity.
  - reflexivity.
  - reflexivity.
  - vm_compute. lia.
  - exists w'. split_and!; [exact H1|by rewrite H2|by rewrite H3|by rewrite H5].
Defined.

Lemma failure_is_retried_iff_a_condition_allows_witness :
  attemptNoOf 0 (handleRetry 0 dispatchedWorld) = Some 1 /\
  statusOf 0 (handleRetry 0 dispatchedWorld) = Some Initial /\
  pending (handleRetry 0 dispatchedWorld) = [0%nat].
Proof.
  destruct (failure_is_retried_iff_a_condition_allows 0 _ _ dispatchedWorld eq_refl eq_refl)
    as (H1 & _ & H3 & _).
  destruct (H3 eq_refl) as (H4 & H5 & _).
  split_and!; [exact H1|exact H4|exact H5].
Defined.

Lemma saved_command_is_found_by_its_orchestrator_witness :
  exists s',
    offlineStorage (orchestrator (Sync.storageSave 0 secondPatchWorld)) = Some s' /\
    storedPatch {[ "a" := 1; "b" := 2 ]}%string ∈ loadByKeyPrefixAsync "o-" s'.
Proof.
  destruct (saved_command_is_found_by_its_orchestrator 0
              [("o-r1u1"%string, storedPatch {[ "a" := 1; "b" := 2 ]}%string)]
              (storedPatch {[ "a" := 1; "b" := 2 ]}%string) secondPatchWorld)
    as (s' & H1 & _ & H3 & _).
  - reflexivity.
  - reflexivity.
  - exists s'. split; [exact H1|exact H3].
Defined.

Lemma initialize_recovers_every_stored_command_witness :
  exists w',
    run 8 [InitializeAsync; Tick] restartedWorld = Some w' /\
    pending w' = [deserializedFrom; S deserializedFrom] /\
    trackedBy w' = [deserializedFrom; S deserializedFrom] /\
    patchOf "r1" w' = Some (S deserializedFrom) /\
    deserializedAt deserializedFrom w' = Some (storedPatch {[ "a" := 1 ]}%string) /\
    qcs w' = [] /\ promises w' = [].
Proof.
  destruct (initialize_recovers_every_stored_command 5
              [ ("o-r1u1"%string, storedPatch {[ "a" := 1 ]}%string);
                ("p-r1u9"%string, storedPatch ∅);
                ("o-r1u2"%string,
                 mkStored "patch" {[ "a" := 2 ]}%string (patchMeta "r1" "u2")
                          (mkQueueInfo 0 0 Initial)) ] restartedWorld)
    as (w' & H1 & _ & _ & _ & H5 & H6 & H7 & H8 & _ & H10 & _ & _ & H13 & _).
  - reflexivity.
  - reflexivity.
  - reflexivity.
  - apply Nat.le_0_l.
  - intros qc Hin. by apply elem_of_nil in Hin.
  - intros qc Hin. by apply elem_of_nil in Hin.
  - reflexivity.
  - exists w'. split_and!; [exact H1|exact H5|exact H6| |exact (H7 0%nat _ eq_refl)
                           |exact H10|exact H13].
    unfold patchOf. by rewrite H8.
Defined.


Lemma patch_without_pending_predecessor_is_not_merged_witness :
  (Sync.buildConsolidatedCommand 1 handledWorld).1 = 1%nat /\
  payloadOf 1 (Sync.buildConsolidatedCommand 1 handledWorld).2 = Some ∅ /\
  patchOf "r1" (Sync.buildConsolidatedCommand 1 handledWorld).2 = Some 1%nat.
Proof.
  pose proof (patch_without_pending_predecessor_is_not_merged 1
                (mkUserCommand "patch" ∅ (patchMeta "r1" "u1") 1) handledWorld
                eq_refl (or_introl eq_refl)) as H.
  destruct (Sync.buildConsolidatedCommand 1 handledWorld) as [queueCommand w'].
  destruct H as (H1 & _ & H3 & H4 & _). cbn [fst snd].
  split_and!; [exact H1|by rewrite H1 in H3|].
  unfold patchOf. rewrite H4. by rewrite H1.
Defined.

Lemma removal_drops_the_patch_entry_of_the_resource_witness :
  patchOf "r1" secondPatchWorld = Some 0%nat /\
  patchOf "r1" (Sync.removeResume 0 secondPatchWorld) = None /\
  payloadOf 1 (Sync.buildConsolidatedCommand 1 (Sync.removeResume 0 secondPatchWorld)).2
  = Some {[ "b" := 3; "c" := 4 ]}%string.
Proof.
  pose proof (removal_drops_the_patch_entry_of_the_resource 0 1 (patchMeta "r1" "u1")
                (mkUserCommand "patch" {[ "b" := 3; "c" := 4 ]}%string
                               (patchMeta "r1" "u2") 1)
                secondPatchWorld eq_refl eq_refl eq_refl) as H.
  cbn zeta in H. destruct H as (H1 & _ & H).
  destruct (Sync.buildConsolidatedCommand 1 (Sync.removeResume 0 secondPatchWorld))
    as [queueCommand w'].
  destruct H as (H2 & H3 & _). cbn [fst snd].
  split_and!; [reflexivity|exact H1|by rewrite H2 in H3].
Defined.

Lemma direct_command_is_saved_tracked_and_queued_witness :
  exists w',
    run 7 [HandleCommandAsync 0; Tick] commandWorld = Some w' /\
    pending w' = [0%nat] /\ trackedBy w' = [0%nat] /\
    persistedKeys w' = Some ["o-systemuuid-1"%string] /\
    isRunning (consumer w') = false.
Proof.
  destruct (direct_command_is_saved_tracked_and_queued 5 0
              (mkUserCommand "work" {[ "n" := 1 ]}%string systemMeta 0) commandWorld)
    as (w' & H1 & _ & _ & _ & H5 & H6 & H7 & _ & _ & H10 & _).
  - reflexivity.
  - reflexivity.
  - by left.
  - reflexivity.
  - reflexivity.
  - exists w'. split_and!; [exact H1|exact H5|exact H6| |exact H10].
    unfold persistedKeys. by rewrite H7.
Defined.

Lemma patch_command_starts_the_consumer_witness :
  isRunning (consumer handledWorld) = false /\
  exists w',
    Sync.handleCommandAsync 5 1 handledWorld = Some (Returned, w') /\
    isRunning (consumer w') = true /\
    statusOf 0 w' = Some Processing.
Proof.
  split; [reflexivity|].
  destruct (patch_command_starts_the_consumer 5 1
              (mkUserCommand "patch" ∅ (patchMeta "r1" "u1") 1) handledWorld)
    as (w' & H1 & H2 & _ & H4 & _).
  - reflexivity.
  - reflexivity.
  - reflexivity.
  - reflexivity.
  - reflexivity.
  - intros n c. reflexivity.
  - no_dup.
  - in_store.
  - vm_compute. lia.
  - exists w'. split_and!; [exact H1|exact H2|]. apply H4. by left.
Defined.

Lemma enqueue_wakes_the_waiting_loop_witness :
  exists w',
    run 5 [Enqueue 0; Enqueue 1; Microtask] waitingWorld = Some w' /\
    pending w' = [] /\
    trace w' = [EvConsume 0; EvConsume 1] /\
    processCountOf w' = 2.
Proof.
  destruct (enqueue_wakes_the_waiting_loop 5 0 [1%nat] waitingWorld)
    as (w1 & w' & H1 & _ & _ & _ & H5 & H6 & H7 & H8 & _).
  - split; [reflexivity|]. exists 0%nat. by split.
  - reflexivity.
  - reflexivity.
  - reflexivity.
  - intros n c. reflexivity.
  - no_dup.
  - in_store.
  - vm_compute. lia.
  - exists w'. split_and!; [|exact H6|by rewrite H7|by rewrite H8].
    change [Enqueue 0; Enqueue 1; Microtask] with (map Enqueue [0; 1]%nat ++ [Microtask]).
    rewrite run_app, H1. exact H5.
Defined.

Lemma first_report_completes_the_dispatch_witness :
  exists w',
    run 5 [Executed 0 true; Microtask] (processCommand (Some 0%nat) createdWorld) = Some w' /\
    statusOf 0 w' = Some Complete /\ processCountOf w' = 0 /\
    stale 0 (VBool true) w'.
Proof.
  destruct (first_report_completes_the_dispatch 5 0
              (mkQueueCommand 0 (mkQueueInfo 0 0 Initial)
                              (mkOnComplete None None false VUndefined) [])
              (mkUserCommand "work" ∅ systemMeta 0) true createdWorld)
    as (w2 & w' & H1 & _ & _ & _ & H5 & H6 & _ & H8 & _ & H10).
  - reflexivity.
  - reflexivity.
  - reflexivity.
  - reflexivity.
  - reflexivity.
  - exists w'. split_and!; [|by apply H8|exact H6|exact H10].
    change [Executed 0 true; Microtask] with ([Executed 0 true] ++ [Microtask]).
    cbn [command] in H1. rewrite run_app, H1. exact H5.
Defined.

Lemma completed_command_is_forgotten_witness :
  exists w',
    run 8 [CompletedCommandExecution 0 true; Tick] handledWorld = Some w' /\
    statusOf 0 w' = Some Complete /\
    trackedBy w' = [] /\ pending w' = [] /\ persistedKeys w' = Some [].
Proof.
  destruct (completed_command_is_forgotten 5 0
              (mkQueueCommand 0 (mkQueueInfo 0 0 Initial)
                              (mkOnComplete (Some 0%nat) (Some 0%nat) false VUndefined) [])
              0 systemMeta handledWorld)
    as (w' & H1 & _ & H3 & _ & _ & H6 & H7 & _ & H9 & _).
  - reflexivity.
  - reflexivity.
  - reflexivity.
  - reflexivity.
  - reflexivity.
  - by right.
  - exists w'. split_and!; [exact H1|exact H3|by rewrite H6|by rewrite H7|].
    unfold persistedKeys. by rewrite H9.
Defined.

Lemma completion_frees_a_slot_for_the_oldest_pending_witness :
  exists w',
    run 5 [CompletedCommandExecution 0 true; Microtask] fullWorld = Some w' /\
    statusOf 0 w' = Some Complete /\ statusOf 1 w' = Some Processing /\
    pending w' = [] /\ processCountOf w' = 1.
Proof.
  destruct (completion_frees_a_slot_for_the_oldest_pending 5 1 0 1 []
              (mkQueueCommand 0 (mkQueueInfo 0 0 Processing)
                              (mkOnComplete None None false VUndefined) [])
              fullWorld)
    as (w1 & w' & H1 & _ & _ & H4 & H5 & H6 & H7 & H8 & _).
  - split; [reflexivity|]. exists 1%nat. by split.
  - reflexivity.
  - reflexivity.
  - intros n c. reflexivity.
  - reflexivity.
  - reflexivity.
  - no_dup.
  - eexists _, _; split; reflexivity.
  - reflexivity.
  - reflexivity.
  - done.
  - lia.
  - exists w'. split_and!; [|exact H5|exact H6|exact H7|exact H8].
    change [CompletedCommandExecution 0 true; Microtask]
      with ([CompletedCommandExecution 0 true] ++ [Microtask]).
    rewrite run_app, H1. exact H4.
Defined.

Lemma handled_command_is_dispatched_by_the_waiting_loop_witness :
  exists w',
    run 5 [HandleCommandAsync 0; Microtask; Microtask] startedWorld = Some w' /\
    statusOf 0 w' = Some Processing /\
    trace w' = trace startedWorld ++ [EvSave "o-systemuuid-1"; EvConsume 0] /\
    waiting w'.
Proof.
  destruct (handled_command_is_dispatched_by_the_waiting_loop 5 0
              (mkUserCommand "work" {[ "n" := 1 ]}%string systemMeta 0) startedWorld)
    as (w' & H1 & H2 & _ & _ & _ & _ & _ & H8 & H9).
  - reflexivity.
  - reflexivity.
  - by left.
  - reflexivity.
  - split; [reflexivity|]. exists 0%nat. by split.
  - reflexivity.
  - reflexivity.
  - intros n c. reflexivity.
  - lia.
  - exists w'. split_and!; [exact H1|exact H2|exact H8|exact H9].
Defined.

Lemma enqueue_is_idempotent_witness :
  NoDup (pending (enqueue 0 (queuedWorld []))) /\
  pending (enqueue 0 (queuedWorld [])) = [0%nat; 1%nat].
Proof.
  destruct (enqueue_is_idempotent 0 (queuedWorld [])) as (_ & _ & H3 & H4).
  split; [apply H3; no_dup|]. rewrite H4; [reflexivity|by left].
Defined.

Lemma remove_undoes_enqueue_only_witness :
  remove 1 waitingWorld = waitingWorld /\
  pending (remove 1 (enqueue 1 waitingWorld)) = [].
Proof.
  destruct (remove_undoes_enqueue_only 1 waitingWorld) as (H1 & H2 & _).
  split; [apply H1|rewrite H2; [reflexivity|]]; by intros ?%elem_of_nil.
Defined.

Lemma retry_conditions_are_alternatives_witness :
  shouldRetry (addCondition (AttempNoRetryCondition 1)
                            (mkEvaluator [AttempNoRetryCondition 3]))
              (mkUserCommand "work" ∅ systemMeta 0) (mkQueueInfo 2 0 Initial) = true.
Proof.
  destruct (retry_conditions_are_alternatives (mkEvaluator [AttempNoRetryCondition 3])
              (AttempNoRetryCondition 1) [] (mkUserCommand "work" ∅ systemMeta 0)
              (mkQueueInfo 2 0 Initial)) as (_ & _ & H3 & _).
  apply H3. reflexivity.
Defined.

(** * Instances for the orchestrator after initialization *)

Lemma initialization_guard_witness :
  Sync.start 5 (syncWorld [] []) = Some (Threw Sync.uninitialized, syncWorld [] []) /\
  (exists w', run 8 [InitializeAsync; Tick] (syncWorld [] []) = Some w' /\
              initialized (orchestrator w') = true /\ microtasks w' = []) /\
  run 7 [InitializeAsync; Tick] initializedWorld = Some initializedWorld /\
  (exists w', Sync.handleCommandAsync 5 1 handledWorld = Some (Returned, w') /\
              initialized (orchestrator w') = true) /\
  (exists w', Sync.start 5 handledWorld = Some (Returned, w') /\
              isRunning (consumer w') = true) /\
  (exists w', Sync.handleCommandAsync 5 0 recoveredWorld = Some (Returned, w') /\
              initialized (orchestrator w') = true) /\
  (exists w', Sync.start 5 recoveredWorld = Some (Returned, w') /\
              isRunning (consumer w') = true).
Proof.
  destruct (initialization_guard 5 0 (mkUserCommand "work" ∅ systemMeta 0) (syncWorld [] []))
    as (H1 & H2 & _).
  destruct (initialization_guard 5 0 (mkUserCommand "work" ∅ systemMeta 0) initializedWorld)
    as (_ & _ & H3 & _).
  destruct (initialization_guard 5 1
              (mkUserCommand "patch" ∅ (patchMeta "r1" "u1") 1) handledWorld)
    as (_ & _ & _ & H4).
  destruct (initialization_guard 5 0
              (mkUserCommand "patch" {[ "c" := 3 ]}%string (patchMeta "r1" "u3") 0)
              recoveredWorld)
    as (_ & _ & _ & H5).
  assert (D4 : Forall (fun qc => dispatchable qc handledWorld) (pending handledWorld)).
  { constructor; [|constructor]. left.
    by exists (mkQueueCommand 0 (mkQueueInfo 0 0 Initial)
                 (mkOnComplete (Some 0%nat) (Some 0%nat) false VUndefined) []),
              (mkUserCommand "work" {[ "n" := 1 ]}%string systemMeta 0). }
  assert (D5 : Forall (fun qc => dispatchable qc recoveredWorld) (pending recoveredWorld)).
  { constructor; [|constructor; [|constructor]]; right;
      (split; [eexists; vm_compute; reflexivity|reflexivity]). }
  destruct (H4 eq_refl eq_refl (fun _ _ => eq_refl) (NoDup_singleton 0%nat) D4
              ltac:(vm_compute; lia) ltac:(unfold deserializedFrom; vm_compute; lia))
    as [(w4 & p4 & r4 & A1 & A2 & _) (w4' & A3 & A4 & _)].
  destruct (H5 eq_refl eq_refl (fun _ _ => eq_refl) (NoDup_seq' deserializedFrom 2) D5
              ltac:(vm_compute; lia) ltac:(unfold deserializedFrom; vm_compute; lia))
    as [(w5 & p5 & r5 & B1 & B2 & _) (w5' & B3 & B4 & _)].
  split; [apply H1; reflexivity|].
  split; [apply H2; reflexivity|].
  split; [apply H3; reflexivity|].
  split; [exists w4; split; [exact A1|exact A2]|].
  split; [exists w4'; split; [exact A3|exact A4]|].
  split; [exists w5; split; [exact B1|exact B2]|].
  exists w5'; split; [exact B3|exact B4].
Defined.

